(** * regional-cli: the Lambda deployer and the OIDC provisioner handler

    A shallow embedding of

    - [pkg/lambda/deployer] (policy generator, package builder, deployment
      orchestrator),
    - [pkg/lambda/functions/oidc-provisioner] (the reconciliation handler), and
    - [internal/validator] (the check of the AWS credentials and region),

    together with the properties stated about them.  Remote services and
    the build host are reached through interfaces in the Go code; here they
    are type classes over an abstract world [W], and every function that
    talks to them threads the world through explicitly. *)

From Stdlib Require Import ZArith Ascii String List Lia.
From stdpp Require Import base option list sorting gmap strings pretty.

#[local] Set Warnings "-register-all".

Open Scope string_scope.
Open Scope list_scope.

(** ** Go runtime pieces shared by both packages *)

Module Go.

(** *** [strings] *)

(** [strings.HasSuffix]: [len(s) >= len(suffix) && s[len(s)-len(suffix):] == suffix]. *)
Definition HasSuffix (s suffix : string) : bool :=
  (String.length suffix <=? String.length s)%nat
  && String.eqb
       (substring (String.length s - String.length suffix) (String.length suffix) s)
       suffix.

(** [strings.TrimSuffix]: the suffix is removed once, when present. *)
Definition TrimSuffix (s suffix : string) : string :=
  if HasSuffix s suffix
  then substring 0 (String.length s - String.length suffix) s
  else s.

(** *** [error] values

    An [error] is either a plain message ([errors.New], or [fmt.Errorf]
    without [%w]), a typed SDK exception, or a [fmt.Errorf] wrapper around
    another error.  [errors_As] walks the chain of wrappers the way
    [errors.As] does, looking for an exception of the requested type. *)

Inductive errtype :=
| iam_NoSuchEntityException
| lambda_ResourceNotFoundException
| lambda_ResourceConflictException
| logs_ResourceAlreadyExistsException
| other_errtype (name : string).

#[global] Instance errtype_eq_dec : EqDecision errtype.
Proof. solve_decision. Defined.

Inductive error :=
| errors_New (text : string)
| Exception (ty : errtype) (text : string)
| Errorf (before : string) (inner : error) (after : string).

#[global] Instance error_eq_dec : EqDecision error.
Proof. solve_decision. Defined.

(** [err.Error()] *)
Fixpoint Error (e : error) : string :=
  match e with
  | errors_New t => t
  | Exception _ t => t
  | Errorf b i a => b +:+ Error i +:+ a
  end.

Fixpoint errors_As (e : error) (ty : errtype) : bool :=
  match e with
  | errors_New _ => false
  | Exception ty' _ => bool_decide (ty' = ty)
  | Errorf _ i _ => errors_As i ty
  end.

Definition newline : string := String (ascii_of_nat 10) EmptyString.

(** [fmt.Errorf("<prefix>%w", err)] *)
Definition wrap (prefix : string) (e : error) : error := Errorf prefix e EmptyString.

(** What a library or client call hands back: [(out, nil)] or [(nil, err)]. *)
Inductive reply (A : Type) :=
| Reply (a : A)
| Fault (e : error).
Arguments Reply {A} a.
Arguments Fault {A} e.

(** *** Control flow

    A Go function of this repository either returns a value, returns an
    error, or panics on a nil dereference. *)

Inductive outcome (A : Type) :=
| Ok (a : A)
| Err (e : error)
| Panic.
Arguments Ok {A} a.
Arguments Err {A} e.
Arguments Panic {A}.

(** The state threaded through a run: the outside world, the log of client
    calls made so far (oldest first), and what was printed. *)
Record state (W E : Type) := mkState {
  world : W;
  calls : list E;
  stdout : list string;
}.
Arguments mkState {W E}.
Arguments world {W E}.
Arguments calls {W E}.
Arguments stdout {W E}.

Definition M (W E A : Type) : Type := state W E -> outcome A * state W E.

Section Monad.
Context {W E : Type}.

Definition ret {A} (a : A) : M W E A := fun s => (Ok a, s).
Definition fail {A} (e : error) : M W E A := fun s => (Err e, s).
Definition panic {A} : M W E A := fun s => (Panic, s).

Definition bind {A B} (m : M W E A) (k : A -> M W E B) : M W E B :=
  fun s =>
    match m s with
    | (Ok a, s') => k a s'
    | (Err e, s') => (Err e, s')
    | (Panic, s') => (Panic, s')
    end.

(** [x, err := f(); if err != nil { return fmt.Errorf("<prefix>%w", err) }] *)
Definition wrapping {A} (prefix : string) (m : M W E A) : M W E A :=
  fun s =>
    match m s with
    | (Err e, s') => (Err (wrap prefix e), s')
    | r => r
    end.

(** [x, err := f()] with [err] inspected by the caller. *)
Definition try {A} (m : M W E A) : M W E (reply A) :=
  fun s =>
    match m s with
    | (Ok a, s') => (Ok (Reply a), s')
    | (Err e, s') => (Ok (Fault e), s')
    | (Panic, s') => (Panic, s')
    end.

(** A client call: run it against the world and log it. *)
Definition invoke {A} (ev : E) (f : W -> reply A * W) : M W E A :=
  fun s =>
    let '(r, w') := f (world s) in
    let s' := mkState w' (calls s ++ [ev]) (stdout s) in
    match r with
    | Reply a => (Ok a, s')
    | Fault e => (Err e, s')
    end.

(** A call to the host that is not part of any service interface. *)
Definition host {A} (f : W -> reply A * W) : M W E A :=
  fun s =>
    let '(r, w') := f (world s) in
    let s' := mkState w' (calls s) (stdout s) in
    match r with
    | Reply a => (Ok a, s')
    | Fault e => (Err e, s')
    end.

(** [fmt.Printf] *)
Definition Printf (line : string) : M W E unit :=
  fun s => (Ok tt, mkState (world s) (calls s) (stdout s ++ [line])).

(** [*p] for a pointer field of an SDK output. *)
Definition deref {A} (p : option A) : M W E A :=
  match p with
  | Some a => ret a
  | None => panic
  end.

(** A step that logs only calls satisfying [P], whatever its outcome. *)
Definition emits {A} (P : E -> Prop) (m : M W E A) : Prop :=
  forall s r s',
    m s = (r, s') -> exists evs, calls s' = calls s ++ evs /\ Forall P evs.

(** A step that never returns an error. *)
Definition error_free {A} (m : M W E A) : Prop :=
  forall s e, fst (m s) <> Err e.

(** A step that never panics. *)
Definition panic_free {A} (m : M W E A) : Prop :=
  forall s, fst (m s) <> Panic.

End Monad.

Declare Scope go_scope.
Delimit Scope go_scope with go.
Notation "x <-- m ;; k" := (bind m (fun x => k))
  (at level 100, m at next level, right associativity) : go_scope.
Notation "m ;;; k" := (bind m (fun _ => k))
  (at level 100, right associativity) : go_scope.

End Go.

(** ** [pkg/lambda/functions/oidc-provisioner]: the reconciliation handler *)

Module provisioner.
Import Go.
Local Open Scope go_scope.

Definition statusCreated : string := "created".
Definition statusAlreadyExists : string := "already_exists".
Definition tagComponentKey : string := "rosa:component".
Definition tagComponentValue : string := "oidc-provider".
Definition tagClusterKey : string := "rosa:cluster-id".

(** [types.go] *)
Record OIDCProvisionerRequest := {
  IssuerURL : string;
  Thumbprint : string;
  ClusterID : string;
  ClientIDs : list string;
}.

Record OIDCProvisionerResponse := {
  OIDCProviderARN : string;
  Status : string;
  Message : string;
}.

#[global] Instance OIDCProvisionerResponse_eq_dec : EqDecision OIDCProvisionerResponse.
Proof. solve_decision. Defined.

(** The fields of the IAM SDK types the handler reads or writes.  A field
    the SDK declares as [*string] and the handler receives is an [option];
    one the handler fills with [aws.String] is a plain [string]. *)
Record OpenIDConnectProviderListEntry := { entry_Arn : option string }.

Record ListOpenIDConnectProvidersOutput := {
  OpenIDConnectProviderList : list OpenIDConnectProviderListEntry;
}.

Record GetOpenIDConnectProviderInput := { get_OpenIDConnectProviderArn : option string }.

Record GetOpenIDConnectProviderOutput := { get_Url : option string }.

Record CreateOpenIDConnectProviderInput := {
  create_Url : string;
  create_ThumbprintList : list string;
  create_ClientIDList : list string;
}.

Record CreateOpenIDConnectProviderOutput := { created_OpenIDConnectProviderArn : option string }.

Record Tag := { Key : string; Value : string }.

Record TagOpenIDConnectProviderInput := {
  tag_OpenIDConnectProviderArn : string;
  tag_Tags : list Tag;
}.

(** [IAMAPI]: the IAM operations needed by the handler. *)
Class IAMAPI (W : Type) := {
  CreateOpenIDConnectProvider :
    CreateOpenIDConnectProviderInput -> W -> reply CreateOpenIDConnectProviderOutput * W;
  GetOpenIDConnectProvider :
    GetOpenIDConnectProviderInput -> W -> reply GetOpenIDConnectProviderOutput * W;
  ListOpenIDConnectProviders :
    W -> reply ListOpenIDConnectProvidersOutput * W;
  TagOpenIDConnectProvider :
    TagOpenIDConnectProviderInput -> W -> reply unit * W;
}.

(** The log of IAM calls. *)
Inductive Call :=
| CallCreateOpenIDConnectProvider (input : CreateOpenIDConnectProviderInput)
| CallGetOpenIDConnectProvider (input : GetOpenIDConnectProviderInput)
| CallListOpenIDConnectProviders
| CallTagOpenIDConnectProvider (input : TagOpenIDConnectProviderInput).


(** [net/url]: the two fields of a parsed URL the handler looks at.  The
    parser itself belongs to the Go standard library and is a parameter. *)
Record URL := { Scheme : string; Host : string }.

Class NetURL := { url_Parse : string -> reply URL }.

Section Handler.
Context {W : Type} `{!IAMAPI W} `{!NetURL}.

Local Abbreviation M := (Go.M W Call).

(** [validateRequest] validates the input request; [None] is Go's [nil]. *)
Definition validateRequest (req : OIDCProvisionerRequest) : option error :=
  if String.eqb (IssuerURL req) EmptyString then
    Some (errors_New "issuer_url is required")
  else
    match url_Parse (IssuerURL req) with
    | Fault err => Some (wrap "invalid issuer_url: " err)
    | Reply parsedURL =>
      if negb (String.eqb (Scheme parsedURL) "https") then
        Some (errors_New "issuer_url must use https scheme")
      else if String.eqb (Host parsedURL) EmptyString then
        Some (errors_New "issuer_url must have a valid host")
      else if String.eqb (Thumbprint req) EmptyString then
        Some (errors_New "thumbprint is required")
      else if String.eqb (ClusterID req) EmptyString then
        Some (errors_New "cluster_id is required")
      else None
    end.

(** The loop of [checkProviderExists] over the listed providers. *)
Fixpoint scanProviders (normalizedIssuerURL : string)
    (providers : list OpenIDConnectProviderListEntry) : M (string * bool) :=
  match providers with
  | [] => ret (EmptyString, false)
  | provider :: rest =>
    let input := {| get_OpenIDConnectProviderArn := entry_Arn provider |} in
    got <-- try (invoke (CallGetOpenIDConnectProvider input)
                        (GetOpenIDConnectProvider input)) ;;
    match got with
    | Fault _ => scanProviders normalizedIssuerURL rest
    | Reply getOutput =>
      match get_Url getOutput with
      | Some url =>
        if String.eqb (TrimSuffix url "/") normalizedIssuerURL then
          arn <-- deref (entry_Arn provider) ;;
          ret (arn, true)
        else scanProviders normalizedIssuerURL rest
      | None => scanProviders normalizedIssuerURL rest
      end
    end
  end.

(** [checkProviderExists] checks if an OIDC provider with the given issuer
    URL already exists. *)
Definition checkProviderExists (issuerURL : string) : M (string * bool) :=
  let normalizedIssuerURL := TrimSuffix issuerURL "/" in
  output <-- invoke CallListOpenIDConnectProviders ListOpenIDConnectProviders ;;
  scanProviders normalizedIssuerURL (OpenIDConnectProviderList output).

Definition createProviderInput (req : OIDCProvisionerRequest)
    : CreateOpenIDConnectProviderInput :=
  {| create_Url := TrimSuffix (IssuerURL req) "/";
     create_ThumbprintList := [Thumbprint req];
     create_ClientIDList :=
       if (0 <? length (ClientIDs req))%nat then ClientIDs req
       else ["openshift"; "sts.amazonaws.com"] |}.

(** [createProvider] creates a new OIDC provider. *)
Definition createProvider (req : OIDCProvisionerRequest) : M string :=
  let input := createProviderInput req in
  output <-- invoke (CallCreateOpenIDConnectProvider input)
                    (CreateOpenIDConnectProvider input) ;;
  deref (created_OpenIDConnectProviderArn output).

Definition providerTags (clusterID : string) : list Tag :=
  let tags := [ {| Key := tagComponentKey; Value := tagComponentValue |} ] in
  if negb (String.eqb clusterID EmptyString)
  then tags ++ [ {| Key := tagClusterKey; Value := clusterID |} ]
  else tags.

(** [tagProvider] adds tags to the OIDC provider. *)
Definition tagProvider (providerARN clusterID : string) : M unit :=
  let input := {| tag_OpenIDConnectProviderArn := providerARN;
                  tag_Tags := providerTags clusterID |} in
  invoke (CallTagOpenIDConnectProvider input) (TagOpenIDConnectProvider input).

(** [Handle] processes the OIDC provisioner request. *)
Definition Handle (req : OIDCProvisionerRequest) : M OIDCProvisionerResponse :=
  wrapping "invalid request: "
    (match validateRequest req with Some err => fail err | None => ret tt end) ;;;
  let issuerURL := TrimSuffix (IssuerURL req) "/" in
  found <-- wrapping "failed to check if provider exists: "
              (checkProviderExists issuerURL) ;;
  let '(providerARN, exists_) := found in
  if exists_ then
    wrapping "failed to tag existing provider: "
      (tagProvider providerARN (ClusterID req)) ;;;
    ret {| OIDCProviderARN := providerARN;
           Status := statusAlreadyExists;
           Message := "OIDC provider already exists" |}
  else
    providerARN <-- wrapping "failed to create OIDC provider: " (createProvider req) ;;
    tagged <-- try (tagProvider providerARN (ClusterID req)) ;;
    match tagged with
    | Fault err => Printf ("Warning: failed to tag provider: " +:+ Error err +:+ newline)
    | Reply _ => ret tt
    end ;;;
    ret {| OIDCProviderARN := providerARN;
           Status := statusCreated;
           Message := "OIDC provider created successfully" |}.

End Handler.

(** *** The validation rules

    The checks of [validateRequest], one constructor a check, in the order
    in which the function makes them. *)
Inductive rule :=
| MissingIssuerURL
| UnparseableIssuerURL
| NotHTTPS
| MissingHost
| MissingThumbprint
| MissingClusterID.

Definition rules_in_order : list rule :=
  [MissingIssuerURL; UnparseableIssuerURL; NotHTTPS; MissingHost;
   MissingThumbprint; MissingClusterID].

(** The rules as the specification lists them: five, with a rule on
    absolute URLs in second place and none on the host. *)
Inductive listed_rule :=
| ListedMissingIssuerURL
| ListedNonAbsoluteIssuerURL
| ListedNonSecureScheme
| ListedMissingThumbprint
| ListedMissingClusterID.

Definition listed_rules_in_order : list listed_rule :=
  [ListedMissingIssuerURL; ListedNonAbsoluteIssuerURL; ListedNonSecureScheme;
   ListedMissingThumbprint; ListedMissingClusterID].

(** Two readings of "the issuer URL is not absolute": it does not parse or
    has no scheme; or, more broadly, it also counts as not absolute when it
    has no host. *)
Definition no_scheme (parsed : reply URL) : bool :=
  match parsed with
  | Fault _ => true
  | Reply u => String.eqb (Scheme u) EmptyString
  end.

Definition no_scheme_or_host (parsed : reply URL) : bool :=
  match parsed with
  | Fault _ => true
  | Reply u => String.eqb (Scheme u) EmptyString || String.eqb (Host u) EmptyString
  end.

Section Rules.
Context `{!NetURL}.

(** When a request breaks a rule. *)
Definition violates (req : OIDCProvisionerRequest) (r : rule) : bool :=
  match r with
  | MissingIssuerURL => String.eqb (IssuerURL req) EmptyString
  | UnparseableIssuerURL =>
    match url_Parse (IssuerURL req) with Fault _ => true | Reply _ => false end
  | NotHTTPS =>
    match url_Parse (IssuerURL req) with
    | Fault _ => false
    | Reply u => negb (String.eqb (Scheme u) "https")
    end
  | MissingHost =>
    match url_Parse (IssuerURL req) with
    | Fault _ => false
    | Reply u => String.eqb (Host u) EmptyString
    end
  | MissingThumbprint => String.eqb (Thumbprint req) EmptyString
  | MissingClusterID => String.eqb (ClusterID req) EmptyString
  end.

(** The error that names a rule. *)
Definition names (r : rule) (e : error) : Prop :=
  match r with
  | MissingIssuerURL => e = errors_New "issuer_url is required"
  | UnparseableIssuerURL => exists cause, e = wrap "invalid issuer_url: " cause
  | NotHTTPS => e = errors_New "issuer_url must use https scheme"
  | MissingHost => e = errors_New "issuer_url must have a valid host"
  | MissingThumbprint => e = errors_New "thumbprint is required"
  | MissingClusterID => e = errors_New "cluster_id is required"
  end.

Definition listed_violates (non_absolute : reply URL -> bool)
    (req : OIDCProvisionerRequest) (r : listed_rule) : bool :=
  match r with
  | ListedMissingIssuerURL => String.eqb (IssuerURL req) EmptyString
  | ListedNonAbsoluteIssuerURL => non_absolute (url_Parse (IssuerURL req))
  | ListedNonSecureScheme =>
    match url_Parse (IssuerURL req) with
    | Fault _ => false
    | Reply u => negb (String.eqb (Scheme u) "https")
    end
  | ListedMissingThumbprint => String.eqb (Thumbprint req) EmptyString
  | ListedMissingClusterID => String.eqb (ClusterID req) EmptyString
  end.

(** An error about the form of the URL, parse failure or missing host,
    counts as naming the rule on absolute URLs; so does the error about the
    scheme when the URL has none. *)
Definition listed_names (req : OIDCProvisionerRequest) (r : listed_rule) (e : error)
    : Prop :=
  match r with
  | ListedMissingIssuerURL => names MissingIssuerURL e
  | ListedNonAbsoluteIssuerURL =>
    names UnparseableIssuerURL e \/ names MissingHost e
    \/ (names NotHTTPS e /\ no_scheme (url_Parse (IssuerURL req)) = true)
  | ListedNonSecureScheme => names NotHTTPS e
  | ListedMissingThumbprint => names MissingThumbprint e
  | ListedMissingClusterID => names MissingClusterID e
  end.

(** Validation as the specification describes it: the error names the first
    listed rule the request breaks, and a request breaking none passes. *)
Definition validates_as_listed (validate : OIDCProvisionerRequest -> option error)
    (non_absolute : reply URL -> bool) : Prop :=
  forall req,
    match find (listed_violates non_absolute req) listed_rules_in_order with
    | Some r => exists e, validate req = Some e /\ listed_names req r e
    | None => validate req = None
    end.

End Rules.


(** The [GetOpenIDConnectProvider] input built for a listed provider. *)
Definition getInputOf (p : OpenIDConnectProviderListEntry) : GetOpenIDConnectProviderInput :=
  {| get_OpenIDConnectProviderArn := entry_Arn p |}.

(** A candidate the existence search passes over when it looks for [key]:
    its detail record cannot be fetched, or carries no URL, or carries one
    that differs from [key] once a trailing separator is removed. *)
Definition passed_over `{!IAMAPI W} (key : string) (p : OpenIDConnectProviderListEntry)
    : Prop :=
  forall w,
    match fst (GetOpenIDConnectProvider (getInputOf p) w) with
    | Fault _ => True
    | Reply out =>
      match get_Url out with
      | None => True
      | Some url => TrimSuffix url "/" <> key
      end
    end.


End provisioner.

(** ** [pkg/lambda/deployer] *)

Module deployer.
Import Go.
Local Open Scope go_scope.

(** *** [policy.go]: the policy generator *)

(** The dynamic values the generator stores in [interface{}] fields. *)
Inductive any :=
| any_nil
| any_string (s : string)
| any_strings (l : list string)
| any_map (m : gmap string string).

(** [Statement] represents a policy statement. *)
Record Statement := {
  Effect : string;
  Principal : gmap string any;
  Action : any;
  Resource : any;
  Condition : gmap string any;
}.

(** [PolicyDocument] represents an AWS IAM policy document.  (Its field
    [Statement] carries a trailing underscore here, the name being taken by
    the record above.) *)
Record PolicyDocument := {
  Version : string;
  Statement_ : list Statement;
}.

(** [encoding/json].  A document is first laid out as a JSON tree, following
    the struct tags, and the tree is then written out in the compact form
    [json.Marshal] produces.  The encoder of a string literal (quotes and
    escapes) is the library's and is a parameter. *)
Inductive json :=
| JNull
| JString (s : string)
| JArray (items : list json)
| JObject (fields : list (string * json)).

Class JSONStrings := { json_quote : string -> string }.

Definition key_le (a b : string * json) : Prop := String.leb a.1 b.1 = true.

#[global] Instance key_le_dec a b : Decision (key_le a b).
Proof. unfold key_le. apply _. Defined.

(** A Go map is written with its keys sorted. *)
Definition json_of_map {V} (f : V -> json) (m : gmap string V) : json :=
  JObject (merge_sort key_le (map_to_list (f <$> m))).

Definition json_of_any (v : any) : json :=
  match v with
  | any_nil => JNull
  | any_string s => JString s
  | any_strings l => JArray (JString <$> l)
  | any_map m => json_of_map JString m
  end.

(** [`json:"...,omitempty"`] on a map field and on an interface field. *)
Definition omitempty_map (key : string) (m : gmap string any) : list (string * json) :=
  if bool_decide (m = ∅) then [] else [(key, json_of_map json_of_any m)].

Definition omitempty_any (key : string) (v : any) : list (string * json) :=
  match v with
  | any_nil => []
  | _ => [(key, json_of_any v)]
  end.

Definition json_of_Statement (st : Statement) : json :=
  JObject ([("Effect", JString (Effect st))]
           ++ omitempty_map "Principal" (Principal st)
           ++ [("Action", json_of_any (Action st))]
           ++ omitempty_any "Resource" (Resource st)
           ++ omitempty_map "Condition" (Condition st)).

Definition json_of_PolicyDocument (p : PolicyDocument) : json :=
  JObject [("Version", JString (Version p));
           ("Statement", JArray (json_of_Statement <$> Statement_ p))].

Definition join_comma (parts : list string) : string :=
  match parts with
  | [] => EmptyString
  | p :: ps => fold_left (fun acc q => acc +:+ "," +:+ q) ps p
  end.

Section Policy.
Context `{!JSONStrings}.

Fixpoint json_text (j : json) : string :=
  match j with
  | JNull => "null"
  | JString s => json_quote s
  | JArray items => "[" +:+ join_comma (map json_text items) +:+ "]"
  | JObject fields =>
    "{" +:+ join_comma (map (fun kv => json_quote kv.1 +:+ ":" +:+ json_text kv.2) fields)
        +:+ "}"
  end.

(** [json.Marshal(policy)]: none of the values a [PolicyDocument] holds can
    make the encoder fail. *)
Definition json_Marshal (p : PolicyDocument) : reply string :=
  Reply (json_text (json_of_PolicyDocument p)).

Definition trustPolicyDocument : PolicyDocument :=
  {| Version := "2012-10-17";
     Statement_ := [
       {| Effect := "Allow";
          Principal := {[ "Service" := any_string "lambda.amazonaws.com" ]};
          Action := any_string "sts:AssumeRole";
          Resource := any_nil;
          Condition := ∅ |} ] |}.

(** [GenerateLambdaExecutionRoleTrustPolicy] generates the trust policy for
    the Lambda execution role. *)
Definition GenerateLambdaExecutionRoleTrustPolicy : reply string :=
  match json_Marshal trustPolicyDocument with
  | Fault err => Fault (wrap "failed to marshal trust policy: " err)
  | Reply policyJSON => Reply policyJSON
  end.

Definition permissionsPolicyDocument : PolicyDocument :=
  {| Version := "2012-10-17";
     Statement_ := [
       {| Effect := "Allow";
          Principal := ∅;
          Action := any_strings [
            "iam:CreateOpenIDConnectProvider";
            "iam:GetOpenIDConnectProvider";
            "iam:ListOpenIDConnectProviders";
            "iam:TagOpenIDConnectProvider" ];
          Resource := any_string "*";
          Condition := ∅ |};
       {| Effect := "Allow";
          Principal := ∅;
          Action := any_strings [
            "logs:CreateLogGroup";
            "logs:CreateLogStream";
            "logs:PutLogEvents" ];
          Resource := any_string "arn:aws:logs:*:*:*";
          Condition := ∅ |} ] |}.

(** [GenerateOIDCProvisionerPermissionsPolicy] generates the permissions
    policy for the OIDC provisioner Lambda. *)
Definition GenerateOIDCProvisionerPermissionsPolicy : reply string :=
  match json_Marshal permissionsPolicyDocument with
  | Fault err => Fault (wrap "failed to marshal permissions policy: " err)
  | Reply policyJSON => Reply policyJSON
  end.

Definition resourcePolicyDocument (clmServiceRoleARN sourceAccountID : string)
    : PolicyDocument :=
  {| Version := "2012-10-17";
     Statement_ := [
       {| Effect := "Allow";
          Principal := {[ "AWS" := any_string clmServiceRoleARN ]};
          Action := any_string "lambda:InvokeFunction";
          Resource := any_string "*";
          Condition :=
            {[ "StringEquals" :=
                 any_map {[ "aws:SourceAccount" := sourceAccountID ]} ]} |} ] |}.

(** [GenerateLambdaResourcePolicy] generates a resource-based policy allowing
    the CLM service role to invoke the Lambda. *)
Definition GenerateLambdaResourcePolicy (clmServiceRoleARN sourceAccountID : string)
    : reply string :=
  if String.eqb clmServiceRoleARN EmptyString then
    Fault (errors_New "CLM service role ARN is required")
  else if String.eqb sourceAccountID EmptyString then
    Fault (errors_New "source account ID is required")
  else
    match json_Marshal (resourcePolicyDocument clmServiceRoleARN sourceAccountID) with
    | Fault err => Fault (wrap "failed to marshal resource policy: " err)
    | Reply policyJSON => Reply policyJSON
    end.

End Policy.

(** *** [package.go]: the package builder *)

(** 50MB limit for Lambda packages *)
Definition maxPackageSize : Z := 50 * 1024 * 1024.

(** [fs.FileInfo], as far as the archive header is built from it. *)
Record FileInfo := {
  fi_Name : string;
  fi_Size : Z;
  fi_Mode : Z;
}.

(** An open [*os.File]. *)
Record File := { file_path : string }.

(** [zip.FileHeader]: the entry name, the compression method and the file
    mode ([FileHeader.Mode], written by [FileHeader.SetMode]). *)
Record FileHeader := {
  Name : string;
  Method : Z;
  Mode : Z;
  UncompressedSize64 : Z;
}.

Definition zip_Store : Z := 0.
Definition zip_Deflate : Z := 8.

(** The octal literal [0755]. *)
Definition mode_0755 : Z := 7 * 64 + 5 * 8 + 5.
(** The octal literal [0111]: the three execute bits. *)
Definition mode_0111 : Z := 1 * 64 + 1 * 8 + 1.

Definition set_Name (n : string) (h : FileHeader) : FileHeader :=
  {| Name := n; Method := Method h; Mode := Mode h;
     UncompressedSize64 := UncompressedSize64 h |}.

Definition set_Method (m : Z) (h : FileHeader) : FileHeader :=
  {| Name := Name h; Method := m; Mode := Mode h;
     UncompressedSize64 := UncompressedSize64 h |}.

(** [header.SetMode(mode)] *)
Definition SetMode (mode : Z) (h : FileHeader) : FileHeader :=
  {| Name := Name h; Method := Method h; Mode := mode;
     UncompressedSize64 := UncompressedSize64 h |}.

(** An archive under construction: the entries written so far, each with
    its header and its (uncompressed) content. *)
Definition entry : Type := FileHeader * list Byte.byte.

(** [archive/zip], [crypto/sha256] and [path/filepath]: library code,
    parameters here.  [zip_bytes] is the byte stream a [zip.Writer] has
    produced once closed; the three functions before it say when the
    library refuses a step. *)
Class Libraries := {
  zip_FileInfoHeader : FileInfo -> reply FileHeader;
  zip_CreateHeader : list entry -> FileHeader -> reply unit;
  zip_Close : list entry -> reply unit;
  zip_bytes : list entry -> list Byte.byte;
  sha256_Sum256 : list Byte.byte -> list Byte.byte;
  filepath_Join : string -> string -> string;
}.

(** The build host: temporary directories, the Go tool chain, files. *)
Class BuildHost (W : Type) := {
  os_MkdirTemp : string -> string -> W -> reply string * W;
  os_RemoveAll : string -> W -> W;
  os_Environ : W -> list string;
  (** [cmd.Run()] of the command with the given arguments and environment:
      the error, if any, and what the command wrote to standard error. *)
  exec_Run : list string -> list string -> W -> (option error * string) * W;
  os_Stat : string -> W -> reply FileInfo * W;
  os_Chmod : string -> Z -> W -> reply unit * W;
  os_Open : string -> W -> reply File * W;
  file_Stat : File -> W -> reply FileInfo * W;
  file_Close : File -> W -> W;
  (** what [io.Copy] reads from the file *)
  file_ReadAll : File -> W -> reply (list Byte.byte) * W;
}.

(** [fmt.Sprintf("%x", hash)]: two lower-case hexadecimal digits a byte. *)
Definition hex_digit (n : N) : ascii :=
  if (n <? 10)%N then ascii_of_N (48 + n) else ascii_of_N (87 + n).

Definition hex_byte (b : Byte.byte) : string :=
  let n := Byte.to_N b in
  String (hex_digit (n / 16)) (String (hex_digit (n mod 16)) EmptyString).

Fixpoint hex_string (bs : list Byte.byte) : string :=
  match bs with
  | [] => EmptyString
  | b :: bs' => hex_byte b +:+ hex_string bs'
  end.

(** [PackageBuilder] builds Lambda deployment packages. *)
Record PackageBuilder := { sourceDir : string }.

Definition NewPackageBuilder (sourceDir : string) : PackageBuilder :=
  {| sourceDir := sourceDir |}.

Section Package.
Context {W E : Type} `{!BuildHost W} `{!Libraries}.

Local Abbreviation M := (Go.M W E).

(** A library result, as a step of the run. *)
Definition lift {A} (r : reply A) : M A :=
  match r with
  | Reply a => ret a
  | Fault e => fail e
  end.

(** [defer cleanup()]: runs when the body is left, whichever way. *)
Definition deferred {A} (cleanup : W -> W) (body : M A) : M A :=
  fun s =>
    let '(r, s') := body s in
    (r, mkState (cleanup (world s')) (calls s') (stdout s')).

(** [compileBinary] cross-compiles the Go binary for Linux/AMD64. *)
Definition compileBinary (pb : PackageBuilder) (outputPath : string) : M unit :=
  fun s =>
    let argv := ["go"; "build"; "-ldflags"; "-s -w"; "-o"; outputPath; sourceDir pb] in
    let env := os_Environ (world s)
               ++ ["GOOS=linux"; "GOARCH=amd64"; "CGO_ENABLED=0"; "GOTOOLCHAIN=auto"] in
    let '((err, stderr), w1) := exec_Run argv env (world s) in
    let s1 := mkState w1 (calls s) (stdout s) in
    match err with
    | Some err =>
      (Err (Errorf "compilation failed: " err (", stderr: " +:+ stderr)), s1)
    | None =>
      (wrapping "binary not found after compilation: " (host (os_Stat outputPath)) ;;;
       wrapping "failed to set binary permissions: "
         (host (os_Chmod outputPath mode_0755)) ;;;
       ret tt) s1
    end.

(** [createZipPackage] creates a ZIP archive containing the binary. *)
Definition createZipPackage (pb : PackageBuilder) (binaryPath : string)
    : M (list Byte.byte) :=
  let zipWriter : list entry := [] in
  file <-- wrapping "failed to open binary: " (host (os_Open binaryPath)) ;;
  deferred (file_Close file)
    (fileInfo <-- wrapping "failed to stat binary: " (host (file_Stat file)) ;;
     header <-- wrapping "failed to create zip header: "
                  (lift (zip_FileInfoHeader fileInfo)) ;;
     let header := set_Name "bootstrap" header in
     let header := set_Method zip_Deflate header in
     let header := SetMode mode_0755 header in
     wrapping "failed to create zip entry: "
       (lift (zip_CreateHeader zipWriter header)) ;;;
     content <-- wrapping "failed to write binary to zip: "
                   (host (file_ReadAll file)) ;;
     let zipWriter := zipWriter ++ [(header, content)] in
     wrapping "failed to close zip writer: " (lift (zip_Close zipWriter)) ;;;
     ret (zip_bytes zipWriter)).

Definition len (data : list Byte.byte) : Z := Z.of_nat (length data).

(** [Build] compiles the Go binary and packages it into a ZIP file. *)
Definition Build (pb : PackageBuilder) : M (list Byte.byte * string) :=
  tmpDir <-- wrapping "failed to create temp directory: "
               (host (os_MkdirTemp EmptyString "lambda-build-*")) ;;
  deferred (os_RemoveAll tmpDir)
    (let binaryPath := filepath_Join tmpDir "bootstrap" in
     wrapping "failed to compile binary: " (compileBinary pb binaryPath) ;;;
     zipData <-- wrapping "failed to create zip package: "
                   (createZipPackage pb binaryPath) ;;
     if (maxPackageSize <? len zipData)%Z then
       fail (errors_New ("package size " +:+ pretty (len zipData)
                         +:+ " bytes exceeds maximum " +:+ pretty maxPackageSize
                         +:+ " bytes"))
     else
       let hash := sha256_Sum256 zipData in
       let hashStr := hex_string hash in
       ret (zipData, hashStr)).

End Package.

(** *** [deployer.go]: the deployment orchestrator *)

(** The fields of the SDK inputs and outputs the deployer writes or reads.
    A [*T] field read from an output is an [option]; a field filled with
    [aws.String] or [aws.Int32] holds the value itself. *)
Record CreateFunctionInput := {
  cf_FunctionName : string;
  cf_Runtime : string;
  cf_Role : string;
  cf_Handler : string;
  cf_Code_ZipFile : list Byte.byte;
  cf_MemorySize : Z;
  cf_Timeout : Z;
  cf_Architectures : list string;
  cf_Description : string;
}.

Record CreateFunctionOutput := { cf_FunctionArn : option string }.

Record UpdateFunctionCodeInput := {
  uc_FunctionName : string;
  uc_ZipFile : list Byte.byte;
}.

Record UpdateFunctionConfigurationInput := {
  ucfg_FunctionName : string;
  ucfg_Runtime : string;
  ucfg_Role : string;
  ucfg_Handler : string;
  ucfg_MemorySize : Z;
  ucfg_Timeout : Z;
}.

Record GetFunctionInput := { gf_FunctionName : string }.

Record FunctionConfiguration := { FunctionArn : option string }.

Record GetFunctionOutput := { Configuration : option FunctionConfiguration }.

Record AddPermissionInput := {
  ap_FunctionName : string;
  ap_StatementId : string;
  ap_Action : string;
  ap_Principal : string;
  ap_SourceArn : string;
}.

Record TagResourceInput := {
  tr_Resource : string;
  tr_Tags : gmap string string;
}.

Record GetRoleInput := { gr_RoleName : string }.

Record Role := { Arn : option string }.

Record GetRoleOutput := { gr_Role : option Role }.

Record CreateRoleInput := {
  cr_RoleName : string;
  cr_AssumeRolePolicyDocument : string;
  cr_Description : string;
}.

Record CreateRoleOutput := { cr_Role : option Role }.

Record PutRolePolicyInput := {
  prp_RoleName : string;
  prp_PolicyName : string;
  prp_PolicyDocument : string;
}.

Record DescribeLogGroupsInput := { LogGroupNamePrefix : string }.

Record LogGroup := { LogGroupName : option string }.

Record DescribeLogGroupsOutput := { LogGroups : list LogGroup }.

Record CreateLogGroupInput := { clg_LogGroupName : string }.

Record PutRetentionPolicyInput := {
  prt_LogGroupName : string;
  prt_RetentionInDays : Z;
}.

Record TagLogGroupInput := {
  tlg_LogGroupName : string;
  tlg_Tags : gmap string string;
}.

(** AWS service interfaces *)
Class LambdaAPI (W : Type) := {
  CreateFunction : CreateFunctionInput -> W -> reply CreateFunctionOutput * W;
  UpdateFunctionCode : UpdateFunctionCodeInput -> W -> reply unit * W;
  UpdateFunctionConfiguration : UpdateFunctionConfigurationInput -> W -> reply unit * W;
  GetFunction : GetFunctionInput -> W -> reply GetFunctionOutput * W;
  AddPermission : AddPermissionInput -> W -> reply unit * W;
  TagResource : TagResourceInput -> W -> reply unit * W;
}.

Class IAMAPI (W : Type) := {
  CreateRole : CreateRoleInput -> W -> reply CreateRoleOutput * W;
  GetRole : GetRoleInput -> W -> reply GetRoleOutput * W;
  PutRolePolicy : PutRolePolicyInput -> W -> reply unit * W;
}.

Class CloudWatchLogsAPI (W : Type) := {
  CreateLogGroup : CreateLogGroupInput -> W -> reply unit * W;
  DescribeLogGroups : DescribeLogGroupsInput -> W -> reply DescribeLogGroupsOutput * W;
  PutRetentionPolicy : PutRetentionPolicyInput -> W -> reply unit * W;
  TagLogGroup : TagLogGroupInput -> W -> reply unit * W;
}.

(** The log of service calls. *)
Inductive Call :=
| CallCreateFunction (input : CreateFunctionInput)
| CallUpdateFunctionCode (input : UpdateFunctionCodeInput)
| CallUpdateFunctionConfiguration (input : UpdateFunctionConfigurationInput)
| CallGetFunction (input : GetFunctionInput)
| CallAddPermission (input : AddPermissionInput)
| CallTagResource (input : TagResourceInput)
| CallCreateRole (input : CreateRoleInput)
| CallGetRole (input : GetRoleInput)
| CallPutRolePolicy (input : PutRolePolicyInput)
| CallCreateLogGroup (input : CreateLogGroupInput)
| CallDescribeLogGroups (input : DescribeLogGroupsInput)
| CallPutRetentionPolicy (input : PutRetentionPolicyInput)
| CallTagLogGroup (input : TagLogGroupInput).

(** The calls that create or change the function itself. *)
Definition writes_function (c : Call) : bool :=
  match c with
  | CallCreateFunction _ | CallUpdateFunctionCode _
  | CallUpdateFunctionConfiguration _ => true
  | _ => false
  end.

(** The calls that configure a log group once it exists. *)
Definition configures_log_group (c : Call) : bool :=
  match c with
  | CallPutRetentionPolicy _ | CallTagLogGroup _ => true
  | _ => false
  end.

(** [DeploymentConfig] holds configuration for Lambda deployment. *)
Record DeploymentConfig := {
  FunctionName : string;
  ExecutionRoleName : string;
  SourceDir : string;
  CLMServiceRoleARN : string;
  SourceAccountID : string;
  Runtime : string;
  MemorySize : Z;
  Timeout : Z;
  Architecture : string;
  Tags : gmap string string;
}.

(** [DeploymentResult] holds the result of a deployment. *)
Record DeploymentResult := {
  res_FunctionARN : string;
  res_FunctionName : string;
  res_ExecutionRole : string;
  res_LogGroupName : string;
  res_Status : string;
  res_PackageSize : Z;
  res_PackageChecksum : string;
}.

Section Deployer.
Context {W : Type}.
Context `{!LambdaAPI W} `{!IAMAPI W} `{!CloudWatchLogsAPI W}.
Context `{!BuildHost W} `{!Libraries} `{!JSONStrings}.

Local Abbreviation M := (Go.M W Call).

Definition getRoleInput (cfg : DeploymentConfig) : GetRoleInput :=
  {| gr_RoleName := ExecutionRoleName cfg |}.

Definition createRoleInput (cfg : DeploymentConfig) (trustPolicy : string)
    : CreateRoleInput :=
  {| cr_RoleName := ExecutionRoleName cfg;
     cr_AssumeRolePolicyDocument := trustPolicy;
     cr_Description := "Execution role for ROSA OIDC provisioner Lambda" |}.

Definition putRolePolicyInput (cfg : DeploymentConfig) (permissionsPolicy : string)
    : PutRolePolicyInput :=
  {| prp_RoleName := ExecutionRoleName cfg;
     prp_PolicyName := "OIDCProvisionerPermissions";
     prp_PolicyDocument := permissionsPolicy |}.

(** [ensureExecutionRole] creates or gets the Lambda execution role. *)
Definition ensureExecutionRole (cfg : DeploymentConfig) : M string :=
  got <-- try (invoke (CallGetRole (getRoleInput cfg)) (GetRole (getRoleInput cfg))) ;;
  match got with
  | Reply getOutput =>
    role <-- deref (gr_Role getOutput) ;;
    deref (Arn role)
  | Fault err =>
    if negb (errors_As err iam_NoSuchEntityException) then
      fail (wrap "failed to check if role exists: " err)
    else
      trustPolicy <-- wrapping "failed to generate trust policy: "
                        (lift GenerateLambdaExecutionRoleTrustPolicy) ;;
      createOutput <-- wrapping "failed to create role: "
                         (invoke (CallCreateRole (createRoleInput cfg trustPolicy))
                                 (CreateRole (createRoleInput cfg trustPolicy))) ;;
      role <-- deref (cr_Role createOutput) ;;
      roleARN <-- deref (Arn role) ;;
      permissionsPolicy <-- wrapping "failed to generate permissions policy: "
                              (lift GenerateOIDCProvisionerPermissionsPolicy) ;;
      wrapping "failed to attach permissions policy: "
        (invoke (CallPutRolePolicy (putRolePolicyInput cfg permissionsPolicy))
                (PutRolePolicy (putRolePolicyInput cfg permissionsPolicy))) ;;;
      ret roleARN
  end.

Definition getFunctionInput (cfg : DeploymentConfig) : GetFunctionInput :=
  {| gf_FunctionName := FunctionName cfg |}.

(** [checkFunctionExists] checks if the Lambda function already exists. *)
Definition checkFunctionExists (cfg : DeploymentConfig)
    : M (bool * option GetFunctionOutput) :=
  got <-- try (invoke (CallGetFunction (getFunctionInput cfg))
                      (GetFunction (getFunctionInput cfg))) ;;
  match got with
  | Fault err =>
    if errors_As err lambda_ResourceNotFoundException then ret (false, None)
    else fail err
  | Reply output => ret (true, Some output)
  end.

Definition createFunctionInput (cfg : DeploymentConfig) (zipData : list Byte.byte)
    (roleARN : string) : CreateFunctionInput :=
  {| cf_FunctionName := FunctionName cfg;
     cf_Runtime := Runtime cfg;
     cf_Role := roleARN;
     cf_Handler := "bootstrap";
     cf_Code_ZipFile := zipData;
     cf_MemorySize := MemorySize cfg;
     cf_Timeout := Timeout cfg;
     cf_Architectures := [Architecture cfg];
     cf_Description := "ROSA OIDC provider provisioner" |}.

(** [createFunction] creates a new Lambda function. *)
Definition createFunction (cfg : DeploymentConfig) (zipData : list Byte.byte)
    (roleARN : string) : M string :=
  let input := createFunctionInput cfg zipData roleARN in
  output <-- invoke (CallCreateFunction input) (CreateFunction input) ;;
  deref (cf_FunctionArn output).

Definition updateCodeInput (cfg : DeploymentConfig) (zipData : list Byte.byte)
    : UpdateFunctionCodeInput :=
  {| uc_FunctionName := FunctionName cfg; uc_ZipFile := zipData |}.

Definition updateConfigurationInput (cfg : DeploymentConfig) (roleARN : string)
    : UpdateFunctionConfigurationInput :=
  {| ucfg_FunctionName := FunctionName cfg;
     ucfg_Runtime := Runtime cfg;
     ucfg_Role := roleARN;
     ucfg_Handler := "bootstrap";
     ucfg_MemorySize := MemorySize cfg;
     ucfg_Timeout := Timeout cfg |}.

(** [updateFunction] updates an existing Lambda function. *)
Definition updateFunction (cfg : DeploymentConfig) (zipData : list Byte.byte)
    (roleARN : string) : M unit :=
  wrapping "failed to update function code: "
    (invoke (CallUpdateFunctionCode (updateCodeInput cfg zipData))
            (UpdateFunctionCode (updateCodeInput cfg zipData))) ;;;
  wrapping "failed to update function configuration: "
    (invoke (CallUpdateFunctionConfiguration (updateConfigurationInput cfg roleARN))
            (UpdateFunctionConfiguration (updateConfigurationInput cfg roleARN))) ;;;
  ret tt.

Definition addPermissionInput (cfg : DeploymentConfig) : AddPermissionInput :=
  {| ap_FunctionName := FunctionName cfg;
     ap_StatementId := "AllowCLMInvoke";
     ap_Action := "lambda:InvokeFunction";
     ap_Principal := "arn:aws:iam::" +:+ SourceAccountID cfg +:+ ":root";
     ap_SourceArn := CLMServiceRoleARN cfg |}.

(** [addResourcePolicy] adds a resource-based policy to allow CLM to invoke
    the Lambda. *)
Definition addResourcePolicy (cfg : DeploymentConfig) : M unit :=
  policy <-- lift (GenerateLambdaResourcePolicy (CLMServiceRoleARN cfg)
                                                (SourceAccountID cfg)) ;;
  added <-- try (invoke (CallAddPermission (addPermissionInput cfg))
                        (AddPermission (addPermissionInput cfg))) ;;
  match added with
  | Fault err =>
    if errors_As err lambda_ResourceConflictException then ret tt
    else fail err
  | Reply _ =>
    let _ := policy in
    ret tt
  end.

(** The loop of [ensureLogGroup] over the described log groups: [true] when
    one of them carries exactly the requested name. *)
Fixpoint findLogGroup (logGroupName : string) (groups : list LogGroup) : M bool :=
  match groups with
  | [] => ret false
  | lg :: rest =>
    name <-- deref (LogGroupName lg) ;;
    if String.eqb name logGroupName then ret true
    else findLogGroup logGroupName rest
  end.

(** [tags := make(map[string]string); for k, v := range d.config.Tags { tags[k] = v }] *)
Definition copyTags (tags : gmap string string) : gmap string string :=
  map_fold (fun k v acc => <[k := v]> acc) ∅ tags.

Definition retentionInput (logGroupName : string) : PutRetentionPolicyInput :=
  {| prt_LogGroupName := logGroupName; prt_RetentionInDays := 90 |}.

Definition tagLogGroupInput (cfg : DeploymentConfig) (logGroupName : string)
    : TagLogGroupInput :=
  {| tlg_LogGroupName := logGroupName; tlg_Tags := copyTags (Tags cfg) |}.

(** What [ensureLogGroup] does once the existence check has not returned:
    create, set the retention policy, tag. *)
Definition createAndConfigureLogGroup (cfg : DeploymentConfig) (logGroupName : string)
    : M unit :=
  let createInput := {| clg_LogGroupName := logGroupName |} in
  created <-- try (invoke (CallCreateLogGroup createInput) (CreateLogGroup createInput)) ;;
  match created with
  | Fault err =>
    if negb (errors_As err logs_ResourceAlreadyExistsException)
    then fail (wrap "failed to create log group: " err)
    else ret tt
  | Reply _ => ret tt
  end ;;;
  wrapping "failed to set retention policy: "
    (invoke (CallPutRetentionPolicy (retentionInput logGroupName))
            (PutRetentionPolicy (retentionInput logGroupName))) ;;;
  if (0 <? size (Tags cfg))%nat then
    tagged <-- try (invoke (CallTagLogGroup (tagLogGroupInput cfg logGroupName))
                           (TagLogGroup (tagLogGroupInput cfg logGroupName))) ;;
    match tagged with
    | Fault err => Printf ("Warning: failed to tag log group: " +:+ Error err +:+ newline)
    | Reply _ => ret tt
    end
  else ret tt.

(** [ensureLogGroup] ensures the CloudWatch Log Group exists with retention. *)
Definition ensureLogGroup (cfg : DeploymentConfig) (logGroupName : string) : M unit :=
  let describeInput := {| LogGroupNamePrefix := logGroupName |} in
  described <-- try (invoke (CallDescribeLogGroups describeInput)
                            (DescribeLogGroups describeInput)) ;;
  alreadyExists <--
    match described with
    | Reply describeOutput =>
      if (0 <? length (LogGroups describeOutput))%nat
      then findLogGroup logGroupName (LogGroups describeOutput)
      else ret false
    | Fault _ => ret false
    end ;;
  if alreadyExists then ret tt
  else createAndConfigureLogGroup cfg logGroupName.

(** [tagFunction] tags the Lambda function. *)
Definition tagFunction (cfg : DeploymentConfig) (functionARN : string) : M unit :=
  let input := {| tr_Resource := functionARN; tr_Tags := Tags cfg |} in
  invoke (CallTagResource input) (TagResource input).

(** A failed auxiliary step is reported on standard output and forgotten. *)
Definition warn (what : string) (step : M unit) : M unit :=
  r <-- try step ;;
  match r with
  | Fault err => Printf ("Warning: " +:+ what +:+ Error err +:+ newline)
  | Reply _ => ret tt
  end.

Definition logGroupNameOf (cfg : DeploymentConfig) : string :=
  "/aws/lambda/" +:+ FunctionName cfg.

(** [Deploy] orchestrates the full Lambda deployment. *)
Definition Deploy (cfg : DeploymentConfig) : M DeploymentResult :=
  (* Step 1: ensure the IAM execution role exists *)
  roleARN <-- wrapping "failed to ensure execution role: " (ensureExecutionRole cfg) ;;
  (* Step 2: build the Lambda package *)
  let packageBuilder := NewPackageBuilder (SourceDir cfg) in
  built <-- wrapping "failed to build Lambda package: " (Build packageBuilder) ;;
  let '(zipData, checksum) := built in
  (* Step 3: check if the Lambda function exists *)
  found <-- wrapping "failed to check if function exists: " (checkFunctionExists cfg) ;;
  let '(exists_, existingFunc) := found in
  deployed <--
    (if exists_ then
       output <-- deref existingFunc ;;
       configuration <-- deref (Configuration output) ;;
       functionARN <-- deref (FunctionArn configuration) ;;
       wrapping "failed to update function: " (updateFunction cfg zipData roleARN) ;;;
       ret (functionARN, "updated")
     else
       functionARN <-- wrapping "failed to create function: "
                         (createFunction cfg zipData roleARN) ;;
       ret (functionARN, "created")) ;;
  let '(functionARN, status) := deployed in
  (* Step 4: add the resource-based policy *)
  (if negb (String.eqb (CLMServiceRoleARN cfg) EmptyString)
      && negb (String.eqb (SourceAccountID cfg) EmptyString)
   then warn "failed to add resource policy: " (addResourcePolicy cfg)
   else ret tt) ;;;
  (* Step 5: ensure the CloudWatch log group exists *)
  let logGroupName := logGroupNameOf cfg in
  warn "failed to ensure log group: " (ensureLogGroup cfg logGroupName) ;;;
  (* Step 6: tag the Lambda function *)
  (if (0 <? size (Tags cfg))%nat
   then warn "failed to tag function: " (tagFunction cfg functionARN)
   else ret tt) ;;;
  ret {| res_FunctionARN := functionARN;
         res_FunctionName := FunctionName cfg;
         res_ExecutionRole := roleARN;
         res_LogGroupName := logGroupName;
         res_Status := status;
         res_PackageSize := len zipData;
         res_PackageChecksum := checksum |}.

End Deployer.

(** *** Notions used to state the properties of the orchestrator *)

Section Notions.
Context {W : Type}.
Context `{!LambdaAPI W} `{!IAMAPI W} `{!CloudWatchLogsAPI W}.
Context `{!BuildHost W} `{!Libraries} `{!JSONStrings}.

(** The auxiliary steps of [Deploy]: everything between the creation or
    update of the function and the assembly of the result. *)
Definition auxiliarySteps (cfg : DeploymentConfig) (functionARN : string)
    : Go.M W Call unit :=
  (if negb (String.eqb (CLMServiceRoleARN cfg) EmptyString)
      && negb (String.eqb (SourceAccountID cfg) EmptyString)
   then warn "failed to add resource policy: " (addResourcePolicy cfg)
   else ret tt) ;;;
  warn "failed to ensure log group: " (ensureLogGroup cfg (logGroupNameOf cfg)) ;;;
  (if (0 <? size (Tags cfg))%nat
   then warn "failed to tag function: " (tagFunction cfg functionARN)
   else ret tt).

(** The part of [Deploy] that creates the function or updates it, given
    what [checkFunctionExists] found: with the role, the package and the
    lookup it makes up the four steps that must succeed. *)
Definition createOrUpdate (cfg : DeploymentConfig) (zipData : list Byte.byte)
    (roleARN : string) (found : bool * option GetFunctionOutput)
    : Go.M W Call (string * string) :=
  let '(exists_, existingFunc) := found in
  if exists_ then
    output <-- deref existingFunc ;;
    configuration <-- deref (Configuration output) ;;
    functionARN <-- deref (FunctionArn configuration) ;;
    wrapping "failed to update function: " (updateFunction cfg zipData roleARN) ;;;
    ret (functionARN, "updated")
  else
    functionARN <-- wrapping "failed to create function: "
                      (createFunction cfg zipData roleARN) ;;
    ret (functionARN, "created").

(** The result [Deploy] assembles. *)
Definition resultOf (cfg : DeploymentConfig) (roleARN : string)
    (zipData : list Byte.byte) (checksum functionARN status : string)
    : DeploymentResult :=
  {| res_FunctionARN := functionARN;
     res_FunctionName := FunctionName cfg;
     res_ExecutionRole := roleARN;
     res_LogGroupName := "/aws/lambda/" +:+ FunctionName cfg;
     res_Status := status;
     res_PackageSize := Z.of_nat (length zipData);
     res_PackageChecksum := checksum |}.

(** The log service answers with log groups that all carry a name. *)
Definition log_groups_are_named : Prop :=
  forall input w out,
    fst (DescribeLogGroups input w) = Reply out ->
    Forall (fun lg => is_Some (LogGroupName lg)) (LogGroups out).

(** The existence check of [ensureLogGroup] comes back empty-handed: the
    listing failed, or it holds no group of exactly that name. *)
Definition no_exact_match (logGroupName : string)
    (described : reply DescribeLogGroupsOutput) : Prop :=
  match described with
  | Fault _ => True
  | Reply out =>
    Forall (fun lg => exists n, LogGroupName lg = Some n /\ n <> logGroupName)
           (LogGroups out)
  end.

(** Creation went through, or the group was there already. *)
Definition creation_tolerated (created : reply unit) : Prop :=
  match created with
  | Reply _ => True
  | Fault e => errors_As e logs_ResourceAlreadyExistsException = true
  end.

End Notions.

(** The claim that the retention policy is set also when the existence
    check finds the log group. *)
Definition retention_set_when_group_exists : Prop :=
  forall (W : Type) (cw : CloudWatchLogsAPI W)
         (cfg : DeploymentConfig) (logGroupName : string)
         (s : state W Call) (out : DescribeLogGroupsOutput),
    fst (DescribeLogGroups {| LogGroupNamePrefix := logGroupName |} (world s))
    = Reply out ->
    Forall (fun lg => is_Some (LogGroupName lg)) (LogGroups out) ->
    In {| LogGroupName := Some logGroupName |} (LogGroups out) ->
    In (CallPutRetentionPolicy
          {| prt_LogGroupName := logGroupName; prt_RetentionInDays := 90 |})
       (calls (snd (ensureLogGroup cfg logGroupName s))).

(** *** Kinds of calls, used to say what a run never does *)

(** The calls that go to the role service. *)
Definition is_role_call (c : Call) : bool :=
  match c with
  | CallCreateRole _ | CallGetRole _ | CallPutRolePolicy _ => true
  | _ => false
  end.

Definition is_add_permission (c : Call) : bool :=
  match c with
  | CallAddPermission _ => true
  | _ => false
  end.

(** The calls that apply tags, to the function or to the log group. *)
Definition is_tag_call (c : Call) : bool :=
  match c with
  | CallTagResource _ | CallTagLogGroup _ => true
  | _ => false
  end.

(** A step whose log of calls, whatever its outcome, grows by a list of
    calls that satisfies [Q]. *)
Definition records {W A} (Q : list Call -> Prop) (m : Go.M W Call A) : Prop :=
  forall s r s', m s = (r, s') -> exists evs, calls s' = calls s ++ evs /\ Q evs.

(** A step that prints only lines satisfying [P], whatever its outcome. *)
Definition says {W E A} (P : string -> Prop) (m : Go.M W E A) : Prop :=
  forall s r s',
    m s = (r, s') -> exists lines, stdout s' = stdout s ++ lines /\ Forall P lines.

(** A step that prints nothing. *)
Definition silent {W E A} (m : Go.M W E A) : Prop :=
  forall s r s', m s = (r, s') -> stdout s' = stdout s.

(** The ways a run may write the function: not at all, by one creation, by
    one code update, or by a code update followed by a configuration
    update. *)
Definition writes_once (cfg : DeploymentConfig) (evs : list Call) : Prop :=
  exists zipData roleARN,
    let created := CallCreateFunction (createFunctionInput cfg zipData roleARN) in
    let coded := CallUpdateFunctionCode (updateCodeInput cfg zipData) in
    let configured :=
      CallUpdateFunctionConfiguration (updateConfigurationInput cfg roleARN) in
    List.filter writes_function evs = []
    \/ List.filter writes_function evs = [created]
    \/ List.filter writes_function evs = [coded]
    \/ List.filter writes_function evs = [coded; configured].

(** The characters [fmt.Sprintf("%x", ...)] writes. *)
Definition is_hex_digit (c : ascii) : bool :=
  let n := nat_of_ascii c in
  ((48 <=? n) && (n <=? 57) || (97 <=? n) && (n <=? 102))%nat.

Fixpoint all_chars (p : ascii -> bool) (s : string) : bool :=
  match s with
  | EmptyString => true
  | String c rest => p c && all_chars p rest
  end.

End deployer.

(** ** [internal/validator]: validation of the AWS credentials *)

Module validator.
Import Go.
Local Open Scope go_scope.

(** The fields of [sts.GetCallerIdentityOutput].  The client hands back
    either an output or an error, never neither. *)
Record GetCallerIdentityOutput := {
  Account : option string;
  Arn : option string;
  UserId : option string;
}.

(** [STSAPI] defines the STS operations needed for validation. *)
Class STSAPI (W : Type) := {
  GetCallerIdentity : W -> reply GetCallerIdentityOutput * W;
}.

Inductive Call := CallGetCallerIdentity.

(** [AWSValidator] validates AWS credentials and configuration; its STS
    client is the [STSAPI] instance in scope. *)
Record AWSValidator := { region : string }.

(** [NewAWSValidator] creates a new AWS validator. *)
Definition NewAWSValidator (region : string) : AWSValidator :=
  {| region := region |}.

(** [ValidationResult] holds the result of AWS validation. *)
Record ValidationResult := {
  Valid : bool;
  AccountID : string;
  UserARN : string;
  Region : string;
  ErrorMessage : string;
}.

(** [aws.ToString]: the string a pointer holds, empty for [nil]. *)
Definition aws_ToString (p : option string) : string :=
  match p with
  | Some s => s
  | None => EmptyString
  end.

Definition supportedRegions : list string :=
  [ "us-east-1"; "us-east-2"; "us-west-1"; "us-west-2";
    "eu-west-1"; "eu-west-2"; "eu-west-3"; "eu-central-1"; "eu-north-1";
    "ap-southeast-1"; "ap-southeast-2"; "ap-northeast-1"; "ap-northeast-2";
    "ap-south-1"; "sa-east-1"; "ca-central-1" ].

(** The loop of [isSupportedRegion]. *)
Fixpoint inRegions (region : string) (regions : list string) : bool :=
  match regions with
  | [] => false
  | supported :: rest =>
    if String.eqb region supported then true else inRegions region rest
  end.

(** [isSupportedRegion] checks if the region is in the supported list. *)
Definition isSupportedRegion (region : string) : bool :=
  inRegions region supportedRegions.

Section Validator.
Context {W : Type} `{!STSAPI W}.

(** [Validate] validates AWS credentials and returns account information.
    It returns a result together with the error, [None] being [nil]. *)
Definition Validate (v : AWSValidator)
    : Go.M W Call (ValidationResult * option error) :=
  got <-- try (invoke CallGetCallerIdentity GetCallerIdentity) ;;
  match got with
  | Fault err =>
    ret ({| Valid := false;
            AccountID := EmptyString;
            UserARN := EmptyString;
            Region := EmptyString;
            ErrorMessage := "Failed to validate AWS credentials: " +:+ Error err |},
         Some err)
  | Reply output =>
    if String.eqb (region v) EmptyString then
      ret ({| Valid := false;
              AccountID := EmptyString;
              UserARN := EmptyString;
              Region := EmptyString;
              ErrorMessage := "AWS region is not configured" |},
           Some (errors_New "region not configured"))
    else if negb (isSupportedRegion (region v)) then
      ret ({| Valid := false;
              AccountID := EmptyString;
              UserARN := EmptyString;
              Region := region v;
              ErrorMessage := "AWS region '" +:+ region v +:+ "' is not supported" |},
           Some (errors_New ("unsupported region: " +:+ region v)))
    else
      ret ({| Valid := true;
              AccountID := aws_ToString (Account output);
              UserARN := aws_ToString (Arn output);
              Region := region v;
              ErrorMessage := EmptyString |},
           None)
  end.

End Validator.

End validator.

(** ** Test doubles

    The in-memory clients of the repository's tests ([handler_test.go],
    [deployer_test.go]): a record of optional functions per interface, with
    the same defaults, over a world that holds nothing. *)

Module mocks.
Import Go.

(** [mockIAMClient] of [handler_test.go] *)
Record mockIAMClient := {
  createOIDCProviderFunc :
    option (provisioner.CreateOpenIDConnectProviderInput
            -> reply provisioner.CreateOpenIDConnectProviderOutput);
  getOIDCProviderFunc :
    option (provisioner.GetOpenIDConnectProviderInput
            -> reply provisioner.GetOpenIDConnectProviderOutput);
  listOIDCProvidersFunc :
    option (reply provisioner.ListOpenIDConnectProvidersOutput);
  tagOIDCProviderFunc :
    option (provisioner.TagOpenIDConnectProviderInput -> reply unit);
}.

Definition mock_IAMAPI (m : mockIAMClient) : provisioner.IAMAPI unit :=
  {| provisioner.CreateOpenIDConnectProvider input w :=
       (match createOIDCProviderFunc m with
        | Some f => f input
        | None => Reply {| provisioner.created_OpenIDConnectProviderArn := None |}
        end, w);
     provisioner.GetOpenIDConnectProvider input w :=
       (match getOIDCProviderFunc m with
        | Some f => f input
        | None => Reply {| provisioner.get_Url := None |}
        end, w);
     provisioner.ListOpenIDConnectProviders w :=
       (match listOIDCProvidersFunc m with
        | Some r => r
        | None => Reply {| provisioner.OpenIDConnectProviderList := [] |}
        end, w);
     provisioner.TagOpenIDConnectProvider input w :=
       (match tagOIDCProviderFunc m with
        | Some f => f input
        | None => Reply tt
        end, w) |}.

(** An account holding one provider, [arn], registered under [url]; a new
    provider is given the identifier [created]; tagging answers [tagging]. *)
Definition oneProvider (arn url created : string) (tagging : reply unit)
    : mockIAMClient :=
  {| createOIDCProviderFunc :=
       Some (fun _ => Reply {| provisioner.created_OpenIDConnectProviderArn := Some created |});
     getOIDCProviderFunc :=
       Some (fun _ => Reply {| provisioner.get_Url := Some url |});
     listOIDCProvidersFunc :=
       Some (Reply {| provisioner.OpenIDConnectProviderList :=
                        [ {| provisioner.entry_Arn := Some arn |} ] |});
     tagOIDCProviderFunc := Some (fun _ => tagging) |}.

(** An account holding no provider. *)
Definition noProvider (created : string) (tagging : reply unit) : mockIAMClient :=
  {| createOIDCProviderFunc :=
       Some (fun _ => Reply {| provisioner.created_OpenIDConnectProviderArn := Some created |});
     getOIDCProviderFunc := None;
     listOIDCProvidersFunc := None;
     tagOIDCProviderFunc := Some (fun _ => tagging) |}.

(** A URL parser for the issuer URLs used in the examples: it splits off the
    scheme and the authority the way [net/url.Parse] does for an ASCII URL
    without fragment, query, user information, port or escapes. *)
Definition is_letter (c : ascii) : bool :=
  let n := nat_of_ascii c in
  ((97 <=? n) && (n <=? 122) || (65 <=? n) && (n <=? 90))%nat.

Definition is_scheme_punct (c : ascii) : bool :=
  let n := nat_of_ascii c in
  ((48 <=? n) && (n <=? 57) || (n =? 43) || (n =? 45) || (n =? 46))%nat.

Definition to_lower (c : ascii) : ascii :=
  let n := nat_of_ascii c in
  if ((65 <=? n) && (n <=? 90))%nat then ascii_of_nat (n + 32) else c.

Fixpoint lower (s : string) : string :=
  match s with
  | EmptyString => EmptyString
  | String c s' => String (to_lower c) (lower s')
  end.

(** [getScheme]: the length of the scheme, when there is one. *)
Fixpoint getScheme (i : nat) (s : string) : reply (option nat) :=
  match s with
  | EmptyString => Reply None
  | String c s' =>
    if is_letter c then getScheme (S i) s'
    else if is_scheme_punct c then
      (if (i =? 0)%nat then Reply None else getScheme (S i) s')
    else if Ascii.eqb c ":" then
      (if (i =? 0)%nat then Fault (errors_New "missing protocol scheme")
       else Reply (Some i))
    else Reply None
  end.

Definition drop_string (n : nat) (s : string) : string :=
  substring n (String.length s - n) s.

Definition sample_url_Parse (rawURL : string) : reply provisioner.URL :=
  match getScheme 0 rawURL with
  | Fault e => Fault (Errorf "parse " e EmptyString)
  | Reply found =>
    let '(scheme, rest) :=
      match found with
      | Some i => (lower (substring 0 i rawURL), drop_string (S i) rawURL)
      | None => (EmptyString, rawURL)
      end in
    if String.prefix "//" rest
       && (negb (String.eqb scheme EmptyString) || negb (String.prefix "///" rest))
    then
      let authority := drop_string 2 rest in
      let host :=
        match index 0 "/" authority with
        | Some i => substring 0 i authority
        | None => authority
        end in
      Reply {| provisioner.Scheme := scheme; provisioner.Host := host |}
    else
      Reply {| provisioner.Scheme := scheme; provisioner.Host := EmptyString |}
  end.

Definition sample_NetURL : provisioner.NetURL :=
  {| provisioner.url_Parse := sample_url_Parse |}.

Definition request (issuerURL : string) : provisioner.OIDCProvisionerRequest :=
  {| provisioner.IssuerURL := issuerURL;
     provisioner.Thumbprint := "abc123";
     provisioner.ClusterID := "test-cluster";
     provisioner.ClientIDs := [] |}.

Definition start {E} : state unit E := mkState tt [] [].

(** [mockLambdaClient], [mockIAMClient] and [mockCloudWatchLogsClient] of
    [deployer_test.go] *)
Record mockLambdaClient := {
  createFunctionFunc :
    option (deployer.CreateFunctionInput -> reply deployer.CreateFunctionOutput);
  updateFunctionCodeFunc : option (deployer.UpdateFunctionCodeInput -> reply unit);
  updateFunctionConfigFunc :
    option (deployer.UpdateFunctionConfigurationInput -> reply unit);
  getFunctionFunc :
    option (deployer.GetFunctionInput -> reply deployer.GetFunctionOutput);
  addPermissionFunc : option (deployer.AddPermissionInput -> reply unit);
  tagResourceFunc : option (deployer.TagResourceInput -> reply unit);
}.

Definition answer {I O} (f : option (I -> reply O)) (default : O) (input : I)
    (w : unit) : reply O * unit :=
  (match f with Some f => f input | None => Reply default end, w).

Definition mock_LambdaAPI (m : mockLambdaClient) : deployer.LambdaAPI unit :=
  {| deployer.CreateFunction :=
       answer (createFunctionFunc m) {| deployer.cf_FunctionArn := None |};
     deployer.UpdateFunctionCode := answer (updateFunctionCodeFunc m) tt;
     deployer.UpdateFunctionConfiguration := answer (updateFunctionConfigFunc m) tt;
     deployer.GetFunction :=
       answer (getFunctionFunc m) {| deployer.Configuration := None |};
     deployer.AddPermission := answer (addPermissionFunc m) tt;
     deployer.TagResource := answer (tagResourceFunc m) tt |}.

Record mockRoleClient := {
  createRoleFunc : option (deployer.CreateRoleInput -> reply deployer.CreateRoleOutput);
  getRoleFunc : option (deployer.GetRoleInput -> reply deployer.GetRoleOutput);
  putRolePolicyFunc : option (deployer.PutRolePolicyInput -> reply unit);
}.

Definition mock_RoleAPI (m : mockRoleClient) : deployer.IAMAPI unit :=
  {| deployer.CreateRole := answer (createRoleFunc m) {| deployer.cr_Role := None |};
     deployer.GetRole := answer (getRoleFunc m) {| deployer.gr_Role := None |};
     deployer.PutRolePolicy := answer (putRolePolicyFunc m) tt |}.

Record mockCloudWatchLogsClient := {
  createLogGroupFunc : option (deployer.CreateLogGroupInput -> reply unit);
  describeLogGroupsFunc :
    option (deployer.DescribeLogGroupsInput -> reply deployer.DescribeLogGroupsOutput);
  putRetentionPolicyFunc : option (deployer.PutRetentionPolicyInput -> reply unit);
  tagLogGroupFunc : option (deployer.TagLogGroupInput -> reply unit);
}.

Definition mock_CloudWatchLogsAPI (m : mockCloudWatchLogsClient)
    : deployer.CloudWatchLogsAPI unit :=
  {| deployer.CreateLogGroup := answer (createLogGroupFunc m) tt;
     deployer.DescribeLogGroups :=
       answer (describeLogGroupsFunc m) {| deployer.LogGroups := [] |};
     deployer.PutRetentionPolicy := answer (putRetentionPolicyFunc m) tt;
     deployer.TagLogGroup := answer (tagLogGroupFunc m) tt |}.

(** A build host on which the compiler answers [compiled] and the binary it
    leaves behind has the given content. *)
Definition scripted_BuildHost (compiled : option error) (binary : list Byte.byte)
    : deployer.BuildHost unit :=
  {| deployer.os_MkdirTemp _ _ w := (Reply "/tmp/lambda-build-1", w);
     deployer.os_RemoveAll _ w := w;
     deployer.os_Environ _ := [];
     deployer.exec_Run _ _ w := ((compiled, EmptyString), w);
     deployer.os_Stat _ w :=
       (Reply {| deployer.fi_Name := "bootstrap";
                 deployer.fi_Size := Z.of_nat (length binary);
                 deployer.fi_Mode := 420 |}, w);
     deployer.os_Chmod _ _ w := (Reply tt, w);
     deployer.os_Open path w := (Reply {| deployer.file_path := path |}, w);
     deployer.file_Stat _ w :=
       (Reply {| deployer.fi_Name := "bootstrap";
                 deployer.fi_Size := Z.of_nat (length binary);
                 deployer.fi_Mode := deployer.mode_0755 |}, w);
     deployer.file_Close _ w := w;
     deployer.file_ReadAll _ w := (Reply binary, w) |}.

(** Stand-ins for the libraries, enough to run the examples: the archive is
    the content of its entries laid end to end, and the digest of a byte
    string is its first two bytes. *)
Definition toy_Libraries : deployer.Libraries :=
  {| deployer.zip_FileInfoHeader fi :=
       Reply {| deployer.Name := deployer.fi_Name fi;
                deployer.Method := deployer.zip_Store;
                deployer.Mode := deployer.fi_Mode fi;
                deployer.UncompressedSize64 := deployer.fi_Size fi |};
     deployer.zip_CreateHeader _ _ := Reply tt;
     deployer.zip_Close _ := Reply tt;
     deployer.zip_bytes entries := concat (snd <$> entries);
     deployer.sha256_Sum256 data := take 2 data;
     deployer.filepath_Join dir name := dir +:+ "/" +:+ name |}.

Definition double_quote : string := String (ascii_of_nat 34) EmptyString.

(** String literals without escapes. *)
Definition plain_JSONStrings : deployer.JSONStrings :=
  {| deployer.json_quote s := double_quote +:+ s +:+ double_quote |}.

(** The clients of [TestDeploy_CreateNewFunction] and
    [TestDeploy_UpdateExistingFunction], with a switch that makes every
    auxiliary call (permission, log group, tags) fail. *)
Definition roleARN : string := "arn:aws:iam::123456789012:role/test-role".
Definition functionARN : string :=
  "arn:aws:lambda:us-east-1:123456789012:function:test-function".

Definition refusal : error := errors_New "unexpected error".

Definition notFound : error :=
  Exception lambda_ResourceNotFoundException "ResourceNotFoundException".

Definition existingFunction : deployer.GetFunctionOutput :=
  {| deployer.Configuration := Some {| deployer.FunctionArn := Some functionARN |} |}.

Definition auxiliary {I} (failing : bool) : option (I -> reply unit) :=
  if failing then Some (fun _ => Fault refusal) else None.

Definition newFunctionLambda (failing : bool) : mockLambdaClient :=
  {| createFunctionFunc :=
       Some (fun _ => Reply {| deployer.cf_FunctionArn := Some functionARN |});
     updateFunctionCodeFunc := None;
     updateFunctionConfigFunc := None;
     getFunctionFunc := Some (fun _ => Fault notFound);
     addPermissionFunc := auxiliary failing;
     tagResourceFunc := auxiliary failing |}.

Definition existingFunctionLambda (failing : bool) : mockLambdaClient :=
  {| createFunctionFunc := None;
     updateFunctionCodeFunc := None;
     updateFunctionConfigFunc := None;
     getFunctionFunc := Some (fun _ => Reply existingFunction);
     addPermissionFunc := auxiliary failing;
     tagResourceFunc := auxiliary failing |}.

Definition existingRole : mockRoleClient :=
  {| createRoleFunc := None;
     getRoleFunc :=
       Some (fun _ => Reply {| deployer.gr_Role :=
                                 Some {| deployer.Arn := Some roleARN |} |});
     putRolePolicyFunc := None |}.

(** The log service: [groups] are the names it lists. *)
Definition logs (groups : list string) (failing : bool) : mockCloudWatchLogsClient :=
  {| createLogGroupFunc := auxiliary failing;
     describeLogGroupsFunc :=
       Some (fun _ =>
               Reply {| deployer.LogGroups :=
                          (fun n => {| deployer.LogGroupName := Some n |}) <$> groups |});
     putRetentionPolicyFunc := auxiliary failing;
     tagLogGroupFunc := auxiliary failing |}.

Definition binary : list Byte.byte := [Byte.x7f; Byte.x45; Byte.x4c; Byte.x46].

Definition config (clmServiceRoleARN sourceAccountID : string)
    : deployer.DeploymentConfig :=
  {| deployer.FunctionName := "test-function";
     deployer.ExecutionRoleName := "test-role";
     deployer.SourceDir := "../functions/oidc-provisioner";
     deployer.CLMServiceRoleARN := clmServiceRoleARN;
     deployer.SourceAccountID := sourceAccountID;
     deployer.Runtime := "provided.al2023";
     deployer.MemorySize := 128;
     deployer.Timeout := 60;
     deployer.Architecture := "x86_64";
     deployer.Tags := {[ "Environment" := "test" ]} |}.

Definition clmRoleARN : string := "arn:aws:iam::123456789012:role/clm-role".

(** A role service that cannot be reached. *)
Definition unreachableRole : mockRoleClient :=
  {| createRoleFunc := None;
     getRoleFunc := Some (fun _ => Fault refusal);
     putRolePolicyFunc := None |}.

(** A function service that fails at the given operation. *)
Definition brokenLookupLambda : mockLambdaClient :=
  {| createFunctionFunc := None;
     updateFunctionCodeFunc := None;
     updateFunctionConfigFunc := None;
     getFunctionFunc := Some (fun _ => Fault refusal);
     addPermissionFunc := None;
     tagResourceFunc := None |}.

Definition brokenCreateLambda : mockLambdaClient :=
  {| createFunctionFunc := Some (fun _ => Fault refusal);
     updateFunctionCodeFunc := None;
     updateFunctionConfigFunc := None;
     getFunctionFunc := Some (fun _ => Fault notFound);
     addPermissionFunc := None;
     tagResourceFunc := None |}.

Definition brokenUpdateLambda : mockLambdaClient :=
  {| createFunctionFunc := None;
     updateFunctionCodeFunc := Some (fun _ => Fault refusal);
     updateFunctionConfigFunc := None;
     getFunctionFunc := Some (fun _ => Reply existingFunction);
     addPermissionFunc := None;
     tagResourceFunc := None |}.

(** [Deploy] against the doubles. *)
Definition runDeploy (role : mockRoleClient) (lam : mockLambdaClient)
    (cw : mockCloudWatchLogsClient) (compiled : option error)
    (cfg : deployer.DeploymentConfig)
    : outcome deployer.DeploymentResult * state unit deployer.Call :=
  @deployer.Deploy unit (mock_LambdaAPI lam) (mock_RoleAPI role)
    (mock_CloudWatchLogsAPI cw) (scripted_BuildHost compiled binary)
    toy_Libraries plain_JSONStrings cfg start.

Definition deployed (status : string) : deployer.DeploymentResult :=
  {| deployer.res_FunctionARN := functionARN;
     deployer.res_FunctionName := "test-function";
     deployer.res_ExecutionRole := roleARN;
     deployer.res_LogGroupName := "/aws/lambda/test-function";
     deployer.res_Status := status;
     deployer.res_PackageSize := 4;
     deployer.res_PackageChecksum := "7f45" |}.

(** The state a run against the doubles is in after the given calls. *)
Definition logged (evs : list deployer.Call) : state unit deployer.Call :=
  mkState tt evs [].

Definition roleLookup : deployer.Call :=
  deployer.CallGetRole {| deployer.gr_RoleName := "test-role" |}.

Definition functionLookup : deployer.Call :=
  deployer.CallGetFunction {| deployer.gf_FunctionName := "test-function" |}.


(** An account whose provider listing fails. *)
Definition unlistable (failure : error) : mockIAMClient :=
  {| createOIDCProviderFunc := None;
     getOIDCProviderFunc := None;
     listOIDCProvidersFunc := Some (Fault failure);
     tagOIDCProviderFunc := None |}.

(** An account holding one provider, in which no provider can be created. *)
Definition full (arn url : string) (failure : error) : mockIAMClient :=
  {| createOIDCProviderFunc := Some (fun _ => Fault failure);
     getOIDCProviderFunc :=
       Some (fun _ => Reply {| provisioner.get_Url := Some url |});
     listOIDCProvidersFunc :=
       Some (Reply {| provisioner.OpenIDConnectProviderList :=
                        [ {| provisioner.entry_Arn := Some arn |} ] |});
     tagOIDCProviderFunc := None |}.

(** [mockSTSClient] of [aws_validator_test.go] *)
Record mockSTSClient := {
  getCallerIdentityFunc : option (reply validator.GetCallerIdentityOutput);
}.

Definition mock_STSAPI (m : mockSTSClient) : validator.STSAPI unit :=
  {| validator.GetCallerIdentity w :=
       (match getCallerIdentityFunc m with
        | Some r => r
        | None => Reply {| validator.Account := None;
                           validator.Arn := None;
                           validator.UserId := None |}
        end, w) |}.

(** The identity of [TestValidate_Success]. *)
Definition testUser : mockSTSClient :=
  {| getCallerIdentityFunc :=
       Some (Reply {| validator.Account := Some "123456789012";
                      validator.Arn := Some "arn:aws:iam::123456789012:user/test-user";
                      validator.UserId := None |}) |}.

(** The client of [TestValidate_InvalidCredentials]. *)
Definition invalidCredentials : mockSTSClient :=
  {| getCallerIdentityFunc := Some (Fault (errors_New "invalid credentials")) |}.

(** A build host that keeps track of the temporary directories in
    existence; otherwise as [scripted_BuildHost]. *)
Definition tracking_BuildHost (compiled : option error) (binary : list Byte.byte)
    : deployer.BuildHost (list string) :=
  {| deployer.os_MkdirTemp _ _ dirs :=
       (Reply "/tmp/lambda-build-1", "/tmp/lambda-build-1" :: dirs);
     deployer.os_RemoveAll dir dirs :=
       List.filter (fun d => negb (String.eqb d dir)) dirs;
     deployer.os_Environ _ := ["HOME=/root"];
     deployer.exec_Run _ _ dirs := ((compiled, "build output"), dirs);
     deployer.os_Stat _ dirs :=
       (Reply {| deployer.fi_Name := "bootstrap";
                 deployer.fi_Size := Z.of_nat (length binary);
                 deployer.fi_Mode := 420 |}, dirs);
     deployer.os_Chmod _ _ dirs := (Reply tt, dirs);
     deployer.os_Open path dirs := (Reply {| deployer.file_path := path |}, dirs);
     deployer.file_Stat _ dirs :=
       (Reply {| deployer.fi_Name := "bootstrap";
                 deployer.fi_Size := Z.of_nat (length binary);
                 deployer.fi_Mode := deployer.mode_0755 |}, dirs);
     deployer.file_Close _ dirs := dirs;
     deployer.file_ReadAll _ dirs := (Reply binary, dirs) |}.

(** The role service of [TestDeploy_CreateNewFunction] before the role
    exists: the lookup reports that there is no such role, the creation
    answers with [roleARN], attaching the policy answers [attaching]. *)
Definition noSuchRole : error :=
  Exception iam_NoSuchEntityException "NoSuchEntity".

Definition missingRole (attaching : reply unit) : mockRoleClient :=
  {| createRoleFunc :=
       Some (fun _ => Reply {| deployer.cr_Role :=
                                 Some {| deployer.Arn := Some roleARN |} |});
     getRoleFunc := Some (fun _ => Fault noSuchRole);
     putRolePolicyFunc := Some (fun _ => attaching) |}.

(** A configuration without tags. *)
Definition untagged (clmServiceRoleARN sourceAccountID : string)
    : deployer.DeploymentConfig :=
  {| deployer.FunctionName := "test-function";
     deployer.ExecutionRoleName := "test-role";
     deployer.SourceDir := "../functions/oidc-provisioner";
     deployer.CLMServiceRoleARN := clmServiceRoleARN;
     deployer.SourceAccountID := sourceAccountID;
     deployer.Runtime := "provided.al2023";
     deployer.MemorySize := 128;
     deployer.Timeout := 60;
     deployer.Architecture := "x86_64";
     deployer.Tags := ∅ |}.

(** A JSON text written with apostrophes in place of the quotation marks. *)
Fixpoint json_literal (s : string) : string :=
  match s with
  | EmptyString => EmptyString
  | String c rest =>
    String (if Ascii.eqb c "'" then ascii_of_nat 34 else c) (json_literal rest)
  end.

(** A log service that lists no group although the group is there: its
    creation answers that the group already exists. *)
Definition alreadyExists : error :=
  Exception logs_ResourceAlreadyExistsException "ResourceAlreadyExistsException".

Definition unlistedLogGroup : mockCloudWatchLogsClient :=
  {| createLogGroupFunc := Some (fun _ => Fault alreadyExists);
     describeLogGroupsFunc := None;
     putRetentionPolicyFunc := None;
     tagLogGroupFunc := None |}.

End mocks.

(** * Properties *)

(** ** The Go runtime pieces *)

Module GoFacts.
Import Go.
Local Open Scope go_scope.

Lemma length_app (u v : string) :
  String.length (u +:+ v) = (String.length u + String.length v)%nat.
Proof. induction u as [|c u IH]; simpl; [reflexivity | now rewrite IH]. Qed.







Section MonadFacts.
Context {W E : Type}.
Implicit Types s : state W E.

Lemma bind_Ok {A B} (m : M W E A) (k : A -> M W E B) s a s1 :
  m s = (Ok a, s1) -> bind m k s = k a s1.
Proof. unfold bind. now intros ->. Qed.

Lemma bind_Err {A B} (m : M W E A) (k : A -> M W E B) s e s1 :
  m s = (Err e, s1) -> bind m k s = (Err e, s1).
Proof. unfold bind. now intros ->. Qed.

Lemma bind_Panic {A B} (m : M W E A) (k : A -> M W E B) s s1 :
  m s = (Panic, s1) -> bind m k s = (Panic, s1).
Proof. unfold bind. now intros ->. Qed.

Lemma wrapping_Ok {A} prefix (m : M W E A) s a s1 :
  m s = (Ok a, s1) -> wrapping prefix m s = (Ok a, s1).
Proof. unfold wrapping. now intros ->. Qed.

Lemma wrapping_Err {A} prefix (m : M W E A) s e s1 :
  m s = (Err e, s1) -> wrapping prefix m s = (Err (wrap prefix e), s1).
Proof. unfold wrapping. now intros ->. Qed.

Lemma wrapping_Panic {A} prefix (m : M W E A) s s1 :
  m s = (Panic, s1) -> wrapping prefix m s = (Panic, s1).
Proof. unfold wrapping. now intros ->. Qed.

Lemma try_Ok {A} (m : M W E A) s a s1 :
  m s = (Ok a, s1) -> try m s = (Ok (Reply a), s1).
Proof. unfold try. now intros ->. Qed.

Lemma try_Err {A} (m : M W E A) s e s1 :
  m s = (Err e, s1) -> try m s = (Ok (Fault e), s1).
Proof. unfold try. now intros ->. Qed.

Lemma try_Panic {A} (m : M W E A) s s1 :
  m s = (Panic, s1) -> try m s = (Panic, s1).
Proof. unfold try. now intros ->. Qed.

(** What a logged client call leaves behind. *)
Lemma invoke_eq {A} (ev : E) (f : W -> reply A * W) s :
  invoke ev f s
  = (match fst (f (world s)) with Reply a => Ok a | Fault e => Err e end,
     mkState (snd (f (world s))) (calls s ++ [ev]) (stdout s)).
Proof. unfold invoke. destruct (f (world s)) as [[a|e] w']; reflexivity. Qed.

(** Inversion of a successful run of a composite step. *)
Lemma bind_Ok_inv {A B} (m : M W E A) (k : A -> M W E B) s b s' :
  bind m k s = (Ok b, s') ->
  exists a s1, m s = (Ok a, s1) /\ k a s1 = (Ok b, s').
Proof.
  unfold bind. destruct (m s) as [[a|e|] s1]; intros H; try discriminate.
  now exists a, s1.
Qed.

Lemma wrapping_Ok_inv {A} prefix (m : M W E A) s a s' :
  wrapping prefix m s = (Ok a, s') -> m s = (Ok a, s').
Proof.
  unfold wrapping. destruct (m s) as [[a'|e|] s1]; intros H; now try discriminate.
Qed.

(** Sequencing is associative. *)
Lemma bind_assoc {A B C} (m : M W E A) (k : A -> M W E B) (h : B -> M W E C) s :
  bind (bind m k) h s = bind m (fun a => bind (k a) h) s.
Proof. unfold bind. destruct (m s) as [[a|e|] s1]; reflexivity. Qed.

Lemma bind_ext {A B} (m : M W E A) (k k' : A -> M W E B) s :
  (forall a s1, k a s1 = k' a s1) -> bind m k s = bind m k' s.
Proof. intros Hk. unfold bind. destruct (m s) as [[a|e|] s1]; auto. Qed.

Lemma try_Ok_inv {A} (m : M W E A) s r s' :
  try m s = (Ok r, s') ->
  match r with
  | Reply a => m s = (Ok a, s')
  | Fault e => m s = (Err e, s')
  end.
Proof.
  unfold try. destruct (m s) as [[a|e|] s1]; intros H; inversion H; reflexivity.
Qed.

(** *** What a step logs *)

Lemma emits_weaken {A} (P Q : E -> Prop) (m : M W E A) :
  (forall c, P c -> Q c) -> emits P m -> emits Q m.
Proof.
  intros HPQ Hm s r s' Hrun. destruct (Hm s r s' Hrun) as (evs & Hc & Hall).
  exists evs. split; [assumption|]. eapply Forall_impl; eauto.
Qed.

Lemma emits_nothing {A} (P : E -> Prop) (m : M W E A) :
  (forall s, calls (snd (m s)) = calls s) -> emits P m.
Proof.
  intros Hm s r s' Hrun. exists []. specialize (Hm s). rewrite Hrun in Hm.
  simpl in Hm. rewrite app_nil_r. split; [assumption | constructor].
Qed.

Lemma emits_ret {A} P (a : A) : emits P (ret a : M W E A).
Proof. now apply emits_nothing. Qed.

Lemma emits_fail {A} P e : emits P (fail e : M W E A).
Proof. now apply emits_nothing. Qed.

Lemma emits_panic {A} P : emits P (panic : M W E A).
Proof. now apply emits_nothing. Qed.

Lemma emits_deref {A} P (p : option A) : emits P (deref p : M W E A).
Proof. destruct p; [apply emits_ret | apply emits_panic]. Qed.

Lemma emits_Printf P line : emits P (Printf line : M W E unit).
Proof. now apply emits_nothing. Qed.

Lemma emits_host {A} P (f : W -> reply A * W) : emits P (host f : M W E A).
Proof.
  apply emits_nothing. intros s. unfold host.
  destruct (f (world s)) as [[a|e] w']; reflexivity.
Qed.

Lemma emits_invoke {A} (P : E -> Prop) ev (f : W -> reply A * W) :
  P ev -> emits P (invoke ev f : M W E A).
Proof.
  intros Hev s r s' Hrun. rewrite invoke_eq in Hrun. inversion Hrun; subst.
  exists [ev]. split; [reflexivity | now repeat constructor].
Qed.

Lemma emits_bind {A B} P (m : M W E A) (k : A -> M W E B) :
  emits P m -> (forall a, emits P (k a)) -> emits P (bind m k).
Proof.
  intros Hm Hk s r s' Hrun. unfold bind in Hrun.
  destruct (m s) as [[a|e|] s1] eqn:Hms;
    destruct (Hm s _ s1 Hms) as (evs1 & Hc1 & Hall1).
  - destruct (Hk a s1 r s' Hrun) as (evs2 & Hc2 & Hall2).
    exists (evs1 ++ evs2). rewrite Hc2, Hc1, <- app_assoc.
    split; [reflexivity | now apply Forall_app].
  - inversion Hrun; subst. now exists evs1.
  - inversion Hrun; subst. now exists evs1.
Qed.

Lemma emits_wrapping {A} P prefix (m : M W E A) :
  emits P m -> emits P (wrapping prefix m).
Proof.
  intros Hm s r s' Hrun. unfold wrapping in Hrun.
  destruct (m s) as [[a|e|] s1] eqn:Hms;
    destruct (Hm s _ s1 Hms) as (evs1 & Hc1 & Hall1);
    inversion Hrun; subst; now exists evs1.
Qed.

Lemma emits_try {A} P (m : M W E A) : emits P m -> emits P (try m).
Proof.
  intros Hm s r s' Hrun. unfold try in Hrun.
  destruct (m s) as [[a|e|] s1] eqn:Hms;
    destruct (Hm s _ s1 Hms) as (evs1 & Hc1 & Hall1);
    inversion Hrun; subst; now exists evs1.
Qed.

(** *** Steps that cannot panic *)

Lemma panic_free_ret {A} (a : A) : panic_free (ret a : M W E A).
Proof. intros s. discriminate. Qed.

Lemma panic_free_fail {A} e : panic_free (fail e : M W E A).
Proof. intros s. discriminate. Qed.

Lemma panic_free_Printf line : panic_free (Printf line : M W E unit).
Proof. intros s. discriminate. Qed.

Lemma panic_free_invoke {A} ev (f : W -> reply A * W) :
  panic_free (invoke ev f : M W E A).
Proof.
  intros s. rewrite invoke_eq. simpl. destruct (fst (f (world s))); discriminate.
Qed.

Lemma panic_free_bind {A B} (m : M W E A) (k : A -> M W E B) :
  panic_free m -> (forall a, panic_free (k a)) -> panic_free (bind m k).
Proof.
  intros Hm Hk s. unfold bind. specialize (Hm s).
  destruct (m s) as [[a|e|] s1]; simpl in *; [apply Hk | discriminate | congruence].
Qed.

Lemma panic_free_wrapping {A} prefix (m : M W E A) :
  panic_free m -> panic_free (wrapping prefix m).
Proof.
  intros Hm s. unfold wrapping. specialize (Hm s).
  destruct (m s) as [[a|e|] s1]; simpl in *; [discriminate | discriminate | congruence].
Qed.

Lemma panic_free_try {A} (m : M W E A) : panic_free m -> panic_free (try m).
Proof.
  intros Hm s. unfold try. specialize (Hm s).
  destruct (m s) as [[a|e|] s1]; simpl in *; [discriminate | discriminate | congruence].
Qed.

(** *** Steps that cannot return an error *)

Lemma error_free_ret {A} (a : A) : error_free (ret a : M W E A).
Proof. intros s e. discriminate. Qed.

Lemma error_free_Printf line : error_free (Printf line : M W E unit).
Proof. intros s e. discriminate. Qed.

Lemma error_free_bind {A B} (m : M W E A) (k : A -> M W E B) :
  error_free m -> (forall a, error_free (k a)) -> error_free (bind m k).
Proof.
  intros Hm Hk s e. unfold bind. specialize (Hm s).
  destruct (m s) as [[a|e'|] s1]; simpl in *;
    [apply Hk | now destruct (Hm e') | discriminate].
Qed.

End MonadFacts.

Create HintDb emits.
Create HintDb panic_free.

#[global] Hint Resolve emits_ret emits_fail emits_panic emits_deref emits_Printf
  emits_host emits_bind emits_wrapping emits_try : emits.
#[global] Hint Resolve panic_free_ret panic_free_fail panic_free_Printf
  panic_free_invoke panic_free_bind panic_free_wrapping panic_free_try : panic_free.

(** [List.filter] keeps nothing of a list whose elements all fail the test. *)
Lemma filter_none {A} (f : A -> bool) (l : list A) :
  Forall (fun x => f x = false) l -> List.filter f l = [].
Proof.
  induction 1 as [|x l Hx _ IH]; simpl; [reflexivity | now rewrite Hx].
Qed.

End GoFacts.

(** ** The reconciliation handler *)

Module ProvisionerSpec.
Import Go GoFacts provisioner.
Local Open Scope go_scope.

Section HandlerFacts.
Context {W : Type} `{!IAMAPI W} `{!NetURL}.
Implicit Types s : state W Call.

Lemma checkProviderExists_eq issuerURL s :
  checkProviderExists issuerURL s
  = match fst (ListOpenIDConnectProviders (world s)) with
    | Reply output =>
      scanProviders (TrimSuffix issuerURL "/") (OpenIDConnectProviderList output)
        (mkState (snd (ListOpenIDConnectProviders (world s)))
                 (calls s ++ [CallListOpenIDConnectProviders]) (stdout s))
    | Fault e =>
      (Err e, mkState (snd (ListOpenIDConnectProviders (world s)))
                      (calls s ++ [CallListOpenIDConnectProviders]) (stdout s))
    end.
Proof.
  unfold checkProviderExists, bind. rewrite invoke_eq.
  destruct (fst (ListOpenIDConnectProviders (world s))); reflexivity.
Qed.

(** The search moves past candidates that do not match, fetching the detail
    record of each. *)
Lemma scanProviders_passes_over key pre rest s :
  Forall (passed_over key) pre ->
  exists s1,
    scanProviders key (pre ++ rest) s = scanProviders key rest s1
    /\ calls s1 = calls s ++ (CallGetOpenIDConnectProvider ∘ getInputOf <$> pre)
    /\ stdout s1 = stdout s.
Proof.
  intros Hpre. revert s. induction Hpre as [|q pre Hq _ IH]; intros s.
  - exists s. simpl. rewrite app_nil_r. auto.
  - set (s1 := mkState (snd (GetOpenIDConnectProvider (getInputOf q) (world s)))
                       (calls s ++ [CallGetOpenIDConnectProvider (getInputOf q)])
                       (stdout s)).
    destruct (IH s1) as (s2 & Hscan & Hcalls & Hout).
    exists s2. split; [|split].
    + rewrite <- Hscan. simpl. unfold bind, try. rewrite invoke_eq.
      fold (getInputOf q). fold s1.
      specialize (Hq (world s)).
      destruct (fst (GetOpenIDConnectProvider (getInputOf q) (world s))) as [out|e];
        [|reflexivity].
      destruct (get_Url out) as [url|]; [|reflexivity].
      apply String.eqb_neq in Hq. now rewrite Hq.
    + rewrite Hcalls. simpl. now rewrite <- app_assoc.
    + now rewrite Hout.
Qed.


Lemma tagProvider_eq providerARN clusterID s :
  let input := {| tag_OpenIDConnectProviderArn := providerARN;
                  tag_Tags := providerTags clusterID |} in
  tagProvider providerARN clusterID s
  = (match fst (TagOpenIDConnectProvider input (world s)) with
     | Reply a => Ok a
     | Fault e => Err e
     end,
     mkState (snd (TagOpenIDConnectProvider input (world s)))
             (calls s ++ [CallTagOpenIDConnectProvider input]) (stdout s)).
Proof. unfold tagProvider. apply invoke_eq. Qed.

(** [Handle] once validation and the existence search are behind it. *)
Lemma Handle_after_search req s0 found s1 :
  validateRequest req = None ->
  checkProviderExists (TrimSuffix (IssuerURL req) "/") s0 = (Ok found, s1) ->
  Handle req s0
  = (if snd found then
       wrapping "failed to tag existing provider: "
         (tagProvider (fst found) (ClusterID req)) ;;;
       ret {| OIDCProviderARN := fst found;
              Status := statusAlreadyExists;
              Message := "OIDC provider already exists" |}
     else
       providerARN <-- wrapping "failed to create OIDC provider: " (createProvider req) ;;
       tagged <-- try (tagProvider providerARN (ClusterID req)) ;;
       match tagged with
       | Fault err => Printf ("Warning: failed to tag provider: " +:+ Error err +:+ newline)
       | Reply _ => ret tt
       end ;;;
       ret {| OIDCProviderARN := providerARN;
              Status := statusCreated;
              Message := "OIDC provider created successfully" |})%go s1.
Proof.
  intros Hvalid Hsearch. unfold Handle. rewrite Hvalid.
  rewrite (bind_Ok _ _ s0 tt s0) by reflexivity.
  rewrite (bind_Ok _ _ s0 found s1) by (now apply wrapping_Ok).
  now destruct found as [arn [|]].
Qed.

End HandlerFacts.

(** C6 (as amended).  [validateRequest] rejects a request with the error of
    the first rule it breaks, the rules being taken in this order: missing
    issuer URL, issuer URL that does not parse, scheme other than https,
    empty host, missing thumbprint, missing cluster identifier.  A request
    that breaks none of the six passes. *)
Theorem validateRequest_first_violated_rule `{!NetURL} (req : OIDCProvisionerRequest) :
  match find (violates req) rules_in_order with
  | Some r => exists e, validateRequest req = Some e /\ names r e
  | None => validateRequest req = None
  end.
Proof.
  unfold validateRequest, rules_in_order. simpl find. unfold violates.
  destruct (String.eqb (IssuerURL req) EmptyString); [simpl; eauto|].
  destruct (url_Parse (IssuerURL req)) as [u|cause]; [|simpl; eauto].
  destruct (String.eqb (Scheme u) "https"); [|simpl; eauto].
  simpl negb. cbv iota.
  destruct (String.eqb (Host u) EmptyString); [simpl; eauto|].
  destruct (String.eqb (Thumbprint req) EmptyString); [simpl; eauto|].
  destruct (String.eqb (ClusterID req) EmptyString); simpl; eauto.
Qed.

(** C6 (as stated) fails.  With the five listed rules, under either reading
    of "non-absolute": [https://] has a scheme, breaks none of the five
    under the narrow reading and is still rejected, for its empty host;
    [http://] breaks the rule on absolute URLs first under the broad
    reading, and is rejected with the error of the rule on the scheme. *)
Lemma listed_rules_counterexample :
  ~ @validates_as_listed mocks.sample_NetURL
      (@validateRequest mocks.sample_NetURL) no_scheme
  /\ ~ @validates_as_listed mocks.sample_NetURL
        (@validateRequest mocks.sample_NetURL) no_scheme_or_host.
Proof.
  split; intros H.
  - specialize (H (mocks.request "https://")). vm_compute in H. discriminate.
  - specialize (H (mocks.request "http://")). vm_compute in H.
    destruct H as (e & He & [[cause Hn] | [Hn | [_ Hn]]]); congruence.
Qed.

(** C5.  A tagging failure is fatal exactly when the provider already
    existed.  Once the request is valid and the existence search has
    answered: if it found the provider, an error from tagging makes [Handle]
    return that error, wrapped, and no response; if it found none and the
    provider was created, an error from tagging is printed and [Handle]
    still answers [created] with the identifier of the new provider. *)
Theorem tagging_failure_fatal_iff_provider_existed
    {W : Type} `{!IAMAPI W} `{!NetURL}
    (req : OIDCProvisionerRequest) (s0 s1 : state W Call)
    (providerARN : string) (exists_ : bool) (err : error) :
  validateRequest req = None ->
  checkProviderExists (TrimSuffix (IssuerURL req) "/") s0
  = (Ok (providerARN, exists_), s1) ->
  (exists_ = true ->
   forall s2,
     tagProvider providerARN (ClusterID req) s1 = (Err err, s2) ->
     Handle req s0 = (Err (wrap "failed to tag existing provider: " err), s2))
  /\ (exists_ = false ->
      forall created s2 s3,
        createProvider req s1 = (Ok created, s2) ->
        tagProvider created (ClusterID req) s2 = (Err err, s3) ->
        exists s',
          Handle req s0
          = (Ok {| OIDCProviderARN := created;
                   Status := statusCreated;
                   Message := "OIDC provider created successfully" |}, s')
          /\ world s' = world s3 /\ calls s' = calls s3).
Proof.
  intros Hvalid Hsearch. split; intros -> .
  - intros s2 Htag.
    rewrite (Handle_after_search req s0 _ s1 Hvalid Hsearch). simpl.
    apply bind_Err. now apply wrapping_Err.
  - intros created s2 s3 Hcreate Htag.
    rewrite (Handle_after_search req s0 _ s1 Hvalid Hsearch). simpl.
    rewrite (bind_Ok _ _ s1 created s2) by (now apply wrapping_Ok).
    rewrite (bind_Ok _ _ s2 (Fault err) s3) by (now apply try_Err).
    eexists. split; [reflexivity|]. simpl. auto.
Qed.

(** The theorem at work: an account that holds the provider and refuses
    tags, then an empty account that refuses tags. *)
Lemma tagging_failure_witness :
  let refused := Fault (errors_New "tagging refused") in
  fst (@Handle unit
         (mocks.mock_IAMAPI
            (mocks.oneProvider "arn:existing" "https://example.com" "arn:new" refused))
         mocks.sample_NetURL (mocks.request "https://example.com") mocks.start)
  = Err (wrap "failed to tag existing provider: " (errors_New "tagging refused"))
  /\ fst (@Handle unit (mocks.mock_IAMAPI (mocks.noProvider "arn:new" refused))
            mocks.sample_NetURL (mocks.request "https://example.com") mocks.start)
     = Ok {| OIDCProviderARN := "arn:new";
             Status := statusCreated;
             Message := "OIDC provider created successfully" |}.
Proof.
  intros refused. split.
  - erewrite (proj1 (@tagging_failure_fatal_iff_provider_existed unit
                       (mocks.mock_IAMAPI
                          (mocks.oneProvider "arn:existing" "https://example.com"
                             "arn:new" refused))
                       mocks.sample_NetURL (mocks.request "https://example.com")
                       mocks.start _ "arn:existing" true
                       (errors_New "tagging refused")
                       eq_refl eq_refl) eq_refl);
      reflexivity.
  - edestruct (proj2 (@tagging_failure_fatal_iff_provider_existed unit
                        (mocks.mock_IAMAPI (mocks.noProvider "arn:new" refused))
                        mocks.sample_NetURL (mocks.request "https://example.com")
                        mocks.start _ EmptyString false
                        (errors_New "tagging refused")
                        eq_refl eq_refl) eq_refl "arn:new" _ _ eq_refl eq_refl)
      as (s' & -> & _).
    reflexivity.
Defined.





End ProvisionerSpec.

(** ** The policy generator and the package builder *)

Module DeployerSpec.
Import Go GoFacts deployer.
Local Open Scope go_scope.

(** *** The text of the invocation policy *)

Lemma append_assoc_r (a b c : string) : (a +:+ b) +:+ c = a +:+ (b +:+ c).
Proof.
  induction a as [|x a IH]; [reflexivity|].
  change (String x ((a +:+ b) +:+ c) = String x (a +:+ (b +:+ c))). now rewrite IH.
Qed.

Lemma append_inv_head (a x y : string) : a +:+ x = a +:+ y -> x = y.
Proof.
  induction a as [|c a IH]; [trivial|].
  change (String c (a +:+ x) = String c (a +:+ y) -> x = y).
  intros Heq. injection Heq as Heq. now apply IH.
Qed.

Lemma append_inv_tail (x y s : string) : x +:+ s = y +:+ s -> x = y.
Proof.
  revert y. induction x as [|c x IH]; intros [|d y] Heq.
  - reflexivity.
  - exfalso. apply (f_equal String.length) in Heq.
    change (String d y +:+ s) with (String d (y +:+ s)) in Heq.
    cbn [String.length] in Heq. rewrite !length_app in Heq.
    cbn [String.length] in Heq. lia.
  - exfalso. apply (f_equal String.length) in Heq.
    change (String c x +:+ s) with (String c (x +:+ s)) in Heq.
    cbn [String.length] in Heq. rewrite !length_app in Heq.
    cbn [String.length] in Heq. lia.
  - change (String c (x +:+ s) = String d (y +:+ s)) in Heq.
    injection Heq as -> Heq. f_equal. now apply IH.
Qed.

(** A map of one entry is written as an object of one member. *)
Lemma json_of_map_singleton {V} (f : V -> json) (k : string) (v : V) :
  json_of_map f {[ k := v ]} = JObject [(k, f v)].
Proof.
  unfold json_of_map. rewrite map_fmap_singleton, map_to_list_singleton. reflexivity.
Qed.

Lemma omitempty_map_singleton key (k : string) (v : any) :
  omitempty_map key {[ k := v ]} = [(key, JObject [(k, json_of_any v)])].
Proof.
  unfold omitempty_map.
  rewrite bool_decide_eq_false_2 by apply map_non_empty_singleton.
  now rewrite json_of_map_singleton.
Qed.

(** What [json.Marshal] writes for the invocation policy, character by
    character, string literals apart. *)
Lemma resourcePolicyDocument_text `{!JSONStrings} (clmServiceRoleARN sourceAccountID : string) :
  json_text (json_of_PolicyDocument
               (resourcePolicyDocument clmServiceRoleARN sourceAccountID))
  = "{" +:+ json_quote "Version" +:+ ":" +:+ json_quote "2012-10-17" +:+ ","
    +:+ json_quote "Statement" +:+ ":[{"
    +:+ json_quote "Effect" +:+ ":" +:+ json_quote "Allow" +:+ ","
    +:+ json_quote "Principal" +:+ ":{"
    +:+ json_quote "AWS" +:+ ":" +:+ json_quote clmServiceRoleARN +:+ "},"
    +:+ json_quote "Action" +:+ ":" +:+ json_quote "lambda:InvokeFunction" +:+ ","
    +:+ json_quote "Resource" +:+ ":" +:+ json_quote "*" +:+ ","
    +:+ json_quote "Condition" +:+ ":{" +:+ json_quote "StringEquals" +:+ ":{"
    +:+ json_quote "aws:SourceAccount" +:+ ":" +:+ json_quote sourceAccountID
    +:+ "}}}]}".
Proof.
  unfold resourcePolicyDocument, json_of_PolicyDocument, json_of_Statement.
  cbn [Version Statement_ Effect Principal Action Resource Condition fmap list_fmap].
  rewrite !omitempty_map_singleton.
  cbn [omitempty_any json_of_any app].
  rewrite json_of_map_singleton.
  cbn [json_text map join_comma fold_left fst snd].
  rewrite !append_assoc_r. reflexivity.
Qed.

(** C7.  [GenerateLambdaResourcePolicy] fails with a validation error when
    either argument is empty: "CLM service role ARN is required" when the
    first is, "source account ID is required" when only the second is.  When
    both are non-empty it succeeds, and the text it returns is, character by
    character (string literals being written by the JSON encoder), that of
    a document with one statement: its effect is [Allow], and its condition
    holds under [StringEquals] the one key [aws:SourceAccount], followed by
    the source account that was given.  The text says which account was
    given: with an encoder that writes different strings differently, two
    source accounts that yield the same policy are the same. *)
Theorem GenerateLambdaResourcePolicy_validates `{!JSONStrings}
    (x clmServiceRoleARN sourceAccountID : string) :
  GenerateLambdaResourcePolicy EmptyString x
  = Fault (errors_New "CLM service role ARN is required")
  /\ GenerateLambdaResourcePolicy x EmptyString
     = Fault (errors_New (if String.eqb x EmptyString
                          then "CLM service role ARN is required"
                          else "source account ID is required"))
  /\ (clmServiceRoleARN <> EmptyString ->
      sourceAccountID <> EmptyString ->
      GenerateLambdaResourcePolicy clmServiceRoleARN sourceAccountID
      = Reply
          ("{" +:+ json_quote "Version" +:+ ":" +:+ json_quote "2012-10-17" +:+ ","
           +:+ json_quote "Statement" +:+ ":[{"
           +:+ json_quote "Effect" +:+ ":" +:+ json_quote "Allow" +:+ ","
           +:+ json_quote "Principal" +:+ ":{"
           +:+ json_quote "AWS" +:+ ":" +:+ json_quote clmServiceRoleARN +:+ "},"
           +:+ json_quote "Action" +:+ ":" +:+ json_quote "lambda:InvokeFunction" +:+ ","
           +:+ json_quote "Resource" +:+ ":" +:+ json_quote "*" +:+ ","
           +:+ json_quote "Condition" +:+ ":{" +:+ json_quote "StringEquals" +:+ ":{"
           +:+ json_quote "aws:SourceAccount" +:+ ":" +:+ json_quote sourceAccountID
           +:+ "}}}]}")
      /\ ((forall a b, json_quote a = json_quote b -> a = b) ->
          forall other,
            other <> EmptyString ->
            GenerateLambdaResourcePolicy clmServiceRoleARN other
            = GenerateLambdaResourcePolicy clmServiceRoleARN sourceAccountID ->
            other = sourceAccountID)).
Proof.
  assert (Htext : forall clm acct,
             clm <> EmptyString -> acct <> EmptyString ->
             GenerateLambdaResourcePolicy clm acct
             = Reply (json_text (json_of_PolicyDocument (resourcePolicyDocument clm acct)))).
  { intros clm acct Hclm Hacct. unfold GenerateLambdaResourcePolicy.
    destruct (String.eqb_spec clm EmptyString); [contradiction|].
    destruct (String.eqb_spec acct EmptyString); [contradiction|].
    reflexivity. }
  split; [reflexivity|]. split.
  - unfold GenerateLambdaResourcePolicy. now destruct (String.eqb x EmptyString).
  - intros Hclm Hacct. split.
    + rewrite (Htext _ _ Hclm Hacct). f_equal. apply resourcePolicyDocument_text.
    + intros Hinj other Hother Hsame.
      rewrite (Htext _ _ Hclm Hother), (Htext _ _ Hclm Hacct) in Hsame.
      rewrite !resourcePolicyDocument_text in Hsame. injection Hsame as Hsame.
      repeat apply append_inv_head in Hsame.
      apply append_inv_tail in Hsame. now apply Hinj.
Qed.

(** The theorem at work on the arguments of
    [TestGenerateLambdaResourcePolicy]: the policy, as it is returned. *)
Lemma GenerateLambdaResourcePolicy_witness :
  mocks.clmRoleARN <> EmptyString
  /\ "123456789012" <> EmptyString
  /\ @GenerateLambdaResourcePolicy mocks.plain_JSONStrings mocks.clmRoleARN "123456789012"
     = Reply
         (mocks.json_literal
            ("{'Version':'2012-10-17','Statement':[{'Effect':'Allow',"
             +:+ "'Principal':{'AWS':'arn:aws:iam::123456789012:role/clm-role'},"
             +:+ "'Action':'lambda:InvokeFunction','Resource':'*',"
             +:+ "'Condition':{'StringEquals':{'aws:SourceAccount':'123456789012'}}}]}")).
Proof.
  split; [discriminate|]. split; [discriminate|].
  destruct (@GenerateLambdaResourcePolicy_validates mocks.plain_JSONStrings
              EmptyString mocks.clmRoleARN "123456789012") as (_ & _ & Hvalid).
  destruct Hvalid as [Htext _]; [discriminate | discriminate |].
  rewrite Htext. vm_compute. reflexivity.
Defined.

Section PackageFacts.
Context {W E : Type} `{!BuildHost W} `{!Libraries}.
Implicit Types s : state W E.

Lemma lift_Ok_inv {A} (r : reply A) s a s' :
  lift r s = (Ok a, s') -> r = Reply a /\ s' = s.
Proof. destruct r; simpl; intros Hrun; inversion Hrun; auto. Qed.

Lemma deferred_Ok_inv {A} cleanup (body : M W E A) s a s' :
  deferred cleanup body s = (Ok a, s') ->
  exists s1, body s = (Ok a, s1) /\ calls s' = calls s1.
Proof.
  unfold deferred. destruct (body s) as [r s1]. intros Hrun. inversion Hrun; subst.
  now exists s1.
Qed.

Lemma emits_lift {A} P (r : reply A) : emits P (lift r : M W E A).
Proof. destruct r; [apply emits_ret | apply emits_fail]. Qed.

Lemma emits_deferred {A} P cleanup (body : M W E A) :
  emits P body -> emits P (deferred cleanup body).
Proof.
  intros Hb s r s' Hrun. unfold deferred in Hrun.
  destruct (body s) as [r1 s1] eqn:Hbs. inversion Hrun; subst.
  destruct (Hb s _ s1 Hbs) as (evs & Hc & Hall). now exists evs.
Qed.

Lemma emits_compileBinary P pb outputPath :
  emits P (compileBinary pb outputPath : M W E unit).
Proof.
  intros s r s' Hrun. unfold compileBinary in Hrun.
  destruct (exec_Run _ _ (world s)) as [[[err|] stderr] w1].
  - inversion Hrun; subst. exists []. simpl. rewrite app_nil_r. now split.
  - revert Hrun.
    match goal with |- ?m ?s1 = _ -> _ =>
      assert (Hm : emits P m) by auto 10 with emits;
      intros Hrun; exact (Hm s1 r s' Hrun)
    end.
Qed.

Lemma emits_createZipPackage P pb binaryPath :
  emits P (createZipPackage pb binaryPath : M W E (list Byte.byte)).
Proof.
  unfold createZipPackage.
  auto 20 using emits_lift, emits_deferred with emits.
Qed.

(** The package builder makes no service call. *)
Lemma emits_Build P pb : emits P (Build pb : M W E (list Byte.byte * string)).
Proof.
  unfold Build.
  apply emits_bind; [auto with emits|]. intros tmpDir.
  apply emits_deferred.
  apply emits_bind; [apply emits_wrapping, emits_compileBinary|]. intros _.
  apply emits_bind; [apply emits_wrapping, emits_createZipPackage|]. intros zipData.
  destruct (maxPackageSize <? len zipData)%Z; auto with emits.
Qed.

Lemma Build_calls pb s r s' : Build pb s = (r, s') -> calls s' = calls s.
Proof.
  intros Hrun.
  destruct (emits_Build (fun _ => False) pb s r s' Hrun) as (evs & Hc & Hall).
  destruct evs as [|ev evs]; [now rewrite app_nil_r in Hc|].
  now apply Forall_cons in Hall.
Qed.

(** A successful [createZipPackage] returns the bytes of an archive with a
    single entry, named [bootstrap], deflated, with mode [0755]. *)
Lemma createZipPackage_Ok pb binaryPath s data s' :
  createZipPackage pb binaryPath s = (Ok data, s') ->
  exists header content,
    data = zip_bytes [(header, content)]
    /\ Name header = "bootstrap"
    /\ Method header = zip_Deflate
    /\ Mode header = mode_0755.
Proof.
  unfold createZipPackage. intros Hrun.
  apply bind_Ok_inv in Hrun as (file & s1 & _ & Hrun).
  apply deferred_Ok_inv in Hrun as (s2 & Hrun & _).
  apply bind_Ok_inv in Hrun as (fileInfo & s3 & _ & Hrun).
  apply bind_Ok_inv in Hrun as (header & s4 & _ & Hrun).
  apply bind_Ok_inv in Hrun as (? & s5 & _ & Hrun).
  apply bind_Ok_inv in Hrun as (content & s6 & _ & Hrun).
  apply bind_Ok_inv in Hrun as (? & s7 & _ & Hrun).
  inversion Hrun; subst.
  eexists _, content. split; [reflexivity|]. now repeat split.
Qed.

Lemma Build_Ok pb s zipData checksum s' :
  Build pb s = (Ok (zipData, checksum), s') ->
  (exists header content,
     zipData = zip_bytes [(header, content)]
     /\ Name header = "bootstrap"
     /\ Method header = zip_Deflate
     /\ Mode header = mode_0755)
  /\ (len zipData <= maxPackageSize)%Z
  /\ checksum = hex_string (sha256_Sum256 zipData).
Proof.
  unfold Build. intros Hrun.
  apply bind_Ok_inv in Hrun as (tmpDir & s1 & _ & Hrun).
  apply deferred_Ok_inv in Hrun as (s2 & Hrun & _).
  apply bind_Ok_inv in Hrun as (? & s3 & _ & Hrun).
  apply bind_Ok_inv in Hrun as (data & s4 & Hzip & Hrun).
  apply wrapping_Ok_inv, createZipPackage_Ok in Hzip.
  destruct (maxPackageSize <? len data)%Z eqn:Hsize; [discriminate|].
  inversion Hrun; subst. apply Z.ltb_ge in Hsize. auto.
Qed.

End PackageFacts.

(** C8.  The archive returned by a successful [Build] holds exactly one
    entry; the entry is named [bootstrap] and its mode in the archive
    metadata is [0755], so that the execute bits are set. *)
Theorem Build_single_executable_bootstrap_entry
    {W E : Type} `{!BuildHost W} `{!Libraries}
    (pb : PackageBuilder) (s s' : state W E)
    (zipData : list Byte.byte) (checksum : string) :
  Build pb s = (Ok (zipData, checksum), s') ->
  exists header content,
    zipData = zip_bytes [(header, content)]
    /\ Name header = "bootstrap"
    /\ Mode header = mode_0755
    /\ Z.land (Mode header) mode_0111 = mode_0111.
Proof.
  intros Hrun. apply Build_Ok in Hrun as ((header & content & Hz & Hn & _ & Hm) & _).
  exists header, content. repeat split; try assumption. now rewrite Hm.
Qed.

(** The theorem at work on the scripted build host. *)
Lemma Build_witness :
  let built :=
    @Build unit Call (mocks.scripted_BuildHost None mocks.binary) mocks.toy_Libraries
      (NewPackageBuilder "../functions/oidc-provisioner") mocks.start in
  built = (Ok (mocks.binary, "7f45"), mocks.start)
  /\ exists header content,
       mocks.binary = @zip_bytes mocks.toy_Libraries [(header, content)]
       /\ Name header = "bootstrap"
       /\ Mode header = mode_0755
       /\ Z.land (Mode header) mode_0111 = mode_0111.
Proof.
  intros built. split; [reflexivity|].
  apply (@Build_single_executable_bootstrap_entry unit Call
           (mocks.scripted_BuildHost None mocks.binary) mocks.toy_Libraries
           (NewPackageBuilder "../functions/oidc-provisioner")
           mocks.start mocks.start mocks.binary "7f45").
  reflexivity.
Defined.

(** ** The orchestrator, step by step *)

(** C10.  In the invocation-policy step the generated policy document goes
    nowhere.  With both identifiers configured, the step makes one call,
    [AddPermission], with the statement identifier [AllowCLMInvoke], the
    invoke action, the root of the source account as principal and the
    invoker role as source ARN; a conflict is taken for success and any
    other error is returned.  The step behaves the same whatever the JSON
    encoder writes into the document. *)
Theorem addResourcePolicy_registers_fixed_grant
    {W : Type} `{!LambdaAPI W} (cfg : DeploymentConfig) (s : state W Call) :
  (CLMServiceRoleARN cfg <> EmptyString ->
   SourceAccountID cfg <> EmptyString ->
   forall enc : JSONStrings,
     let input :=
       {| ap_FunctionName := FunctionName cfg;
          ap_StatementId := "AllowCLMInvoke";
          ap_Action := "lambda:InvokeFunction";
          ap_Principal := "arn:aws:iam::" +:+ SourceAccountID cfg +:+ ":root";
          ap_SourceArn := CLMServiceRoleARN cfg |} in
     addResourcePolicy cfg s
     = (match fst (AddPermission input (world s)) with
        | Reply _ => Ok tt
        | Fault err =>
          if errors_As err lambda_ResourceConflictException then Ok tt else Err err
        end,
        mkState (snd (AddPermission input (world s)))
                (calls s ++ [CallAddPermission input]) (stdout s)))
  /\ (forall enc1 enc2 : JSONStrings,
        @addResourcePolicy W _ enc1 cfg s = @addResourcePolicy W _ enc2 cfg s).
Proof.
  assert (Hrun : forall enc : JSONStrings,
            addResourcePolicy cfg s
            = if String.eqb (CLMServiceRoleARN cfg) EmptyString then
                (Err (errors_New "CLM service role ARN is required"), s)
              else if String.eqb (SourceAccountID cfg) EmptyString then
                (Err (errors_New "source account ID is required"), s)
              else
                (match fst (AddPermission (addPermissionInput cfg) (world s)) with
                 | Reply _ => Ok tt
                 | Fault err =>
                   if errors_As err lambda_ResourceConflictException
                   then Ok tt else Err err
                 end,
                 mkState (snd (AddPermission (addPermissionInput cfg) (world s)))
                         (calls s ++ [CallAddPermission (addPermissionInput cfg)])
                         (stdout s))).
  { intros enc. unfold addResourcePolicy, GenerateLambdaResourcePolicy, bind, try.
    destruct (String.eqb (CLMServiceRoleARN cfg) EmptyString); [reflexivity|].
    destruct (String.eqb (SourceAccountID cfg) EmptyString); [reflexivity|].
    simpl. rewrite invoke_eq.
    destruct (fst (AddPermission (addPermissionInput cfg) (world s))) as [[]|err];
      [reflexivity|].
    now destruct (errors_As err lambda_ResourceConflictException). }
  split.
  - intros Hclm Hacct enc input. rewrite Hrun.
    destruct (String.eqb_spec (CLMServiceRoleARN cfg) EmptyString); [contradiction|].
    destruct (String.eqb_spec (SourceAccountID cfg) EmptyString); [contradiction|].
    reflexivity.
  - intros enc1 enc2. now rewrite (Hrun enc1), (Hrun enc2).
Qed.

(** The theorem at work on the configuration of [TestAddResourcePolicy],
    against a client that reports a conflict. *)
Lemma addResourcePolicy_witness :
  let conflict := Exception lambda_ResourceConflictException "ResourceConflictException" in
  let lam :=
    mocks.mock_LambdaAPI
      {| mocks.createFunctionFunc := None;
         mocks.updateFunctionCodeFunc := None;
         mocks.updateFunctionConfigFunc := None;
         mocks.getFunctionFunc := None;
         mocks.addPermissionFunc := Some (fun _ => Fault conflict);
         mocks.tagResourceFunc := None |} in
  @addResourcePolicy unit lam mocks.plain_JSONStrings
    (mocks.config mocks.clmRoleARN "123456789012") mocks.start
  = (Ok tt,
     mkState tt
       [CallAddPermission
          {| ap_FunctionName := "test-function";
             ap_StatementId := "AllowCLMInvoke";
             ap_Action := "lambda:InvokeFunction";
             ap_Principal := "arn:aws:iam::123456789012:root";
             ap_SourceArn := mocks.clmRoleARN |}] []).
Proof.
  intros conflict lam.
  rewrite (proj1 (@addResourcePolicy_registers_fixed_grant unit lam
                    (mocks.config mocks.clmRoleARN "123456789012") mocks.start));
    [reflexivity | discriminate | discriminate].
Defined.

Section StepFacts.
Context {W : Type}.
Context `{!LambdaAPI W} `{!IAMAPI W} `{!CloudWatchLogsAPI W}.
Context `{!BuildHost W} `{!Libraries} `{!JSONStrings}.
Implicit Types s : state W Call.

(** Copying the tags entry by entry gives the same map. *)
Lemma copyTags_id (tags : gmap string string) : copyTags tags = tags.
Proof.
  unfold copyTags.
  apply (map_fold_weak_ind (fun acc m => acc = m)); [reflexivity|].
  intros k v m acc Hk ->. reflexivity.
Qed.

Lemma findLogGroup_absent logGroupName groups s :
  Forall (fun lg => exists n, LogGroupName lg = Some n /\ n <> logGroupName) groups ->
  findLogGroup logGroupName groups s = (Ok false, s).
Proof.
  induction 1 as [|lg groups (n & Hn & Hne) _ IH]; [reflexivity|].
  simpl. unfold bind. rewrite Hn. simpl.
  apply String.eqb_neq in Hne. now rewrite Hne.
Qed.

Lemma findLogGroup_present logGroupName groups s :
  Forall (fun lg => is_Some (LogGroupName lg)) groups ->
  In {| LogGroupName := Some logGroupName |} groups ->
  findLogGroup logGroupName groups s = (Ok true, s).
Proof.
  induction 1 as [|lg groups [n Hn] _ IH]; intros Hin; [destruct Hin|].
  simpl. unfold bind. rewrite Hn. simpl.
  destruct (String.eqb_spec n logGroupName) as [|Hne]; [reflexivity|].
  apply IH. destruct Hin as [-> | Hin]; [|assumption].
  simpl in Hn. congruence.
Qed.

Lemma findLogGroup_named logGroupName groups s :
  Forall (fun lg => is_Some (LogGroupName lg)) groups ->
  exists found, findLogGroup logGroupName groups s = (Ok found, s).
Proof.
  induction 1 as [|lg groups [n Hn] _ [found IH]]; [now exists false|].
  simpl. unfold bind. rewrite Hn. simpl.
  destruct (String.eqb n logGroupName); eauto.
Qed.

(** When the existence check finds the group, the step ends there: one
    call, the listing, and nothing else. *)
Lemma ensureLogGroup_existing cfg logGroupName s out :
  fst (DescribeLogGroups {| LogGroupNamePrefix := logGroupName |} (world s)) = Reply out ->
  Forall (fun lg => is_Some (LogGroupName lg)) (LogGroups out) ->
  In {| LogGroupName := Some logGroupName |} (LogGroups out) ->
  ensureLogGroup cfg logGroupName s
  = (Ok tt,
     mkState (snd (DescribeLogGroups {| LogGroupNamePrefix := logGroupName |} (world s)))
             (calls s ++ [CallDescribeLogGroups {| LogGroupNamePrefix := logGroupName |}])
             (stdout s)).
Proof.
  intros Hdesc Hnamed Hin. unfold ensureLogGroup, bind, try.
  rewrite invoke_eq, Hdesc.
  assert (Hlen : (0 <? length (LogGroups out))%nat = true).
  { destruct (LogGroups out); [destruct Hin | reflexivity]. }
  cbv beta iota. rewrite Hlen.
  now rewrite (findLogGroup_present logGroupName (LogGroups out) _ Hnamed Hin).
Qed.

Lemma tags_configured (tags : gmap string string) :
  (0 <? size tags)%nat = negb (bool_decide (tags = ∅)).
Proof.
  destruct (decide (tags = ∅)) as [-> | Hne].
  - reflexivity.
  - rewrite bool_decide_eq_false_2 by assumption. simpl.
    apply Nat.ltb_lt. apply map_size_non_empty_iff in Hne. lia.
Qed.

(** [ensureLogGroup] past the existence check. *)
Lemma createAndConfigureLogGroup_run cfg logGroupName s :
  let createInput := {| clg_LogGroupName := logGroupName |} in
  let retention := {| prt_LogGroupName := logGroupName; prt_RetentionInDays := 90 |} in
  let tagging := {| tlg_LogGroupName := logGroupName; tlg_Tags := Tags cfg |} in
  let w2 := snd (CreateLogGroup createInput (world s)) in
  creation_tolerated (fst (CreateLogGroup createInput (world s))) ->
  exists s',
    createAndConfigureLogGroup cfg logGroupName s
    = (match fst (PutRetentionPolicy retention w2) with
       | Reply _ => Ok tt
       | Fault e => Err (wrap "failed to set retention policy: " e)
       end, s')
    /\ calls s'
       = calls s
         ++ [CallCreateLogGroup createInput; CallPutRetentionPolicy retention]
         ++ match fst (PutRetentionPolicy retention w2) with
            | Reply _ =>
              if bool_decide (Tags cfg = ∅) then [] else [CallTagLogGroup tagging]
            | Fault _ => []
            end.
Proof.
  intros createInput retention tagging w2 Hcreated.
  set (s2 := mkState w2 (calls s ++ [CallCreateLogGroup createInput]) (stdout s)).
  assert (Hrest : forall (rest : M W Call unit),
            (created <-- try (invoke (CallCreateLogGroup createInput)
                                     (CreateLogGroup createInput)) ;;
             match created with
             | Fault err =>
               if negb (errors_As err logs_ResourceAlreadyExistsException)
               then fail (wrap "failed to create log group: " err)
               else ret tt
             | Reply _ => ret tt
             end ;;; rest)%go s = rest s2).
  { intros rest. unfold bind, try. rewrite invoke_eq. fold w2 s2.
    unfold creation_tolerated in Hcreated.
    destruct (fst (CreateLogGroup createInput (world s))) as [[]|e]; [reflexivity|].
    simpl. now rewrite Hcreated. }
  unfold createAndConfigureLogGroup. cbv zeta. fold createInput. rewrite Hrest.
  unfold bind at 1. unfold wrapping. rewrite invoke_eq.
  unfold retentionInput. fold retention. simpl world. simpl calls. simpl stdout.
  destruct (fst (PutRetentionPolicy retention w2)) as [[]|e].
  - rewrite tags_configured. unfold tagLogGroupInput. rewrite copyTags_id.
    fold tagging.
    destruct (bool_decide (Tags cfg = ∅)); simpl.
    + eexists. split; [reflexivity|]. simpl. now rewrite <- app_assoc.
    + unfold bind, try. rewrite invoke_eq. simpl.
      destruct (fst (TagLogGroup tagging (snd (PutRetentionPolicy retention w2))))
        as [[]|e]; simpl; eexists; (split; [reflexivity|]); simpl;
        now rewrite <- !app_assoc.
  - eexists. split; [reflexivity|]. simpl. now rewrite <- app_assoc.
Qed.

End StepFacts.

(** X20.  When the existence check of the ensure-log-group step finds no
    group of exactly the requested name, the step creates the group; when
    creation succeeds or reports that the group already exists, the 90-day
    retention policy is set; and when that succeeds and tags are
    configured, the tags are applied, a failure to apply them being
    ignored.  An error from setting the retention policy ends the step. *)
Theorem ensureLogGroup_configures_after_creation
    {W : Type} `{!CloudWatchLogsAPI W}
    (cfg : DeploymentConfig) (logGroupName : string) (s : state W Call) :
  let describeInput := {| LogGroupNamePrefix := logGroupName |} in
  let createInput := {| clg_LogGroupName := logGroupName |} in
  let retention := {| prt_LogGroupName := logGroupName; prt_RetentionInDays := 90 |} in
  let tagging := {| tlg_LogGroupName := logGroupName; tlg_Tags := Tags cfg |} in
  let w1 := snd (DescribeLogGroups describeInput (world s)) in
  let w2 := snd (CreateLogGroup createInput w1) in
  no_exact_match logGroupName (fst (DescribeLogGroups describeInput (world s))) ->
  creation_tolerated (fst (CreateLogGroup createInput w1)) ->
  exists s',
    ensureLogGroup cfg logGroupName s
    = (match fst (PutRetentionPolicy retention w2) with
       | Reply _ => Ok tt
       | Fault e => Err (wrap "failed to set retention policy: " e)
       end, s')
    /\ calls s'
       = calls s
         ++ [CallDescribeLogGroups describeInput;
             CallCreateLogGroup createInput;
             CallPutRetentionPolicy retention]
         ++ match fst (PutRetentionPolicy retention w2) with
            | Reply _ =>
              if bool_decide (Tags cfg = ∅) then [] else [CallTagLogGroup tagging]
            | Fault _ => []
            end.
Proof.
  intros describeInput createInput retention tagging w1 w2 Hnone Hcreated.
  set (s1 := mkState w1 (calls s ++ [CallDescribeLogGroups describeInput]) (stdout s)).
  destruct (createAndConfigureLogGroup_run cfg logGroupName s1 Hcreated)
    as (s' & Hrun & Hcalls).
  exists s'. split.
  - transitivity (createAndConfigureLogGroup cfg logGroupName s1); [|exact Hrun].
    unfold ensureLogGroup, bind, try. rewrite invoke_eq.
    fold describeInput w1 s1. unfold no_exact_match in Hnone.
    destruct (fst (DescribeLogGroups describeInput (world s))) as [out|e];
      [|reflexivity].
    destruct (0 <? length (LogGroups out))%nat; [|reflexivity].
    now rewrite findLogGroup_absent.
  - rewrite Hcalls. subst s1. simpl. now rewrite <- app_assoc.
Qed.

(** ** [Deploy] *)

Ltac emits_steps :=
  repeat first
    [ apply emits_ret | apply emits_fail | apply emits_panic | apply emits_deref
    | apply emits_Printf | apply emits_host | apply emits_lift
    | apply emits_wrapping | apply emits_try
    | apply emits_invoke; reflexivity
    | apply emits_bind; [|intros ?]
    | match goal with
      | |- emits _ (match ?x with _ => _ end) => destruct x
      end ].

Ltac panic_free_steps :=
  repeat first
    [ apply panic_free_ret | apply panic_free_fail | apply panic_free_Printf
    | apply panic_free_invoke | apply panic_free_wrapping | apply panic_free_try
    | apply panic_free_bind; [|intros ?]
    | match goal with
      | |- panic_free (match ?x with _ => _ end) => destruct x
      end ].

Section DeployFacts.
Context {W : Type}.
Context `{!LambdaAPI W} `{!IAMAPI W} `{!CloudWatchLogsAPI W}.
Context `{!BuildHost W} `{!Libraries} `{!JSONStrings}.
Implicit Types s : state W Call.

Local Abbreviation quiet := (fun c : Call => writes_function c = false).

Lemma emits_ensureExecutionRole cfg : emits quiet (ensureExecutionRole cfg).
Proof. unfold ensureExecutionRole. emits_steps. Qed.

Lemma emits_addResourcePolicy cfg : emits quiet (addResourcePolicy cfg).
Proof. unfold addResourcePolicy. emits_steps. Qed.

Lemma emits_findLogGroup logGroupName groups :
  emits quiet (findLogGroup logGroupName groups : M W Call bool).
Proof. induction groups; simpl; emits_steps. assumption. Qed.

Lemma emits_ensureLogGroup cfg logGroupName :
  emits quiet (ensureLogGroup cfg logGroupName).
Proof.
  unfold ensureLogGroup, createAndConfigureLogGroup. emits_steps.
  apply emits_findLogGroup.
Qed.

Lemma emits_tagFunction cfg functionARN : emits quiet (tagFunction cfg functionARN).
Proof. unfold tagFunction. emits_steps. Qed.

Lemma emits_warn what (m : M W Call unit) : emits quiet m -> emits quiet (warn what m).
Proof. intros Hm. unfold warn. emits_steps. assumption. Qed.

Lemma emits_auxiliarySteps cfg functionARN :
  emits quiet (auxiliarySteps cfg functionARN).
Proof.
  unfold auxiliarySteps.
  apply emits_bind; [|intros _; apply emits_bind; [|intros _]].
  - destruct (_ && _); [|apply emits_ret].
    apply emits_warn, emits_addResourcePolicy.
  - apply emits_warn, emits_ensureLogGroup.
  - destruct (0 <? size (Tags cfg))%nat; [|apply emits_ret].
    apply emits_warn, emits_tagFunction.
Qed.

Lemma panic_free_addResourcePolicy cfg : panic_free (addResourcePolicy cfg).
Proof.
  unfold addResourcePolicy, lift, GenerateLambdaResourcePolicy, json_Marshal.
  panic_free_steps.
Qed.

Lemma panic_free_tagFunction cfg functionARN : panic_free (tagFunction cfg functionARN).
Proof. unfold tagFunction. panic_free_steps. Qed.

Lemma panic_free_ensureLogGroup cfg logGroupName :
  log_groups_are_named -> panic_free (ensureLogGroup cfg logGroupName).
Proof.
  intros Hnamed s. unfold ensureLogGroup.
  set (describeInput := {| LogGroupNamePrefix := logGroupName |}).
  unfold bind at 1. unfold try. rewrite invoke_eq.
  specialize (Hnamed describeInput (world s)).
  set (s1 := mkState _ _ _).
  assert (Hrest : forall found, panic_free
            (if found : bool then ret tt
             else createAndConfigureLogGroup cfg logGroupName)).
  { intros [|]; unfold createAndConfigureLogGroup; panic_free_steps. }
  destruct (fst (DescribeLogGroups describeInput (world s))) as [out|e]; simpl.
  - destruct (0 <? length (LogGroups out))%nat.
    + destruct (findLogGroup_named logGroupName (LogGroups out) s1 (Hnamed out eq_refl))
        as [found Hfound].
      rewrite (bind_Ok _ _ s1 found s1 Hfound). apply Hrest.
    + apply (Hrest false).
  - apply (Hrest false).
Qed.

(** A warned step always comes back with [nil], unless it panics. *)
Lemma warn_Ok what (m : M W Call unit) s :
  fst (m s) <> Panic -> exists s', warn what m s = (Ok tt, s').
Proof.
  intros Hm. unfold warn, bind, try.
  destruct (m s) as [[[]|e|] s1]; simpl in *; [eauto | eauto | congruence].
Qed.

(** A warned step never returns an error. *)
Lemma error_free_warn what (m : M W Call unit) : error_free (warn what m).
Proof.
  intros s e. unfold warn, bind, try.
  destruct (m s) as [[[]|e'|] s1]; discriminate.
Qed.

Lemma error_free_auxiliarySteps cfg functionARN :
  error_free (auxiliarySteps cfg functionARN).
Proof.
  unfold auxiliarySteps.
  apply error_free_bind; [|intros _; apply error_free_bind; [|intros _]].
  - destruct (_ && _); [apply error_free_warn | apply error_free_ret].
  - apply error_free_warn.
  - destruct (0 <? size (Tags cfg))%nat; [apply error_free_warn | apply error_free_ret].
Qed.

(** With log groups that carry names, the auxiliary steps always complete,
    and none of their calls creates or updates the function. *)
Lemma auxiliarySteps_complete cfg functionARN s :
  log_groups_are_named ->
  exists s' evs,
    auxiliarySteps cfg functionARN s = (Ok tt, s')
    /\ calls s' = calls s ++ evs
    /\ Forall quiet evs.
Proof.
  intros Hnamed.
  assert (Hrun : exists s', auxiliarySteps cfg functionARN s = (Ok tt, s')).
  { unfold auxiliarySteps.
    assert (H1 : exists s1,
               (if negb (String.eqb (CLMServiceRoleARN cfg) EmptyString)
                   && negb (String.eqb (SourceAccountID cfg) EmptyString)
                then warn "failed to add resource policy: " (addResourcePolicy cfg)
                else ret tt) s = (Ok tt, s1)).
    { destruct (_ && _); [|now exists s].
      apply warn_Ok, panic_free_addResourcePolicy. }
    destruct H1 as [s1 H1]. rewrite (bind_Ok _ _ s tt s1 H1).
    destruct (warn_Ok "failed to ensure log group: "
                (ensureLogGroup cfg (logGroupNameOf cfg)) s1
                (panic_free_ensureLogGroup cfg _ Hnamed s1)) as [s2 H2].
    rewrite (bind_Ok _ _ s1 tt s2 H2).
    destruct (0 <? size (Tags cfg))%nat; [|now exists s2].
    apply warn_Ok, panic_free_tagFunction. }
  destruct Hrun as [s' Hrun]. exists s'.
  destruct (emits_auxiliarySteps cfg functionARN s _ s' Hrun) as (evs & Hc & Hall).
  eauto.
Qed.

(** [Deploy] once its first four steps are behind it. *)
Lemma Deploy_after_fourth_step cfg s0 roleARN s1 zipData checksum s2 found s3
    functionARN status s4 :
  ensureExecutionRole cfg s0 = (Ok roleARN, s1) ->
  Build (NewPackageBuilder (SourceDir cfg)) s1 = (Ok (zipData, checksum), s2) ->
  checkFunctionExists cfg s2 = (Ok found, s3) ->
  createOrUpdate cfg zipData roleARN found s3 = (Ok (functionARN, status), s4) ->
  Deploy cfg s0
  = (auxiliarySteps cfg functionARN ;;;
     ret (resultOf cfg roleARN zipData checksum functionARN status))%go s4.
Proof.
  intros Hrole Hbuild Hcheck Hfn. unfold Deploy.
  rewrite (bind_Ok _ _ s0 roleARN s1) by (now apply wrapping_Ok).
  cbv zeta.
  rewrite (bind_Ok _ _ s1 (zipData, checksum) s2) by (now apply wrapping_Ok).
  rewrite (bind_Ok _ _ s2 found s3) by (now apply wrapping_Ok).
  destruct found as [exists_ existingFunc].
  rewrite (bind_Ok _ _ s3 (functionARN, status) s4) by exact Hfn.
  unfold auxiliarySteps. rewrite bind_assoc.
  apply bind_ext. intros _ s5. now rewrite bind_assoc.
Qed.

(** With the first four steps done, [Deploy] completes and returns the
    result assembled from what those steps produced. *)
Lemma Deploy_completes cfg s0 roleARN s1 zipData checksum s2 found s3
    functionARN status s4 :
  ensureExecutionRole cfg s0 = (Ok roleARN, s1) ->
  Build (NewPackageBuilder (SourceDir cfg)) s1 = (Ok (zipData, checksum), s2) ->
  checkFunctionExists cfg s2 = (Ok found, s3) ->
  createOrUpdate cfg zipData roleARN found s3 = (Ok (functionARN, status), s4) ->
  log_groups_are_named ->
  exists s' before after,
    Deploy cfg s0
    = (Ok (resultOf cfg roleARN zipData checksum functionARN status), s')
    /\ calls s2 = calls s0 ++ before /\ Forall quiet before
    /\ calls s' = calls s4 ++ after /\ Forall quiet after.
Proof.
  intros Hrole Hbuild Hcheck Hfn Hnamed.
  destruct (auxiliarySteps_complete cfg functionARN s4 Hnamed)
    as (s' & after & Haux & Hafter & Hquiet).
  destruct (emits_ensureExecutionRole cfg s0 _ s1 Hrole) as (before & Hbefore & Hq).
  exists s', before, after.
  rewrite (Deploy_after_fourth_step cfg s0 roleARN s1 zipData checksum s2 found s3
             functionARN status s4) by assumption.
  rewrite (bind_Ok _ _ s4 tt s' Haux).
  rewrite (Build_calls _ s1 _ s2 Hbuild). auto.
Qed.

(** With the first four steps done, [Deploy] returns no error. *)
Lemma Deploy_past_errors cfg s0 roleARN s1 zipData checksum s2 found s3
    functionARN status s4 e :
  ensureExecutionRole cfg s0 = (Ok roleARN, s1) ->
  Build (NewPackageBuilder (SourceDir cfg)) s1 = (Ok (zipData, checksum), s2) ->
  checkFunctionExists cfg s2 = (Ok found, s3) ->
  createOrUpdate cfg zipData roleARN found s3 = (Ok (functionARN, status), s4) ->
  fst (Deploy cfg s0) <> Err e.
Proof.
  intros Hrole Hbuild Hcheck Hfn.
  rewrite (Deploy_after_fourth_step cfg s0 roleARN s1 zipData checksum s2 found s3
             functionARN status s4) by assumption.
  apply error_free_bind; [apply error_free_auxiliarySteps|].
  intros _. apply error_free_ret.
Qed.


End DeployFacts.


(** C2.  An error from one of the first four steps of [Deploy] (ensure the
    execution role, build the package, check whether the function exists,
    create or update the function) makes [Deploy] return that error, under a
    prefix that names the step, and no result.  Once those four steps have
    succeeded, [Deploy] returns no error, whatever the calls of the
    remaining steps (invocation policy, log group, function tags) answer,
    and, the listed log groups carrying names, it returns the complete
    result. *)
Theorem Deploy_failure_severity
    {W : Type} `{!LambdaAPI W} `{!IAMAPI W} `{!CloudWatchLogsAPI W}
    `{!BuildHost W} `{!Libraries} `{!JSONStrings}
    (cfg : DeploymentConfig) (s0 : state W Call) :
  (forall e s1,
     ensureExecutionRole cfg s0 = (Err e, s1) ->
     Deploy cfg s0 = (Err (wrap "failed to ensure execution role: " e), s1))
  /\ (forall roleARN s1,
        ensureExecutionRole cfg s0 = (Ok roleARN, s1) ->
        (forall e s2,
           Build (NewPackageBuilder (SourceDir cfg)) s1 = (Err e, s2) ->
           Deploy cfg s0 = (Err (wrap "failed to build Lambda package: " e), s2))
        /\ (forall zipData checksum s2,
              Build (NewPackageBuilder (SourceDir cfg)) s1
              = (Ok (zipData, checksum), s2) ->
              (forall e s3,
                 checkFunctionExists cfg s2 = (Err e, s3) ->
                 Deploy cfg s0
                 = (Err (wrap "failed to check if function exists: " e), s3))
              /\ (forall existingFunc s3 e s4,
                    checkFunctionExists cfg s2 = (Ok (false, existingFunc), s3) ->
                    createFunction cfg zipData roleARN s3 = (Err e, s4) ->
                    Deploy cfg s0 = (Err (wrap "failed to create function: " e), s4))
              /\ (forall arn s3 e s4,
                    checkFunctionExists cfg s2
                    = (Ok (true, Some {| Configuration :=
                                           Some {| FunctionArn := Some arn |} |}), s3) ->
                    updateFunction cfg zipData roleARN s3 = (Err e, s4) ->
                    Deploy cfg s0 = (Err (wrap "failed to update function: " e), s4))
              /\ (forall found s3 functionARN status s4,
                    checkFunctionExists cfg s2 = (Ok found, s3) ->
                    createOrUpdate cfg zipData roleARN found s3
                    = (Ok (functionARN, status), s4) ->
                    (forall e, fst (Deploy cfg s0) <> Err e)
                    /\ (log_groups_are_named ->
                        exists s',
                          Deploy cfg s0
                          = (Ok {| res_FunctionARN := functionARN;
                                   res_FunctionName := FunctionName cfg;
                                   res_ExecutionRole := roleARN;
                                   res_LogGroupName :=
                                     "/aws/lambda/" +:+ FunctionName cfg;
                                   res_Status := status;
                                   res_PackageSize := Z.of_nat (length zipData);
                                   res_PackageChecksum := checksum |}, s'))))).
Proof.
  split.
  { intros e s1 Hrole. unfold Deploy. apply bind_Err. now apply wrapping_Err. }
  intros roleARN s1 Hrole.
  assert (Hstep1 : forall k : string -> M W Call DeploymentResult,
            (roleARN <-- wrapping "failed to ensure execution role: "
                           (ensureExecutionRole cfg) ;; k roleARN)%go s0
            = k roleARN s1).
  { intros k. apply bind_Ok. now apply wrapping_Ok. }
  split.
  { intros e s2 Hbuild. unfold Deploy. rewrite Hstep1. cbv zeta.
    apply bind_Err. now apply wrapping_Err. }
  intros zipData checksum s2 Hbuild.
  assert (Hstep2 : forall k : list Byte.byte * string -> M W Call DeploymentResult,
            (built <-- wrapping "failed to build Lambda package: "
                         (Build (NewPackageBuilder (SourceDir cfg))) ;; k built)%go s1
            = k (zipData, checksum) s2).
  { intros k. apply bind_Ok. now apply wrapping_Ok. }
  split; [|split; [|split]].
  - intros e s3 Hcheck. unfold Deploy. rewrite Hstep1. cbv zeta. rewrite Hstep2.
    apply bind_Err. now apply wrapping_Err.
  - intros existingFunc s3 e s4 Hcheck Hcreate.
    unfold Deploy. rewrite Hstep1. cbv zeta. rewrite Hstep2.
    rewrite (bind_Ok _ _ s2 (false, existingFunc) s3) by (now apply wrapping_Ok).
    apply bind_Err. apply bind_Err. now apply wrapping_Err.
  - intros arn s3 e s4 Hcheck Hupdate.
    unfold Deploy. rewrite Hstep1. cbv zeta. rewrite Hstep2.
    rewrite (bind_Ok _ _ s2 _ s3) by (apply wrapping_Ok; exact Hcheck).
    apply bind_Err. unfold deref, ret.
    do 3 (rewrite (bind_Ok _ _ s3 _ s3) by reflexivity).
    apply bind_Err. now apply wrapping_Err.
  - intros found s3 functionARN status s4 Hcheck Hfn. split.
    { intros e. now apply (Deploy_past_errors cfg s0 roleARN s1 zipData checksum s2
                             found s3 functionARN status s4). }
    intros Hnamed.
    destruct (Deploy_completes cfg s0 roleARN s1 zipData checksum s2 found s3
                functionARN status s4 Hrole Hbuild Hcheck Hfn Hnamed)
      as (s' & _ & _ & Hrun & _).
    exists s'. exact Hrun.
Qed.

Lemma mock_logs_are_named groups failing :
  @log_groups_are_named unit (mocks.mock_CloudWatchLogsAPI (mocks.logs groups failing)).
Proof.
  intros input w out Hout. simpl in Hout. inversion Hout; subst. simpl.
  apply Forall_fmap, Forall_true. intros n. now exists n.
Qed.


(** C2 at work: one run for each step that can fail, and one in which the
    first four steps succeed and every call of the remaining steps fails. *)
Lemma Deploy_failure_severity_witness :
  let cfg := mocks.config mocks.clmRoleARN "123456789012" in
  let good := mocks.newFunctionLambda false in
  let quietLogs := mocks.logs [] false in
  fst (mocks.runDeploy mocks.unreachableRole good quietLogs None cfg)
  = Err (wrap "failed to ensure execution role: "
           (wrap "failed to check if role exists: " mocks.refusal))
  /\ fst (mocks.runDeploy mocks.existingRole good quietLogs (Some mocks.refusal) cfg)
     = Err (wrap "failed to build Lambda package: "
              (wrap "failed to compile binary: "
                 (Errorf "compilation failed: " mocks.refusal ", stderr: ")))
  /\ fst (mocks.runDeploy mocks.existingRole mocks.brokenLookupLambda quietLogs None cfg)
     = Err (wrap "failed to check if function exists: " mocks.refusal)
  /\ fst (mocks.runDeploy mocks.existingRole mocks.brokenCreateLambda quietLogs None cfg)
     = Err (wrap "failed to create function: " mocks.refusal)
  /\ fst (mocks.runDeploy mocks.existingRole mocks.brokenUpdateLambda quietLogs None cfg)
     = Err (wrap "failed to update function: "
              (wrap "failed to update function code: " mocks.refusal))
  /\ fst (mocks.runDeploy mocks.existingRole (mocks.existingFunctionLambda true)
            (mocks.logs [] true) None cfg)
     = Ok (mocks.deployed "updated").
Proof.
  intros cfg good quietLogs.
  pose (severity := fun role lam cw compiled =>
          @Deploy_failure_severity unit
            (mocks.mock_LambdaAPI lam) (mocks.mock_RoleAPI role)
            (mocks.mock_CloudWatchLogsAPI cw)
            (mocks.scripted_BuildHost compiled mocks.binary)
            mocks.toy_Libraries mocks.plain_JSONStrings cfg mocks.start).
  pose (s1 := mocks.logged [mocks.roleLookup]).
  pose (s3 := mocks.logged [mocks.roleLookup; mocks.functionLookup]).
  split; [|split; [|split; [|split; [|split]]]]; unfold mocks.runDeploy.
  - destruct (severity mocks.unreachableRole good quietLogs None) as [Hrole _].
    now rewrite (Hrole (wrap "failed to check if role exists: " mocks.refusal) s1
                   eq_refl).
  - destruct (severity mocks.existingRole good quietLogs (Some mocks.refusal))
      as [_ Hrest].
    destruct (Hrest mocks.roleARN s1 eq_refl) as [Hbuild _].
    now rewrite (Hbuild (wrap "failed to compile binary: "
                           (Errorf "compilation failed: " mocks.refusal ", stderr: "))
                   s1 eq_refl).
  - destruct (severity mocks.existingRole mocks.brokenLookupLambda quietLogs None)
      as [_ Hrest].
    destruct (Hrest mocks.roleARN s1 eq_refl) as [_ Hrest2].
    destruct (Hrest2 mocks.binary "7f45" s1 eq_refl) as [Hcheck _].
    now rewrite (Hcheck mocks.refusal s3 eq_refl).
  - destruct (severity mocks.existingRole mocks.brokenCreateLambda quietLogs None)
      as [_ Hrest].
    destruct (Hrest mocks.roleARN s1 eq_refl) as [_ Hrest2].
    destruct (Hrest2 mocks.binary "7f45" s1 eq_refl) as (_ & Hcreate & _).
    now rewrite (Hcreate None s3 mocks.refusal
                   (mocks.logged
                      [mocks.roleLookup; mocks.functionLookup;
                       CallCreateFunction
                         (createFunctionInput cfg mocks.binary mocks.roleARN)])
                   eq_refl eq_refl).
  - destruct (severity mocks.existingRole mocks.brokenUpdateLambda quietLogs None)
      as [_ Hrest].
    destruct (Hrest mocks.roleARN s1 eq_refl) as [_ Hrest2].
    destruct (Hrest2 mocks.binary "7f45" s1 eq_refl) as (_ & _ & Hupdate & _).
    now rewrite (Hupdate mocks.functionARN s3
                   (wrap "failed to update function code: " mocks.refusal)
                   (mocks.logged
                      [mocks.roleLookup; mocks.functionLookup;
                       CallUpdateFunctionCode (updateCodeInput cfg mocks.binary)])
                   eq_refl eq_refl).
  - destruct (severity mocks.existingRole (mocks.existingFunctionLambda true)
                (mocks.logs [] true) None) as [_ Hrest].
    destruct (Hrest mocks.roleARN s1 eq_refl) as [_ Hrest2].
    destruct (Hrest2 mocks.binary "7f45" s1 eq_refl) as (_ & _ & _ & Hdone).
    destruct (proj2 (Hdone (true, Some mocks.existingFunction) s3
                       mocks.functionARN "updated"
                       (mocks.logged
                          [mocks.roleLookup; mocks.functionLookup;
                           CallUpdateFunctionCode (updateCodeInput cfg mocks.binary);
                           CallUpdateFunctionConfiguration
                             (updateConfigurationInput cfg mocks.roleARN)])
                       eq_refl eq_refl)
                (mock_logs_are_named _ _)) as [s' Hrun].
    rewrite Hrun. reflexivity.
Defined.

(** X20 at work: no log group is listed, and the step creates one, sets its
    retention and tags it. *)
Lemma ensureLogGroup_witness :
  let name := "/aws/lambda/test-function" in
  calls (snd (@ensureLogGroup unit
                (mocks.mock_CloudWatchLogsAPI (mocks.logs [] false))
                (mocks.config EmptyString EmptyString) name mocks.start))
  = [CallDescribeLogGroups {| LogGroupNamePrefix := name |};
     CallCreateLogGroup {| clg_LogGroupName := name |};
     CallPutRetentionPolicy {| prt_LogGroupName := name; prt_RetentionInDays := 90 |};
     CallTagLogGroup {| tlg_LogGroupName := name;
                        tlg_Tags := {[ "Environment" := "test" ]} |}].
Proof.
  intros name.
  destruct (@ensureLogGroup_configures_after_creation unit
              (mocks.mock_CloudWatchLogsAPI (mocks.logs [] false))
              (mocks.config EmptyString EmptyString) name mocks.start)
    as (s' & Hrun & Hcalls).
  - simpl. constructor.
  - exact I.
  - rewrite Hrun. simpl snd. rewrite Hcalls. reflexivity.
Defined.

(** C4 at the failing input.  The log group of the function is listed
    under its exact name: the step returns right after the listing, so that
    the retention policy is not set and no tag is applied.  When instead
    the listing does not show the group and the creation answers that the
    group already exists, the same step goes on to set the 90-day retention
    policy and to apply the tags.  So the retention policy is not set on
    every run on which the log group already existed. *)
Lemma ensureLogGroup_skips_retention_on_exact_match :
  let name := "/aws/lambda/test-function" in
  let cfg := mocks.config EmptyString EmptyString in
  @ensureLogGroup unit (mocks.mock_CloudWatchLogsAPI (mocks.logs [name] false))
    cfg name mocks.start
  = (Ok tt, mocks.logged [CallDescribeLogGroups {| LogGroupNamePrefix := name |}])
  /\ (fst (@ensureLogGroup unit (mocks.mock_CloudWatchLogsAPI mocks.unlistedLogGroup)
             cfg name mocks.start) = Ok tt
      /\ calls (snd (@ensureLogGroup unit
                       (mocks.mock_CloudWatchLogsAPI mocks.unlistedLogGroup)
                       cfg name mocks.start))
         = [CallDescribeLogGroups {| LogGroupNamePrefix := name |};
            CallCreateLogGroup {| clg_LogGroupName := name |};
            CallPutRetentionPolicy
              {| prt_LogGroupName := name; prt_RetentionInDays := 90 |};
            CallTagLogGroup {| tlg_LogGroupName := name;
                               tlg_Tags := {[ "Environment" := "test" ]} |}])
  /\ ~ retention_set_when_group_exists.
Proof.
  intros name cfg.
  pose (out := {| LogGroups := [ {| LogGroupName := Some name |} ] |}).
  assert (Hnamed : Forall (fun lg => is_Some (LogGroupName lg)) (LogGroups out)).
  { repeat constructor. now exists name. }
  assert (Hin : In {| LogGroupName := Some name |} (LogGroups out)) by now left.
  pose proof (@ensureLogGroup_existing unit
                (mocks.mock_CloudWatchLogsAPI (mocks.logs [name] false))
                cfg name mocks.start out eq_refl Hnamed Hin) as Hskip.
  split; [exact Hskip|]. split.
  - assert (Hrun : exists s',
               @createAndConfigureLogGroup unit
                 (mocks.mock_CloudWatchLogsAPI mocks.unlistedLogGroup) cfg name
                 (mocks.logged [CallDescribeLogGroups {| LogGroupNamePrefix := name |}])
               = (Ok tt, s')
               /\ calls s'
                  = [CallDescribeLogGroups {| LogGroupNamePrefix := name |};
                     CallCreateLogGroup {| clg_LogGroupName := name |};
                     CallPutRetentionPolicy
                       {| prt_LogGroupName := name; prt_RetentionInDays := 90 |};
                     CallTagLogGroup {| tlg_LogGroupName := name;
                                        tlg_Tags := {[ "Environment" := "test" ]} |}]).
    { destruct (@createAndConfigureLogGroup_run unit
                  (mocks.mock_CloudWatchLogsAPI mocks.unlistedLogGroup) cfg name
                  (mocks.logged [CallDescribeLogGroups {| LogGroupNamePrefix := name |}]))
        as (s' & Hrun & Hcalls); [reflexivity|].
      exists s'. split; [exact Hrun | exact Hcalls]. }
    destruct Hrun as (s' & Hrun & Hcalls).
    change (@ensureLogGroup unit (mocks.mock_CloudWatchLogsAPI mocks.unlistedLogGroup)
              cfg name mocks.start)
      with (@createAndConfigureLogGroup unit
              (mocks.mock_CloudWatchLogsAPI mocks.unlistedLogGroup) cfg name
              (mocks.logged [CallDescribeLogGroups {| LogGroupNamePrefix := name |}])).
    rewrite Hrun. split; [reflexivity | exact Hcalls].
  - intros claim.
    specialize (claim unit (mocks.mock_CloudWatchLogsAPI (mocks.logs [name] false))
                  cfg name mocks.start out eq_refl Hnamed Hin).
    rewrite Hskip in claim.
    simpl in claim. destruct claim as [Hcall | []]. discriminate.
Qed.

End DeployerSpec.

(** ** The reconciliation handler: paths and calls *)

Module HandlerPaths.
Import Go GoFacts provisioner ProvisionerSpec.
Local Open Scope go_scope.

Section Paths.
Context {W : Type} `{!IAMAPI W} `{!NetURL}.
Implicit Types s : state W Call.

(** A request that passes validation names its cluster. *)
Lemma validateRequest_ClusterID req :
  validateRequest req = None -> String.eqb (ClusterID req) EmptyString = false.
Proof.
  unfold validateRequest.
  destruct (String.eqb (IssuerURL req) EmptyString); [discriminate|].
  destruct (url_Parse (IssuerURL req)) as [u|e]; [|discriminate].
  destruct (negb (String.eqb (Scheme u) "https")); [discriminate|].
  destruct (String.eqb (Host u) EmptyString); [discriminate|].
  destruct (String.eqb (Thumbprint req) EmptyString); [discriminate|].
  destruct (String.eqb (ClusterID req) EmptyString); [discriminate|reflexivity].
Qed.

Lemma providerTags_named clusterID :
  String.eqb clusterID EmptyString = false ->
  providerTags clusterID
  = [ {| Key := tagComponentKey; Value := tagComponentValue |};
      {| Key := tagClusterKey; Value := clusterID |} ].
Proof. intros Hne. unfold providerTags. now rewrite Hne. Qed.

Lemma createProviderInput_eq req :
  createProviderInput req
  = {| create_Url := TrimSuffix (IssuerURL req) "/";
       create_ThumbprintList := [Thumbprint req];
       create_ClientIDList :=
         match ClientIDs req with
         | [] => ["openshift"; "sts.amazonaws.com"]
         | _ :: _ => ClientIDs req
         end |}.
Proof. unfold createProviderInput. now destruct (ClientIDs req). Qed.

Lemma createProvider_eq req s :
  createProvider req s
  = match fst (CreateOpenIDConnectProvider (createProviderInput req) (world s)) with
    | Reply output =>
      deref (created_OpenIDConnectProviderArn output)
        (mkState (snd (CreateOpenIDConnectProvider (createProviderInput req) (world s)))
                 (calls s ++ [CallCreateOpenIDConnectProvider (createProviderInput req)])
                 (stdout s))
    | Fault e =>
      (Err e,
       mkState (snd (CreateOpenIDConnectProvider (createProviderInput req) (world s)))
               (calls s ++ [CallCreateOpenIDConnectProvider (createProviderInput req)])
               (stdout s))
    end.
Proof.
  unfold createProvider, bind. rewrite invoke_eq.
  destruct (fst (CreateOpenIDConnectProvider _ (world s))); reflexivity.
Qed.

(** The existence search when no listed provider matches. *)
Lemma checkProviderExists_none issuerURL providers s :
  fst (ListOpenIDConnectProviders (world s))
  = Reply {| OpenIDConnectProviderList := providers |} ->
  Forall (passed_over (TrimSuffix issuerURL "/")) providers ->
  exists s1,
    checkProviderExists issuerURL s = (Ok (EmptyString, false), s1)
    /\ calls s1 = calls s ++ [CallListOpenIDConnectProviders]
                  ++ (CallGetOpenIDConnectProvider ∘ getInputOf <$> providers)
    /\ stdout s1 = stdout s.
Proof.
  intros Hlist Hpassed. rewrite checkProviderExists_eq, Hlist. cbn [OpenIDConnectProviderList].
  destruct (scanProviders_passes_over (TrimSuffix issuerURL "/") providers []
              (mkState (snd (ListOpenIDConnectProviders (world s)))
                       (calls s ++ [CallListOpenIDConnectProviders]) (stdout s)) Hpassed)
    as (s1 & Hscan & Hcalls & Hout).
  exists s1. rewrite app_nil_r in Hscan. rewrite Hscan. split; [reflexivity|].
  split; [|exact Hout]. rewrite Hcalls. cbn [calls]. now rewrite <- app_assoc.
Qed.

Lemma Handle_invalid req s err :
  validateRequest req = Some err ->
  Handle req s = (Err (wrap "invalid request: " err), s).
Proof.
  intros Hinvalid. unfold Handle. rewrite Hinvalid.
  apply bind_Err. now apply wrapping_Err.
Qed.

(** What the steps of the handler log. *)
Lemma emits_scanProviders (P : Call -> Prop) key providers :
  (forall input, P (CallGetOpenIDConnectProvider input)) ->
  emits P (scanProviders key providers : M W Call (string * bool)).
Proof.
  intros HP. induction providers as [|p rest IH]; simpl.
  - apply emits_ret.
  - apply emits_bind.
    + apply emits_try, emits_invoke, HP.
    + intros [out|e]; [|exact IH].
      destruct (get_Url out) as [url|]; [|exact IH].
      destruct (String.eqb (TrimSuffix url "/") key); [|exact IH].
      apply emits_bind; [apply emits_deref|]. intros arn. apply emits_ret.
Qed.

Lemma emits_checkProviderExists (P : Call -> Prop) issuerURL :
  P CallListOpenIDConnectProviders ->
  (forall input, P (CallGetOpenIDConnectProvider input)) ->
  emits P (checkProviderExists issuerURL : M W Call (string * bool)).
Proof.
  intros Hlist Hget. unfold checkProviderExists. apply emits_bind.
  - now apply emits_invoke.
  - intros output. now apply emits_scanProviders.
Qed.

End Paths.

(** X1.  A request that fails validation is answered with the validation
    error behind the prefix "invalid request: ", and the handler leaves the
    account alone: it makes no call and prints nothing. *)
Theorem Handle_rejects_before_any_call
    {W : Type} `{!IAMAPI W} `{!NetURL}
    (req : OIDCProvisionerRequest) (s0 : state W Call) (err : error) :
  validateRequest req = Some err ->
  Handle req s0 = (Err (wrap "invalid request: " err), s0).
Proof. apply Handle_invalid. Qed.

Lemma Handle_rejects_witness :
  @Handle unit (mocks.mock_IAMAPI (mocks.noProvider "arn:new" (Reply tt)))
    mocks.sample_NetURL (mocks.request "http://example.com") mocks.start
  = (Err (wrap "invalid request: " (errors_New "issuer_url must use https scheme")),
     mocks.start).
Proof.
  apply (@Handle_rejects_before_any_call unit
           (mocks.mock_IAMAPI (mocks.noProvider "arn:new" (Reply tt)))
           mocks.sample_NetURL (mocks.request "http://example.com") mocks.start
           (errors_New "issuer_url must use https scheme")).
  reflexivity.
Defined.

(** X2.  When the listing of the account's providers fails, the handler
    stops with that error behind the prefix "failed to check if provider
    exists: ".  The listing is the only call it has made: nothing is
    fetched, created or tagged. *)
Theorem Handle_listing_failure_is_fatal
    {W : Type} `{!IAMAPI W} `{!NetURL}
    (req : OIDCProvisionerRequest) (s0 : state W Call) (err : error) :
  validateRequest req = None ->
  fst (ListOpenIDConnectProviders (world s0)) = Fault err ->
  Handle req s0
  = (Err (wrap "failed to check if provider exists: " err),
     mkState (snd (ListOpenIDConnectProviders (world s0)))
             (calls s0 ++ [CallListOpenIDConnectProviders]) (stdout s0)).
Proof.
  intros Hvalid Hlist. unfold Handle. rewrite Hvalid.
  rewrite (bind_Ok _ _ s0 tt s0) by reflexivity.
  apply bind_Err, wrapping_Err. now rewrite checkProviderExists_eq, Hlist.
Qed.

Lemma Handle_listing_failure_witness :
  @Handle unit (mocks.mock_IAMAPI (mocks.unlistable mocks.refusal))
    mocks.sample_NetURL (mocks.request "https://example.com") mocks.start
  = (Err (wrap "failed to check if provider exists: " mocks.refusal),
     mkState tt [CallListOpenIDConnectProviders] []).
Proof.
  apply (@Handle_listing_failure_is_fatal unit
           (mocks.mock_IAMAPI (mocks.unlistable mocks.refusal))
           mocks.sample_NetURL (mocks.request "https://example.com") mocks.start
           mocks.refusal); reflexivity.
Defined.

(** X3.  When the request is valid and no listed provider matches, the
    handler creates a provider and answers "created" with the identifier the
    service returned, whether or not the tagging that follows succeeds.  The
    provider is created under the issuer URL less one trailing separator,
    with the request's thumbprint as only thumbprint, and with the request's
    client identifiers, or "openshift" and "sts.amazonaws.com" when the
    request has none.  The calls are, in order: the listing, one detail fetch
    for each listed provider, the creation, the tagging.  A tagging failure
    only prints a warning. *)
Theorem Handle_creates_when_nothing_matches
    {W : Type} `{!IAMAPI W} `{!NetURL}
    (req : OIDCProvisionerRequest) (s0 : state W Call)
    (providers : list OpenIDConnectProviderListEntry) (arn : string)
    (tagging : reply unit) :
  let input :=
    {| create_Url := TrimSuffix (IssuerURL req) "/";
       create_ThumbprintList := [Thumbprint req];
       create_ClientIDList :=
         match ClientIDs req with
         | [] => ["openshift"; "sts.amazonaws.com"]
         | _ :: _ => ClientIDs req
         end |} in
  let tags :=
    {| tag_OpenIDConnectProviderArn := arn;
       tag_Tags := [ {| Key := "rosa:component"; Value := "oidc-provider" |};
                     {| Key := "rosa:cluster-id"; Value := ClusterID req |} ] |} in
  validateRequest req = None ->
  (forall w, fst (ListOpenIDConnectProviders w)
             = Reply {| OpenIDConnectProviderList := providers |}) ->
  Forall (passed_over (TrimSuffix (TrimSuffix (IssuerURL req) "/") "/")) providers ->
  (forall w, fst (CreateOpenIDConnectProvider input w)
             = Reply {| created_OpenIDConnectProviderArn := Some arn |}) ->
  (forall w, fst (TagOpenIDConnectProvider tags w) = tagging) ->
  exists s',
    Handle req s0
    = (Ok {| OIDCProviderARN := arn;
             Status := "created";
             Message := "OIDC provider created successfully" |}, s')
    /\ calls s'
       = calls s0 ++ [CallListOpenIDConnectProviders]
         ++ (CallGetOpenIDConnectProvider ∘ getInputOf <$> providers)
         ++ [CallCreateOpenIDConnectProvider input; CallTagOpenIDConnectProvider tags]
    /\ stdout s'
       = stdout s0
         ++ match tagging with
            | Reply _ => []
            | Fault e => ["Warning: failed to tag provider: " +:+ Error e +:+ newline]
            end.
Proof.
  intros input tags Hvalid Hlist Hpassed Hcreate Htag.
  destruct (checkProviderExists_none (TrimSuffix (IssuerURL req) "/") providers s0
              (Hlist _) Hpassed) as (s1 & Hsearch & Hcalls1 & Hout1).
  rewrite (Handle_after_search req s0 _ s1 Hvalid Hsearch). cbn [snd fst].
  pose proof (createProvider_eq req s1) as Hcp.
  rewrite createProviderInput_eq in Hcp. fold input in Hcp.
  rewrite Hcreate in Hcp. cbn [created_OpenIDConnectProviderArn deref] in Hcp.
  unfold ret in Hcp at 1.
  rewrite (bind_Ok _ _ s1 arn _ (wrapping_Ok _ _ _ _ _ Hcp)).
  pose proof (tagProvider_eq arn (ClusterID req)
                (mkState (snd (CreateOpenIDConnectProvider input (world s1)))
                         (calls s1 ++ [CallCreateOpenIDConnectProvider input])
                         (stdout s1))) as Htp.
  cbv zeta in Htp.
  rewrite (providerTags_named _ (validateRequest_ClusterID req Hvalid)) in Htp.
  fold tags in Htp. cbn [world calls stdout] in Htp. rewrite Htag in Htp.
  destruct tagging as [[]|e].
  - rewrite (bind_Ok _ _ _ _ _ (try_Ok _ _ _ _ Htp)).
    eexists. split; [reflexivity|]. cbn [calls stdout]. split.
    + rewrite Hcalls1. now rewrite <- !app_assoc.
    + now rewrite Hout1, app_nil_r.
  - rewrite (bind_Ok _ _ _ _ _ (try_Err _ _ _ _ Htp)).
    eexists. split; [reflexivity|]. cbn [calls stdout]. split.
    + rewrite Hcalls1. now rewrite <- !app_assoc.
    + now rewrite Hout1.
Qed.

Lemma Handle_creates_witness :
  exists s',
    @Handle unit
      (mocks.mock_IAMAPI
         (mocks.oneProvider "arn:existing" "https://other.example.com" "arn:new"
            (Fault mocks.refusal)))
      mocks.sample_NetURL (mocks.request "https://example.com") mocks.start
    = (Ok {| OIDCProviderARN := "arn:new";
             Status := "created";
             Message := "OIDC provider created successfully" |}, s')
    /\ calls s'
       = [ CallListOpenIDConnectProviders;
           CallGetOpenIDConnectProvider
             {| get_OpenIDConnectProviderArn := Some "arn:existing" |};
           CallCreateOpenIDConnectProvider
             {| create_Url := "https://example.com";
                create_ThumbprintList := ["abc123"];
                create_ClientIDList := ["openshift"; "sts.amazonaws.com"] |};
           CallTagOpenIDConnectProvider
             {| tag_OpenIDConnectProviderArn := "arn:new";
                tag_Tags := [ {| Key := "rosa:component"; Value := "oidc-provider" |};
                              {| Key := "rosa:cluster-id"; Value := "test-cluster" |} ] |} ]
    /\ stdout s' = ["Warning: failed to tag provider: unexpected error" +:+ newline].
Proof.
  apply (@Handle_creates_when_nothing_matches unit
           (mocks.mock_IAMAPI
              (mocks.oneProvider "arn:existing" "https://other.example.com" "arn:new"
                 (Fault mocks.refusal)))
           mocks.sample_NetURL (mocks.request "https://example.com") mocks.start
           [ {| entry_Arn := Some "arn:existing" |} ] "arn:new" (Fault mocks.refusal));
    try reflexivity.
  constructor; [|constructor]. intros []. vm_compute. discriminate.
Defined.

(** X4.  When the request is valid, no listed provider matches and the
    creation fails, the handler stops with that error behind the prefix
    "failed to create OIDC provider: ", and it tags nothing: the calls are
    the listing, the detail fetches and the one creation attempt. *)
Theorem Handle_creation_failure_is_fatal
    {W : Type} `{!IAMAPI W} `{!NetURL}
    (req : OIDCProvisionerRequest) (s0 : state W Call)
    (providers : list OpenIDConnectProviderListEntry) (err : error) :
  validateRequest req = None ->
  (forall w, fst (ListOpenIDConnectProviders w)
             = Reply {| OpenIDConnectProviderList := providers |}) ->
  Forall (passed_over (TrimSuffix (TrimSuffix (IssuerURL req) "/") "/")) providers ->
  (forall w, fst (CreateOpenIDConnectProvider (createProviderInput req) w) = Fault err) ->
  exists s',
    Handle req s0 = (Err (wrap "failed to create OIDC provider: " err), s')
    /\ calls s'
       = calls s0 ++ [CallListOpenIDConnectProviders]
         ++ (CallGetOpenIDConnectProvider ∘ getInputOf <$> providers)
         ++ [CallCreateOpenIDConnectProvider (createProviderInput req)]
    /\ stdout s' = stdout s0.
Proof.
  intros Hvalid Hlist Hpassed Hcreate.
  destruct (checkProviderExists_none (TrimSuffix (IssuerURL req) "/") providers s0
              (Hlist _) Hpassed) as (s1 & Hsearch & Hcalls1 & Hout1).
  rewrite (Handle_after_search req s0 _ s1 Hvalid Hsearch). cbn [snd fst].
  pose proof (createProvider_eq req s1) as Hcp. rewrite Hcreate in Hcp.
  rewrite (bind_Err _ _ s1 _ _ (wrapping_Err _ _ _ _ _ Hcp)).
  eexists. split; [reflexivity|]. cbn [calls stdout]. split.
  - rewrite Hcalls1. now rewrite <- !app_assoc.
  - exact Hout1.
Qed.

Lemma Handle_creation_failure_witness :
  exists s',
    @Handle unit
      (mocks.mock_IAMAPI
         (mocks.full "arn:existing" "https://other.example.com" mocks.refusal))
      mocks.sample_NetURL (mocks.request "https://example.com") mocks.start
    = (Err (wrap "failed to create OIDC provider: " mocks.refusal), s')
    /\ calls s'
       = [ CallListOpenIDConnectProviders;
           CallGetOpenIDConnectProvider
             {| get_OpenIDConnectProviderArn := Some "arn:existing" |};
           CallCreateOpenIDConnectProvider
             {| create_Url := "https://example.com";
                create_ThumbprintList := ["abc123"];
                create_ClientIDList := ["openshift"; "sts.amazonaws.com"] |} ]
    /\ stdout s' = [].
Proof.
  apply (@Handle_creation_failure_is_fatal unit
           (mocks.mock_IAMAPI
              (mocks.full "arn:existing" "https://other.example.com" mocks.refusal))
           mocks.sample_NetURL (mocks.request "https://example.com") mocks.start
           [ {| entry_Arn := Some "arn:existing" |} ] mocks.refusal);
    try reflexivity.
  constructor; [|constructor]. intros []. vm_compute. discriminate.
Defined.

(** X5.  Whatever the account answers, the handler creates at most under
    the request's own data and tags completely: every creation call it makes
    carries the input built from the request, and every tagging call carries
    exactly two tags, the component tag and the cluster tag with the
    request's cluster identifier, which is not empty. *)
Theorem Handle_calls_carry_the_request
    {W : Type} `{!IAMAPI W} `{!NetURL} (req : OIDCProvisionerRequest) :
  emits
    (fun c =>
       match c with
       | CallCreateOpenIDConnectProvider input => input = createProviderInput req
       | CallTagOpenIDConnectProvider input =>
         tag_Tags input
         = [ {| Key := "rosa:component"; Value := "oidc-provider" |};
             {| Key := "rosa:cluster-id"; Value := ClusterID req |} ]
         /\ ClusterID req <> EmptyString
       | _ => True
       end)
    (Handle req : M W Call OIDCProvisionerResponse).
Proof.
  destruct (validateRequest req) as [err|] eqn:Hvalid.
  - intros s r s' Hrun. rewrite (Handle_invalid req s err Hvalid) in Hrun.
    inversion Hrun; subst. exists []. rewrite app_nil_r. split; [reflexivity|constructor].
  - unfold Handle. rewrite Hvalid. pose proof (validateRequest_ClusterID req Hvalid) as Hcluster.
    assert (Htag : forall arn,
               emits
                 (fun c =>
                    match c with
                    | CallCreateOpenIDConnectProvider input =>
                      input = createProviderInput req
                    | CallTagOpenIDConnectProvider input =>
                      tag_Tags input
                      = [ {| Key := "rosa:component"; Value := "oidc-provider" |};
                          {| Key := "rosa:cluster-id"; Value := ClusterID req |} ]
                      /\ ClusterID req <> EmptyString
                    | _ => True
                    end)
                 (tagProvider arn (ClusterID req) : M W Call unit)).
    { intros arn. unfold tagProvider. apply emits_invoke. cbn [tag_Tags].
      split; [now apply providerTags_named|]. now apply String.eqb_neq. }
    apply emits_bind; [apply emits_wrapping, emits_ret|]. intros _.
    apply emits_bind.
    + apply emits_wrapping, emits_checkProviderExists; [exact I|intros; exact I].
    + intros [arn [|]].
      * apply emits_bind; [apply emits_wrapping, Htag|]. intros _. apply emits_ret.
      * apply emits_bind.
        { apply emits_wrapping. unfold createProvider. apply emits_bind.
          - now apply emits_invoke.
          - intros output. apply emits_deref. }
        intros created. apply emits_bind; [apply emits_try, Htag|].
        intros [[]|e]; (apply emits_bind; [|intros _; apply emits_ret]).
        -- apply emits_ret.
        -- apply emits_Printf.
Qed.

End HandlerPaths.

(** ** The package builder: limits, failures, cleanup *)

Module PackageProperties.
Import Go GoFacts deployer DeployerSpec.
Local Open Scope go_scope.

Lemma hex_byte_digits (b : Byte.byte) : all_chars is_hex_digit (hex_byte b) = true.
Proof. destruct b; reflexivity. Qed.

Lemma hex_byte_length (b : Byte.byte) : String.length (hex_byte b) = 2%nat.
Proof. reflexivity. Qed.

Lemma all_chars_app p (u v : string) :
  all_chars p (u +:+ v) = all_chars p u && all_chars p v.
Proof.
  induction u as [|c u IH]; simpl; [reflexivity|].
  rewrite IH. now rewrite andb_assoc.
Qed.

Lemma hex_string_digits (bs : list Byte.byte) :
  all_chars is_hex_digit (hex_string bs) = true.
Proof.
  induction bs as [|b bs IH]; [reflexivity|].
  cbn [hex_string]. now rewrite all_chars_app, hex_byte_digits, IH.
Qed.

Lemma hex_string_length (bs : list Byte.byte) :
  String.length (hex_string bs) = (2 * length bs)%nat.
Proof.
  induction bs as [|b bs IH]; [reflexivity|].
  cbn [hex_string]. rewrite length_app, hex_byte_length, IH. simpl. lia.
Qed.

Section BuildPaths.
Context {W E : Type} `{!BuildHost W} `{!Libraries}.
Implicit Types s : state W E.

(** [Build] past the creation of the temporary directory. *)
Lemma Build_in_temp_dir pb s tmpDir :
  fst (os_MkdirTemp EmptyString "lambda-build-*" (world s)) = Reply tmpDir ->
  Build pb s
  = deferred (os_RemoveAll tmpDir)
      (let binaryPath := filepath_Join tmpDir "bootstrap" in
       wrapping "failed to compile binary: " (compileBinary pb binaryPath) ;;;
       zipData <-- wrapping "failed to create zip package: "
                     (createZipPackage pb binaryPath) ;;
       if (maxPackageSize <? len zipData)%Z then
         fail (errors_New ("package size " +:+ pretty (len zipData)
                           +:+ " bytes exceeds maximum " +:+ pretty maxPackageSize
                           +:+ " bytes"))
       else
         let hash := sha256_Sum256 zipData in
         let hashStr := hex_string hash in
         ret (zipData, hashStr))
      (mkState (snd (os_MkdirTemp EmptyString "lambda-build-*" (world s)))
               (calls s) (stdout s)).
Proof.
  intros Hdir. unfold Build, bind at 1, wrapping at 1, host at 1.
  destruct (os_MkdirTemp EmptyString "lambda-build-*" (world s)) as [r w0].
  cbn [fst snd] in *. now subst r.
Qed.

End BuildPaths.

(** X9.  A package [Build] returns is never larger than 52,428,800 bytes
    (50 MiB), and the checksum returned with it is the SHA-256 digest of
    exactly the returned bytes, written with two lower-case hexadecimal
    digits for each byte of the digest. *)
Theorem Build_returns_bounded_package_with_its_digest
    {W E : Type} `{!BuildHost W} `{!Libraries}
    (pb : PackageBuilder) (s s' : state W E)
    (zipData : list Byte.byte) (checksum : string) :
  Build pb s = (Ok (zipData, checksum), s') ->
  (Z.of_nat (length zipData) <= 52428800)%Z
  /\ checksum = hex_string (sha256_Sum256 zipData)
  /\ String.length checksum = (2 * length (sha256_Sum256 zipData))%nat
  /\ all_chars is_hex_digit checksum = true.
Proof.
  intros Hbuild. apply Build_Ok in Hbuild. destruct Hbuild as (_ & Hsize & ->).
  split; [exact Hsize|]. split; [reflexivity|].
  split; [apply hex_string_length | apply hex_string_digits].
Qed.

Lemma Build_returns_bounded_package_witness :
  (Z.of_nat (length mocks.binary) <= 52428800)%Z
  /\ "7f45" = hex_string (@sha256_Sum256 mocks.toy_Libraries mocks.binary)
  /\ String.length "7f45"
     = (2 * length (@sha256_Sum256 mocks.toy_Libraries mocks.binary))%nat
  /\ all_chars is_hex_digit "7f45" = true.
Proof.
  apply (@Build_returns_bounded_package_with_its_digest unit Call
           (mocks.scripted_BuildHost None mocks.binary) mocks.toy_Libraries
           (NewPackageBuilder "../functions/oidc-provisioner")
           mocks.start mocks.start mocks.binary "7f45").
  reflexivity.
Defined.

(** X10.  Once the temporary build directory exists, [Build] removes it
    before it returns, whichever way it returns; when the directory cannot
    be created, [Build] stops there with the error behind "failed to create
    temp directory: " and runs nothing else. *)
Theorem Build_removes_its_temp_dir
    {W E : Type} `{!BuildHost W} `{!Libraries}
    (pb : PackageBuilder) (s : state W E) :
  match fst (os_MkdirTemp EmptyString "lambda-build-*" (world s)) with
  | Reply tmpDir => exists w, world (snd (Build pb s)) = os_RemoveAll tmpDir w
  | Fault err =>
    Build pb s
    = (Err (wrap "failed to create temp directory: " err),
       mkState (snd (os_MkdirTemp EmptyString "lambda-build-*" (world s)))
               (calls s) (stdout s))
  end.
Proof.
  destruct (fst (os_MkdirTemp EmptyString "lambda-build-*" (world s)))
    as [tmpDir|err] eqn:Hdir.
  - rewrite (Build_in_temp_dir pb s tmpDir Hdir). unfold deferred.
    match goal with |- context [let '(_, _) := ?run in _] => destruct run as [r s1] end.
    now exists (world s1).
  - unfold Build, bind, wrapping, host.
    destruct (os_MkdirTemp EmptyString "lambda-build-*" (world s)) as [r w0].
    cbn [fst snd] in *. now subst r.
Qed.

(** X11.  When the compiler fails, [Build] returns its error behind
    "failed to compile binary: compilation failed: " and followed by what
    the compiler wrote to standard error; the temporary directory is
    removed and nothing else is run.  The compiler is run as [go build
    -ldflags "-s -w" -o <tmpDir>/bootstrap <sourceDir>] with the process
    environment extended by GOOS=linux, GOARCH=amd64, CGO_ENABLED=0 and
    GOTOOLCHAIN=auto. *)
Theorem Build_compile_failure
    {W E : Type} `{!BuildHost W} `{!Libraries}
    (pb : PackageBuilder) (s : state W E) (tmpDir : string)
    (err : error) (stderr : string) (w1 : W) :
  let w0 := snd (os_MkdirTemp EmptyString "lambda-build-*" (world s)) in
  fst (os_MkdirTemp EmptyString "lambda-build-*" (world s)) = Reply tmpDir ->
  exec_Run
    ["go"; "build"; "-ldflags"; "-s -w"; "-o"; filepath_Join tmpDir "bootstrap";
     sourceDir pb]
    (os_Environ w0 ++ ["GOOS=linux"; "GOARCH=amd64"; "CGO_ENABLED=0"; "GOTOOLCHAIN=auto"])
    w0
  = ((Some err, stderr), w1) ->
  Build pb s
  = (Err (Errorf "failed to compile binary: "
            (Errorf "compilation failed: " err (", stderr: " +:+ stderr))
            EmptyString),
     mkState (os_RemoveAll tmpDir w1) (calls s) (stdout s)).
Proof.
  intros w0 Hdir Hrun. rewrite (Build_in_temp_dir pb s tmpDir Hdir). fold w0.
  unfold deferred. cbv zeta. unfold bind at 1, wrapping at 1, compileBinary.
  cbn [world calls stdout]. rewrite Hrun. reflexivity.
Qed.

Lemma Build_compile_failure_witness :
  @Build (list string) Call (mocks.tracking_BuildHost (Some mocks.refusal) mocks.binary)
    mocks.toy_Libraries (NewPackageBuilder "../functions/oidc-provisioner")
    (mkState [] [] [])
  = (Err (Errorf "failed to compile binary: "
            (Errorf "compilation failed: " mocks.refusal ", stderr: build output")
            EmptyString),
     mkState [] [] []).
Proof.
  apply (@Build_compile_failure (list string) Call
           (mocks.tracking_BuildHost (Some mocks.refusal) mocks.binary)
           mocks.toy_Libraries (NewPackageBuilder "../functions/oidc-provisioner")
           (mkState [] [] []) "/tmp/lambda-build-1" mocks.refusal "build output"
           ["/tmp/lambda-build-1"]); reflexivity.
Defined.

End PackageProperties.

(** ** The orchestrator: what a run calls and what it never calls *)

Module DeployerPaths.
Import Go GoFacts deployer DeployerSpec.
Local Open Scope go_scope.

Ltac emits_walk :=
  repeat first
    [ apply emits_Build
    | apply emits_ret | apply emits_fail | apply emits_panic | apply emits_deref
    | apply emits_Printf | apply emits_host | apply emits_lift
    | apply emits_wrapping | apply emits_try
    | apply emits_invoke; reflexivity
    | apply emits_bind; [|intros ?]
    | match goal with
      | |- emits _ (match ?x with _ => _ end) => destruct x eqn:?
      end ];
  try congruence.

Section Records.
Context {W : Type}.
Implicit Types s : state W Call.

Lemma emits_records {A} (P : Call -> Prop) (m : M W Call A) :
  emits P m -> records (Forall P) m.
Proof. intros Hm s r s' Hrun. exact (Hm s r s' Hrun). Qed.

Lemma records_weaken {A} (Q Q' : list Call -> Prop) (m : M W Call A) :
  (forall evs, Q evs -> Q' evs) -> records Q m -> records Q' m.
Proof.
  intros HQ Hm s r s' Hrun. destruct (Hm s r s' Hrun) as (evs & Hc & Hevs). eauto.
Qed.

Lemma records_wrapping {A} Q prefix (m : M W Call A) :
  records Q m -> records Q (wrapping prefix m).
Proof.
  intros Hm s r s' Hrun. unfold wrapping in Hrun.
  destruct (m s) as [[a|e|] s1] eqn:Hms; inversion Hrun; subst; eapply Hm; eauto.
Qed.

(** The calls of a sequence are those of its first step, followed by those
    of the rest when the first step returns. *)
Lemma records_bind {A B} (Q1 Q2 Q : list Call -> Prop)
    (m : M W Call A) (k : A -> M W Call B) :
  records Q1 m ->
  (forall a, records Q2 (k a)) ->
  (forall evs, Q1 evs -> Q evs) ->
  (forall evs1 evs2, Q1 evs1 -> Q2 evs2 -> Q (evs1 ++ evs2)) ->
  records Q (bind m k).
Proof.
  intros Hm Hk Hstop Hboth s r s' Hrun. unfold bind in Hrun.
  destruct (m s) as [[a|e|] s1] eqn:Hms.
  - destruct (Hm s _ s1 Hms) as (evs1 & Hc1 & H1).
    destruct (Hk a s1 r s' Hrun) as (evs2 & Hc2 & H2).
    exists (evs1 ++ evs2). split; [|now apply Hboth].
    rewrite Hc2, Hc1. now rewrite <- app_assoc.
  - inversion Hrun; subst. destruct (Hm s _ s' Hms) as (evs1 & Hc1 & H1). eauto.
  - inversion Hrun; subst. destruct (Hm s _ s' Hms) as (evs1 & Hc1 & H1). eauto.
Qed.

End Records.

Section Says.
Context {W E : Type}.
Implicit Types s : state W E.

Lemma silent_says {A} P (m : M W E A) : silent m -> says P m.
Proof.
  intros Hm s r s' Hrun. exists []. rewrite app_nil_r.
  split; [exact (Hm s r s' Hrun) | constructor].
Qed.

Lemma silent_ret {A} (a : A) : silent (ret a : M W E A).
Proof. intros s r s' Hrun. now inversion Hrun. Qed.

Lemma silent_fail {A} e : silent (fail e : M W E A).
Proof. intros s r s' Hrun. now inversion Hrun. Qed.

Lemma silent_deref {A} (p : option A) : silent (deref p : M W E A).
Proof. intros s r s' Hrun. destruct p; now inversion Hrun. Qed.

Lemma silent_invoke {A} ev (f : W -> reply A * W) : silent (invoke ev f : M W E A).
Proof. intros s r s' Hrun. rewrite invoke_eq in Hrun. now inversion Hrun. Qed.

Lemma silent_host {A} (f : W -> reply A * W) : silent (host f : M W E A).
Proof.
  intros s r s' Hrun. unfold host in Hrun.
  destruct (f (world s)) as [[a|e] w']; now inversion Hrun.
Qed.

Lemma silent_bind {A B} (m : M W E A) (k : A -> M W E B) :
  silent m -> (forall a, silent (k a)) -> silent (bind m k).
Proof.
  intros Hm Hk s r s' Hrun. unfold bind in Hrun.
  destruct (m s) as [[a|e|] s1] eqn:Hms.
  - rewrite (Hk a s1 r s' Hrun). exact (Hm s _ s1 Hms).
  - inversion Hrun; subst. exact (Hm s _ s' Hms).
  - inversion Hrun; subst. exact (Hm s _ s' Hms).
Qed.

Lemma silent_wrapping {A} prefix (m : M W E A) : silent m -> silent (wrapping prefix m).
Proof.
  intros Hm s r s' Hrun. unfold wrapping in Hrun.
  destruct (m s) as [[a|e|] s1] eqn:Hms; inversion Hrun; subst; exact (Hm s _ s' Hms).
Qed.

Lemma silent_try {A} (m : M W E A) : silent m -> silent (try m).
Proof.
  intros Hm s r s' Hrun. unfold try in Hrun.
  destruct (m s) as [[a|e|] s1] eqn:Hms; inversion Hrun; subst; exact (Hm s _ s' Hms).
Qed.

Lemma says_Printf (P : string -> Prop) line : P line -> says P (Printf line : M W E unit).
Proof.
  intros Hline s r s' Hrun. inversion Hrun; subst. exists [line]. split; [reflexivity|].
  now constructor.
Qed.

Lemma says_bind {A B} P (m : M W E A) (k : A -> M W E B) :
  says P m -> (forall a, says P (k a)) -> says P (bind m k).
Proof.
  intros Hm Hk s r s' Hrun. unfold bind in Hrun.
  destruct (m s) as [[a|e|] s1] eqn:Hms.
  - destruct (Hm s _ s1 Hms) as (l1 & Hc1 & H1).
    destruct (Hk a s1 r s' Hrun) as (l2 & Hc2 & H2).
    exists (l1 ++ l2). split; [|now apply Forall_app].
    rewrite Hc2, Hc1. now rewrite <- app_assoc.
  - inversion Hrun; subst. exact (Hm s _ s' Hms).
  - inversion Hrun; subst. exact (Hm s _ s' Hms).
Qed.

Lemma says_try {A} P (m : M W E A) : says P m -> says P (try m).
Proof.
  intros Hm s r s' Hrun. unfold try in Hrun.
  destruct (m s) as [[a|e|] s1] eqn:Hms; inversion Hrun; subst; exact (Hm s _ s' Hms).
Qed.

End Says.

Ltac silent_walk :=
  repeat first
    [ apply silent_ret | apply silent_fail | apply silent_deref
    | apply silent_invoke | apply silent_host
    | apply silent_wrapping | apply silent_try
    | apply silent_bind; [|intros ?]
    | match goal with
      | |- silent (match ?x with _ => _ end) => destruct x
      end ].

Lemma writes_once_quiet cfg evs :
  Forall (fun c => writes_function c = false) evs -> writes_once cfg evs.
Proof.
  intros Hq. exists [], EmptyString. cbv zeta. left. now apply filter_none.
Qed.

Lemma writes_once_after_quiet cfg evs1 evs2 :
  Forall (fun c => writes_function c = false) evs1 ->
  writes_once cfg evs2 -> writes_once cfg (evs1 ++ evs2).
Proof.
  intros Hq (zipData & roleARN & Hw). exists zipData, roleARN. cbv zeta in *.
  now rewrite List.filter_app, (filter_none _ evs1 Hq).
Qed.

Lemma writes_once_before_quiet cfg evs1 evs2 :
  writes_once cfg evs1 ->
  Forall (fun c => writes_function c = false) evs2 ->
  writes_once cfg (evs1 ++ evs2).
Proof.
  intros (zipData & roleARN & Hw) Hq. exists zipData, roleARN. cbv zeta in *.
  now rewrite List.filter_app, (filter_none _ evs2 Hq), app_nil_r.
Qed.

Section Paths.
Context {W : Type}.
Context `{!LambdaAPI W} `{!IAMAPI W} `{!CloudWatchLogsAPI W}.
Context `{!BuildHost W} `{!Libraries} `{!JSONStrings}.
Implicit Types s : state W Call.

Lemma emits_findLogGroup_any (P : Call -> Prop) logGroupName groups :
  emits P (findLogGroup logGroupName groups : M W Call bool).
Proof.
  induction groups as [|lg rest IH]; simpl.
  - apply emits_ret.
  - apply emits_bind; [apply emits_deref|]. intros name.
    destruct (String.eqb name logGroupName); [apply emits_ret | exact IH].
Qed.

(** The role step talks to the role service only. *)
Lemma emits_role_calls cfg :
  emits (fun c => is_role_call c = true) (ensureExecutionRole cfg).
Proof. unfold ensureExecutionRole. emits_walk. Qed.

(** [updateFunction], one case per way it returns. *)
Lemma updateFunction_eq cfg zipData roleARN s :
  let code := updateCodeInput cfg zipData in
  let configuration := updateConfigurationInput cfg roleARN in
  let w1 := snd (UpdateFunctionCode code (world s)) in
  updateFunction cfg zipData roleARN s
  = match fst (UpdateFunctionCode code (world s)) with
    | Fault e =>
      (Err (wrap "failed to update function code: " e),
       mkState w1 (calls s ++ [CallUpdateFunctionCode code]) (stdout s))
    | Reply _ =>
      (match fst (UpdateFunctionConfiguration configuration w1) with
       | Reply _ => Ok tt
       | Fault e => Err (wrap "failed to update function configuration: " e)
       end,
       mkState (snd (UpdateFunctionConfiguration configuration w1))
               (calls s ++ [CallUpdateFunctionCode code;
                            CallUpdateFunctionConfiguration configuration])
               (stdout s))
    end.
Proof.
  intros code configuration w1. unfold updateFunction, bind, wrapping.
  rewrite invoke_eq. fold code w1.
  destruct (fst (UpdateFunctionCode code (world s))) as [[]|e]; [|reflexivity].
  rewrite invoke_eq. fold configuration. cbn [world calls stdout].
  rewrite <- app_assoc.
  destruct (fst (UpdateFunctionConfiguration configuration w1)) as [[]|e]; reflexivity.
Qed.

(** The creation or update writes the function in one of the four ways. *)
Lemma records_createOrUpdate cfg zipData roleARN found :
  records (writes_once cfg) (createOrUpdate cfg zipData roleARN found).
Proof.
  intros s r s' Hrun. destruct found as [[|] existingFunc]; unfold createOrUpdate in Hrun.
  - assert (Hnone : exists evs, calls s = calls s ++ evs /\ writes_once cfg evs).
    { exists []. rewrite app_nil_r. split; [reflexivity|].
      apply writes_once_quiet. constructor. }
    destruct existingFunc as [[[[[functionARN|]]|]]|]; cbn in Hrun;
      try (inversion Hrun; subst; exact Hnone).
    unfold bind, wrapping in Hrun. rewrite updateFunction_eq in Hrun. cbv zeta in Hrun.
    destruct (fst (UpdateFunctionCode (updateCodeInput cfg zipData) (world s)))
      as [[]|e].
    + exists [CallUpdateFunctionCode (updateCodeInput cfg zipData);
              CallUpdateFunctionConfiguration (updateConfigurationInput cfg roleARN)].
      split.
      * destruct (fst (UpdateFunctionConfiguration _ _)) as [[]|e];
          inversion Hrun; reflexivity.
      * exists zipData, roleARN. cbv zeta. right. right. right. reflexivity.
    + exists [CallUpdateFunctionCode (updateCodeInput cfg zipData)].
      split; [inversion Hrun; reflexivity|].
      exists zipData, roleARN. cbv zeta. right. right. left. reflexivity.
  - unfold createFunction, bind, wrapping in Hrun. rewrite invoke_eq in Hrun.
    exists [CallCreateFunction (createFunctionInput cfg zipData roleARN)].
    split.
    + destruct (fst (CreateFunction _ _)) as [[[arn|]]|e]; inversion Hrun; reflexivity.
    + exists zipData, roleARN. cbv zeta. right. left. reflexivity.
Qed.

Lemma records_Deploy cfg : records (writes_once cfg) (Deploy cfg).
Proof.
  unfold Deploy.
  apply (records_bind (Forall (fun c => writes_function c = false)) (writes_once cfg));
    [apply emits_records, emits_wrapping, emits_ensureExecutionRole
    | intros roleARN
    | apply writes_once_quiet | apply writes_once_after_quiet ].
  cbv zeta.
  apply (records_bind (Forall (fun c => writes_function c = false)) (writes_once cfg));
    [apply emits_records, emits_wrapping, emits_Build
    | intros [zipData checksum]
    | apply writes_once_quiet | apply writes_once_after_quiet ].
  apply (records_bind (Forall (fun c => writes_function c = false)) (writes_once cfg));
    [apply emits_records, emits_wrapping; unfold checkFunctionExists; emits_walk
    | intros [exists_ existingFunc]
    | apply writes_once_quiet | apply writes_once_after_quiet ].
  apply (records_bind (writes_once cfg) (Forall (fun c => writes_function c = false)));
    [apply (records_createOrUpdate cfg zipData roleARN (exists_, existingFunc))
    | intros [functionARN status]
    | auto | apply writes_once_before_quiet ].
  apply emits_records.
  apply emits_bind; [|intros _; apply emits_bind; [|intros _; apply emits_bind;
                                                     [|intros _; apply emits_ret]]].
  - destruct (_ && _); [|apply emits_ret].
    apply emits_warn, emits_addResourcePolicy.
  - apply emits_warn, emits_ensureLogGroup.
  - destruct (0 <? size (Tags cfg))%nat; [|apply emits_ret].
    apply emits_warn, emits_tagFunction.
Qed.

(** [Deploy] when the role step does not return a role. *)
Lemma Deploy_without_role cfg s s1 :
  (forall roleARN, ensureExecutionRole cfg s <> (Ok roleARN, s1)) ->
  snd (ensureExecutionRole cfg s) = s1 ->
  (forall res, fst (Deploy cfg s) <> Ok res) /\ snd (Deploy cfg s) = s1.
Proof.
  intros Hfail Hs1. unfold Deploy.
  destruct (ensureExecutionRole cfg s) as [[roleARN|e|] s1'] eqn:Hrole;
    cbn [snd] in Hs1; subst s1'.
  - now destruct (Hfail roleARN).
  - rewrite (bind_Err _ _ s _ s1 (wrapping_Err _ _ _ _ _ Hrole)).
    split; [discriminate|reflexivity].
  - rewrite (bind_Panic _ _ s s1 (wrapping_Panic _ _ _ _ Hrole)).
    split; [discriminate|reflexivity].
Qed.

(** [Deploy] when the role is there and the build does not return a
    package. *)
Lemma Deploy_without_package cfg s roleARN s1 s2 :
  ensureExecutionRole cfg s = (Ok roleARN, s1) ->
  (forall built, Build (NewPackageBuilder (SourceDir cfg)) s1 <> (Ok built, s2)) ->
  snd (Build (NewPackageBuilder (SourceDir cfg)) s1) = s2 ->
  (forall res, fst (Deploy cfg s) <> Ok res) /\ snd (Deploy cfg s) = s2.
Proof.
  intros Hrole Hfail Hs2. unfold Deploy.
  rewrite (bind_Ok _ _ s roleARN s1) by (now apply wrapping_Ok).
  cbv zeta.
  destruct (Build (NewPackageBuilder (SourceDir cfg)) s1) as [[built|e|] s2'] eqn:Hbuild;
    cbn [snd] in Hs2; subst s2'.
  - now destruct (Hfail built).
  - rewrite (bind_Err _ _ s1 _ s2 (wrapping_Err _ _ _ _ _ Hbuild)).
    split; [discriminate|reflexivity].
  - rewrite (bind_Panic _ _ s1 s2 (wrapping_Panic _ _ _ _ Hbuild)).
    split; [discriminate|reflexivity].
Qed.

(** The four steps that must succeed print nothing. *)
Lemma silent_ensureExecutionRole cfg : silent (ensureExecutionRole cfg).
Proof.
  unfold ensureExecutionRole, lift, GenerateLambdaExecutionRoleTrustPolicy,
    GenerateOIDCProvisionerPermissionsPolicy, json_Marshal.
  silent_walk.
Qed.

Lemma silent_lift {A} (r : reply A) : silent (lift r : M W Call A).
Proof. destruct r; [apply silent_ret | apply silent_fail]. Qed.

Lemma silent_deferred {A} cleanup (body : M W Call A) :
  silent body -> silent (deferred cleanup body).
Proof.
  intros Hbody s r s' Hrun. unfold deferred in Hrun.
  destruct (body s) as [r1 s1] eqn:Hbs. inversion Hrun; subst. cbn [stdout].
  exact (Hbody s _ s1 Hbs).
Qed.

Lemma silent_compileBinary pb outputPath :
  silent (compileBinary pb outputPath : M W Call unit).
Proof.
  intros s r s' Hrun. unfold compileBinary in Hrun.
  destruct (exec_Run _ _ (world s)) as [[[err|] stderr] w1].
  - now inversion Hrun.
  - revert Hrun.
    match goal with
    | |- ?m ?s1 = _ -> _ =>
      intros Hrun; assert (Hm : silent m) by silent_walk; exact (Hm s1 r s' Hrun)
    end.
Qed.

Lemma silent_Build pb : silent (Build pb : M W Call (list Byte.byte * string)).
Proof.
  unfold Build. apply silent_bind; [silent_walk|]. intros tmpDir.
  apply silent_deferred. cbv zeta.
  apply silent_bind; [apply silent_wrapping, silent_compileBinary|]. intros _.
  apply silent_bind.
  - apply silent_wrapping. unfold createZipPackage.
    apply silent_bind; [silent_walk|]. intros file. apply silent_deferred.
    repeat first [ apply silent_lift | apply silent_ret | apply silent_host
                 | apply silent_wrapping | apply silent_bind; [|intros ?] ].
  - intros zipData. destruct (maxPackageSize <? len zipData)%Z;
      [apply silent_fail | apply silent_ret].
Qed.

Lemma silent_checkFunctionExists cfg : silent (checkFunctionExists cfg).
Proof. unfold checkFunctionExists. silent_walk. Qed.

Lemma silent_createOrUpdate cfg zipData roleARN found :
  silent (createOrUpdate cfg zipData roleARN found).
Proof.
  destruct found as [[|] existingFunc];
    unfold createOrUpdate, updateFunction, createFunction; silent_walk.
Qed.

(** The steps after the function is written print warnings only. *)
Lemma says_warn (P : string -> Prop) what (m : M W Call unit) :
  says P m ->
  (forall err, P ("Warning: " +:+ what +:+ Error err +:+ newline)) ->
  says P (warn what m).
Proof.
  intros Hm HP. unfold warn. apply says_bind; [apply says_try, Hm|].
  intros [[]|err]; [apply silent_says, silent_ret | apply says_Printf, HP].
Qed.

Lemma silent_findLogGroup logGroupName groups :
  silent (findLogGroup logGroupName groups : M W Call bool).
Proof.
  induction groups as [|lg rest IH]; simpl.
  - apply silent_ret.
  - apply silent_bind; [apply silent_deref|]. intros name.
    destruct (String.eqb name logGroupName); [apply silent_ret | exact IH].
Qed.

Lemma says_ensureLogGroup cfg logGroupName :
  says (fun line => String.prefix "Warning: " line = true)
       (ensureLogGroup cfg logGroupName).
Proof.
  unfold ensureLogGroup.
  apply says_bind; [apply silent_says; silent_walk|]. intros described.
  apply says_bind.
  - apply silent_says. destruct described as [out|e]; [|apply silent_ret].
    destruct (0 <? length (LogGroups out))%nat;
      [apply silent_findLogGroup | apply silent_ret].
  - intros [|]; [apply silent_says, silent_ret|].
    unfold createAndConfigureLogGroup.
    apply says_bind; [apply silent_says; silent_walk|]. intros created.
    apply says_bind; [apply silent_says; silent_walk|]. intros _.
    apply says_bind; [apply silent_says; silent_walk|]. intros _.
    destruct (0 <? size (Tags cfg))%nat; [|apply silent_says, silent_ret].
    apply says_bind; [apply silent_says; silent_walk|].
    intros [[]|err]; [apply silent_says, silent_ret|].
    apply says_Printf. reflexivity.
Qed.

(** [Deploy] when the lookup of the function does not return. *)
Lemma Deploy_without_lookup cfg s roleARN s1 zipData checksum s2 s3 :
  ensureExecutionRole cfg s = (Ok roleARN, s1) ->
  Build (NewPackageBuilder (SourceDir cfg)) s1 = (Ok (zipData, checksum), s2) ->
  (forall found, checkFunctionExists cfg s2 <> (Ok found, s3)) ->
  snd (checkFunctionExists cfg s2) = s3 ->
  snd (Deploy cfg s) = s3.
Proof.
  intros Hrole Hbuild Hfail Hs3. unfold Deploy.
  rewrite (bind_Ok _ _ s roleARN s1) by (now apply wrapping_Ok).
  cbv zeta.
  rewrite (bind_Ok _ _ s1 (zipData, checksum) s2) by (now apply wrapping_Ok).
  destruct (checkFunctionExists cfg s2) as [[found|e|] s3'] eqn:Hcheck;
    cbn [snd] in Hs3; subst s3'.
  - now destruct (Hfail found).
  - now rewrite (bind_Err _ _ s2 _ s3 (wrapping_Err _ _ _ _ _ Hcheck)).
  - now rewrite (bind_Panic _ _ s2 s3 (wrapping_Panic _ _ _ _ Hcheck)).
Qed.

(** [Deploy] when the function is neither created nor updated. *)
Lemma Deploy_without_function cfg s roleARN s1 zipData checksum s2 found s3 s4 :
  ensureExecutionRole cfg s = (Ok roleARN, s1) ->
  Build (NewPackageBuilder (SourceDir cfg)) s1 = (Ok (zipData, checksum), s2) ->
  checkFunctionExists cfg s2 = (Ok found, s3) ->
  (forall deployed, createOrUpdate cfg zipData roleARN found s3 <> (Ok deployed, s4)) ->
  snd (createOrUpdate cfg zipData roleARN found s3) = s4 ->
  snd (Deploy cfg s) = s4.
Proof.
  intros Hrole Hbuild Hcheck Hfail Hs4. unfold Deploy.
  rewrite (bind_Ok _ _ s roleARN s1) by (now apply wrapping_Ok).
  cbv zeta.
  rewrite (bind_Ok _ _ s1 (zipData, checksum) s2) by (now apply wrapping_Ok).
  rewrite (bind_Ok _ _ s2 found s3) by (now apply wrapping_Ok).
  destruct found as [exists_ existingFunc].
  destruct (createOrUpdate cfg zipData roleARN (exists_, existingFunc) s3)
    as [[deployed|e|] s4'] eqn:Hfn; cbn [snd] in Hs4; subst s4'.
  - now destruct (Hfail deployed).
  - now rewrite (bind_Err _ _ s3 _ s4 Hfn).
  - now rewrite (bind_Panic _ _ s3 s4 Hfn).
Qed.

Lemma says_Deploy cfg :
  says (fun line => String.prefix "Warning: " line = true) (Deploy cfg).
Proof.
  unfold Deploy.
  apply says_bind; [apply silent_says, silent_wrapping, silent_ensureExecutionRole|].
  intros roleARN. cbv zeta.
  apply says_bind; [apply silent_says, silent_wrapping, silent_Build|].
  intros [zipData checksum].
  apply says_bind; [apply silent_says, silent_wrapping, silent_checkFunctionExists|].
  intros [exists_ existingFunc].
  apply says_bind;
    [apply silent_says, (silent_createOrUpdate cfg zipData roleARN (exists_, existingFunc))|].
  intros [functionARN status].
  apply says_bind; [|intros _; apply says_bind; [|intros _; apply says_bind;
                                                    [|intros _; apply silent_says, silent_ret]]].
  - destruct (_ && _); [|apply silent_says, silent_ret].
    apply says_warn; [|intros err; reflexivity].
    apply silent_says. unfold addResourcePolicy.
    apply silent_bind; [apply silent_lift|]. intros policy. silent_walk.
  - apply says_warn; [apply says_ensureLogGroup | intros err; reflexivity].
  - destruct (0 <? size (Tags cfg))%nat; [|apply silent_says, silent_ret].
    apply says_warn; [|intros err; reflexivity].
    apply silent_says. unfold tagFunction. silent_walk.
Qed.

(** A run of [Deploy] that returns an error has printed nothing. *)
Lemma Deploy_error_silent cfg s e :
  fst (Deploy cfg s) = Err e -> stdout (snd (Deploy cfg s)) = stdout s.
Proof.
  intros Herr.
  destruct (ensureExecutionRole cfg s) as [r1 s1] eqn:Hrole.
  pose proof (silent_ensureExecutionRole cfg s r1 s1 Hrole) as H1.
  assert (Hno1 : (forall roleARN, r1 <> Ok roleARN) -> snd (Deploy cfg s) = s1).
  { intros Hne. apply (Deploy_without_role cfg s s1).
    - intros roleARN. rewrite Hrole. intros Heq. inversion Heq. now apply (Hne roleARN).
    - now rewrite Hrole. }
  destruct r1 as [roleARN|e1|]; [|rewrite Hno1; [exact H1|discriminate]..].
  clear Hno1.
  destruct (Build (NewPackageBuilder (SourceDir cfg)) s1) as [r2 s2] eqn:Hbuild.
  pose proof (silent_Build _ s1 r2 s2 Hbuild) as H2.
  assert (Hno2 : (forall built, r2 <> Ok built) -> snd (Deploy cfg s) = s2).
  { intros Hne. apply (Deploy_without_package cfg s roleARN s1 s2 Hrole).
    - intros built. rewrite Hbuild. intros Heq. inversion Heq. now apply (Hne built).
    - now rewrite Hbuild. }
  destruct r2 as [[zipData checksum]|e2|];
    [|rewrite Hno2; [congruence|discriminate]..].
  clear Hno2.
  destruct (checkFunctionExists cfg s2) as [r3 s3] eqn:Hcheck.
  pose proof (silent_checkFunctionExists cfg s2 r3 s3 Hcheck) as H3.
  assert (Hno3 : (forall found, r3 <> Ok found) -> snd (Deploy cfg s) = s3).
  { intros Hne.
    apply (Deploy_without_lookup cfg s roleARN s1 zipData checksum s2 s3 Hrole Hbuild).
    - intros found. rewrite Hcheck. intros Heq. inversion Heq. now apply (Hne found).
    - now rewrite Hcheck. }
  destruct r3 as [found|e3|]; [|rewrite Hno3; [congruence|discriminate]..].
  clear Hno3.
  destruct (createOrUpdate cfg zipData roleARN found s3) as [r4 s4] eqn:Hfn.
  pose proof (silent_createOrUpdate cfg zipData roleARN found s3 r4 s4 Hfn) as H4.
  assert (Hno4 : (forall deployed, r4 <> Ok deployed) -> snd (Deploy cfg s) = s4).
  { intros Hne.
    apply (Deploy_without_function cfg s roleARN s1 zipData checksum s2 found s3 s4
             Hrole Hbuild Hcheck).
    - intros deployed. rewrite Hfn. intros Heq. inversion Heq. now apply (Hne deployed).
    - now rewrite Hfn. }
  destruct r4 as [[functionARN status]|e4|]; [|rewrite Hno4; [congruence|discriminate]..].
  exfalso.
  exact (Deploy_past_errors cfg s roleARN s1 zipData checksum s2 found s3
           functionARN status s4 e Hrole Hbuild Hcheck Hfn Herr).
Qed.

(** [ensureExecutionRole] when the lookup does not find the role. *)
Lemma ensureExecutionRole_missing cfg s err :
  fst (GetRole (getRoleInput cfg) (world s)) = Fault err ->
  errors_As err iam_NoSuchEntityException = true ->
  ensureExecutionRole cfg s
  = (createOutput <-- wrapping "failed to create role: "
                        (invoke (CallCreateRole
                                   (createRoleInput cfg
                                      (json_text (json_of_PolicyDocument trustPolicyDocument))))
                                (CreateRole
                                   (createRoleInput cfg
                                      (json_text (json_of_PolicyDocument trustPolicyDocument))))) ;;
     role <-- deref (cr_Role createOutput) ;;
     roleARN <-- deref (Arn role) ;;
     wrapping "failed to attach permissions policy: "
       (invoke (CallPutRolePolicy
                  (putRolePolicyInput cfg
                     (json_text (json_of_PolicyDocument permissionsPolicyDocument))))
               (PutRolePolicy
                  (putRolePolicyInput cfg
                     (json_text (json_of_PolicyDocument permissionsPolicyDocument))))) ;;;
     ret roleARN)%go
      (mkState (snd (GetRole (getRoleInput cfg) (world s)))
               (calls s ++ [CallGetRole (getRoleInput cfg)]) (stdout s)).
Proof.
  intros Hget HnotFound. unfold ensureExecutionRole.
  unfold bind at 1. unfold try. rewrite invoke_eq, Hget, HnotFound. reflexivity.
Qed.

End Paths.

(** X12.  [ensureExecutionRole] looks the role up first.  When the lookup
    returns the role, its ARN is the answer and the lookup is the only call:
    nothing is created and no policy is attached.  When the lookup fails
    with anything but "no such entity", the step stops with that error
    behind "failed to check if role exists: ", again after that one call. *)
Theorem ensureExecutionRole_reuses_or_stops
    {W : Type} `{!IAMAPI W} `{!JSONStrings}
    (cfg : DeploymentConfig) (s : state W Call) :
  let lookup := {| gr_RoleName := ExecutionRoleName cfg |} in
  let s1 := mkState (snd (GetRole lookup (world s)))
                    (calls s ++ [CallGetRole lookup]) (stdout s) in
  (forall arn,
     fst (GetRole lookup (world s))
     = Reply {| gr_Role := Some {| Arn := Some arn |} |} ->
     ensureExecutionRole cfg s = (Ok arn, s1))
  /\ (forall err,
        fst (GetRole lookup (world s)) = Fault err ->
        errors_As err iam_NoSuchEntityException = false ->
        ensureExecutionRole cfg s
        = (Err (wrap "failed to check if role exists: " err), s1)).
Proof.
  intros lookup s1. split.
  - intros arn Hget. unfold ensureExecutionRole, bind at 1, try.
    rewrite invoke_eq. unfold getRoleInput. fold lookup. now rewrite Hget.
  - intros err Hget Hother. unfold ensureExecutionRole, bind at 1, try.
    rewrite invoke_eq. unfold getRoleInput. fold lookup. now rewrite Hget, Hother.
Qed.

Lemma ensureExecutionRole_reuses_or_stops_witness :
  @ensureExecutionRole unit (mocks.mock_RoleAPI mocks.existingRole)
    mocks.plain_JSONStrings (mocks.config EmptyString EmptyString) mocks.start
  = (Ok mocks.roleARN, mocks.logged [mocks.roleLookup])
  /\ @ensureExecutionRole unit (mocks.mock_RoleAPI mocks.unreachableRole)
       mocks.plain_JSONStrings (mocks.config EmptyString EmptyString) mocks.start
     = (Err (wrap "failed to check if role exists: " mocks.refusal),
        mocks.logged [mocks.roleLookup]).
Proof.
  split.
  - apply (proj1 (@ensureExecutionRole_reuses_or_stops unit
                    (mocks.mock_RoleAPI mocks.existingRole) mocks.plain_JSONStrings
                    (mocks.config EmptyString EmptyString) mocks.start)
             mocks.roleARN).
    reflexivity.
  - apply (proj2 (@ensureExecutionRole_reuses_or_stops unit
                    (mocks.mock_RoleAPI mocks.unreachableRole) mocks.plain_JSONStrings
                    (mocks.config EmptyString EmptyString) mocks.start)
             mocks.refusal); reflexivity.
Defined.

(** X13.  When the lookup reports that there is no such role,
    [ensureExecutionRole] creates the role under the configured name with
    the Lambda trust policy as its assume-role policy document, and then
    attaches the provisioner's permissions as the inline policy
    "OIDCProvisionerPermissions".  The answer is the ARN of the created
    role; a failure to attach the policy is returned behind "failed to
    attach permissions policy: ", the role having been created.  The calls
    are the lookup, the creation and the attachment, in that order. *)
Theorem ensureExecutionRole_creates_missing_role
    {W : Type} `{!IAMAPI W} `{!JSONStrings}
    (cfg : DeploymentConfig) (s : state W Call) (err : error) (arn : string) :
  let lookup := {| gr_RoleName := ExecutionRoleName cfg |} in
  let creation :=
    {| cr_RoleName := ExecutionRoleName cfg;
       cr_AssumeRolePolicyDocument := json_text (json_of_PolicyDocument trustPolicyDocument);
       cr_Description := "Execution role for ROSA OIDC provisioner Lambda" |} in
  let attachment :=
    {| prp_RoleName := ExecutionRoleName cfg;
       prp_PolicyName := "OIDCProvisionerPermissions";
       prp_PolicyDocument :=
         json_text (json_of_PolicyDocument permissionsPolicyDocument) |} in
  let w1 := snd (GetRole lookup (world s)) in
  let w2 := snd (CreateRole creation w1) in
  fst (GetRole lookup (world s)) = Fault err ->
  errors_As err iam_NoSuchEntityException = true ->
  fst (CreateRole creation w1) = Reply {| cr_Role := Some {| Arn := Some arn |} |} ->
  ensureExecutionRole cfg s
  = (match fst (PutRolePolicy attachment w2) with
     | Reply _ => Ok arn
     | Fault e => Err (wrap "failed to attach permissions policy: " e)
     end,
     mkState (snd (PutRolePolicy attachment w2))
             (calls s ++ [CallGetRole lookup; CallCreateRole creation;
                          CallPutRolePolicy attachment])
             (stdout s)).
Proof.
  intros lookup creation attachment w1 w2 Hget HnotFound Hcreate.
  rewrite (ensureExecutionRole_missing cfg s err Hget HnotFound).
  unfold getRoleInput, createRoleInput, putRolePolicyInput.
  fold lookup creation attachment w1.
  unfold bind, wrapping. rewrite invoke_eq. cbn [world calls stdout].
  rewrite Hcreate. cbn [deref cr_Role Arn ret]. rewrite invoke_eq.
  cbn [world calls stdout]. fold w2. rewrite <- !app_assoc.
  destruct (fst (PutRolePolicy attachment w2)) as [[]|e]; reflexivity.
Qed.

Lemma ensureExecutionRole_creates_witness :
  @ensureExecutionRole unit (mocks.mock_RoleAPI (mocks.missingRole (Fault mocks.refusal)))
    mocks.plain_JSONStrings (mocks.config EmptyString EmptyString) mocks.start
  = (Err (wrap "failed to attach permissions policy: " mocks.refusal),
     mocks.logged
       [ mocks.roleLookup;
         CallCreateRole
           {| cr_RoleName := "test-role";
              cr_AssumeRolePolicyDocument :=
                @json_text mocks.plain_JSONStrings
                  (json_of_PolicyDocument trustPolicyDocument);
              cr_Description := "Execution role for ROSA OIDC provisioner Lambda" |};
         CallPutRolePolicy
           {| prp_RoleName := "test-role";
              prp_PolicyName := "OIDCProvisionerPermissions";
              prp_PolicyDocument :=
                @json_text mocks.plain_JSONStrings
                  (json_of_PolicyDocument permissionsPolicyDocument) |} ]).
Proof.
  apply (@ensureExecutionRole_creates_missing_role unit
           (mocks.mock_RoleAPI (mocks.missingRole (Fault mocks.refusal)))
           mocks.plain_JSONStrings (mocks.config EmptyString EmptyString) mocks.start
           mocks.noSuchRole mocks.roleARN); reflexivity.
Defined.

(** X14.  Whatever the services answer, one run of [Deploy] writes the
    function in one of four ways and no other: not at all, by one
    [CreateFunction], by one [UpdateFunctionCode], or by one
    [UpdateFunctionCode] followed by one [UpdateFunctionConfiguration].  It
    never both creates and updates, and never updates the configuration
    without having updated the code. *)
Theorem Deploy_writes_the_function_once
    {W : Type} `{!LambdaAPI W} `{!IAMAPI W} `{!CloudWatchLogsAPI W}
    `{!BuildHost W} `{!Libraries} `{!JSONStrings}
    (cfg : DeploymentConfig) (s : state W Call) :
  exists evs zipData roleARN,
    calls (snd (Deploy cfg s)) = calls s ++ evs
    /\ (List.filter writes_function evs = []
        \/ List.filter writes_function evs
           = [CallCreateFunction (createFunctionInput cfg zipData roleARN)]
        \/ List.filter writes_function evs
           = [CallUpdateFunctionCode (updateCodeInput cfg zipData)]
        \/ List.filter writes_function evs
           = [CallUpdateFunctionCode (updateCodeInput cfg zipData);
              CallUpdateFunctionConfiguration (updateConfigurationInput cfg roleARN)]).
Proof.
  destruct (Deploy cfg s) as [r s'] eqn:Hrun.
  destruct (records_Deploy cfg s r s' Hrun) as (evs & Hcalls & zipData & roleARN & Hw).
  now exists evs, zipData, roleARN.
Qed.

(** X15.  Unless both the CLM service role ARN and the source account
    identifier are configured, [Deploy] never calls [AddPermission]: with
    either of them empty, no invoke permission is granted to anyone,
    whatever else the run does. *)
Theorem Deploy_grants_nothing_without_both_identifiers
    {W : Type} `{!LambdaAPI W} `{!IAMAPI W} `{!CloudWatchLogsAPI W}
    `{!BuildHost W} `{!Libraries} `{!JSONStrings}
    (cfg : DeploymentConfig) (s : state W Call) :
  CLMServiceRoleARN cfg = EmptyString \/ SourceAccountID cfg = EmptyString ->
  exists evs,
    calls (snd (Deploy cfg s)) = calls s ++ evs
    /\ Forall (fun c => is_add_permission c = false) evs.
Proof.
  intros Hmissing.
  assert (Hguard : negb (String.eqb (CLMServiceRoleARN cfg) EmptyString)
                   && negb (String.eqb (SourceAccountID cfg) EmptyString) = false).
  { destruct Hmissing as [-> | ->]; [reflexivity|]. now rewrite andb_false_r. }
  assert (Hemits : emits (fun c => is_add_permission c = false) (Deploy cfg)).
  { unfold Deploy, ensureExecutionRole, checkFunctionExists, createFunction,
      updateFunction, ensureLogGroup, createAndConfigureLogGroup, tagFunction, warn.
    emits_walk. apply emits_findLogGroup_any. }
  destruct (Deploy cfg s) as [r s'] eqn:Hrun. exact (Hemits s r s' Hrun).
Qed.

Lemma Deploy_grants_nothing_witness :
  exists evs,
    calls (snd (mocks.runDeploy mocks.existingRole (mocks.newFunctionLambda false)
                  (mocks.logs [] false) None
                  (mocks.config mocks.clmRoleARN EmptyString)))
    = calls (@mocks.start Call) ++ evs
    /\ Forall (fun c => is_add_permission c = false) evs.
Proof.
  apply (@Deploy_grants_nothing_without_both_identifiers unit
           (mocks.mock_LambdaAPI (mocks.newFunctionLambda false))
           (mocks.mock_RoleAPI mocks.existingRole)
           (mocks.mock_CloudWatchLogsAPI (mocks.logs [] false))
           (mocks.scripted_BuildHost None mocks.binary)
           mocks.toy_Libraries mocks.plain_JSONStrings
           (mocks.config mocks.clmRoleARN EmptyString) mocks.start).
  right. reflexivity.
Defined.

(** X16.  With no tags configured, [Deploy] makes no tagging call at all:
    neither [TagResource] on the function nor [TagLogGroup] on the log
    group, whatever else the run does. *)
Theorem Deploy_tags_nothing_without_tags
    {W : Type} `{!LambdaAPI W} `{!IAMAPI W} `{!CloudWatchLogsAPI W}
    `{!BuildHost W} `{!Libraries} `{!JSONStrings}
    (cfg : DeploymentConfig) (s : state W Call) :
  Tags cfg = ∅ ->
  exists evs,
    calls (snd (Deploy cfg s)) = calls s ++ evs
    /\ Forall (fun c => is_tag_call c = false) evs.
Proof.
  intros Htags.
  assert (Hguard : (0 <? size (Tags cfg))%nat = false).
  { rewrite tags_configured, Htags. reflexivity. }
  assert (Hemits : emits (fun c => is_tag_call c = false) (Deploy cfg)).
  { unfold Deploy, ensureExecutionRole, checkFunctionExists, createFunction,
      updateFunction, addResourcePolicy, ensureLogGroup, createAndConfigureLogGroup,
      tagFunction, warn.
    emits_walk. apply emits_findLogGroup_any. }
  destruct (Deploy cfg s) as [r s'] eqn:Hrun. exact (Hemits s r s' Hrun).
Qed.

Lemma Deploy_tags_nothing_witness :
  exists evs,
    calls (snd (mocks.runDeploy mocks.existingRole (mocks.existingFunctionLambda false)
                  (mocks.logs [] false) None
                  (mocks.untagged mocks.clmRoleARN "123456789012")))
    = calls (@mocks.start Call) ++ evs
    /\ Forall (fun c => is_tag_call c = false) evs.
Proof.
  apply (@Deploy_tags_nothing_without_tags unit
           (mocks.mock_LambdaAPI (mocks.existingFunctionLambda false))
           (mocks.mock_RoleAPI mocks.existingRole)
           (mocks.mock_CloudWatchLogsAPI (mocks.logs [] false))
           (mocks.scripted_BuildHost None mocks.binary)
           mocks.toy_Libraries mocks.plain_JSONStrings
           (mocks.untagged mocks.clmRoleARN "123456789012") mocks.start).
  reflexivity.
Defined.

(** X17.  [Deploy] touches the function service and the log service only
    once the execution role is ensured and the package is built: either
    both of these steps succeed, or [Deploy] returns no result and every
    call it has made went to the role service. *)
Theorem Deploy_fails_fast
    {W : Type} `{!LambdaAPI W} `{!IAMAPI W} `{!CloudWatchLogsAPI W}
    `{!BuildHost W} `{!Libraries} `{!JSONStrings}
    (cfg : DeploymentConfig) (s : state W Call) :
  (exists roleARN s1 zipData checksum s2,
      ensureExecutionRole cfg s = (Ok roleARN, s1)
      /\ Build (NewPackageBuilder (SourceDir cfg)) s1 = (Ok (zipData, checksum), s2))
  \/ ((forall res, fst (Deploy cfg s) <> Ok res)
      /\ exists evs,
           calls (snd (Deploy cfg s)) = calls s ++ evs
           /\ Forall (fun c => is_role_call c = true) evs).
Proof.
  destruct (ensureExecutionRole cfg s) as [r1 s1] eqn:Hrole.
  destruct (emits_role_calls cfg s r1 s1 Hrole) as (evs & Hcalls & Hevs).
  destruct r1 as [roleARN|e|].
  - destruct (Build (NewPackageBuilder (SourceDir cfg)) s1) as [r2 s2] eqn:Hbuild.
    pose proof (Build_calls _ s1 r2 s2 Hbuild) as Hsame.
    destruct r2 as [[zipData checksum]|e|].
    + left. now exists roleARN, s1, zipData, checksum, s2.
    + right.
      destruct (Deploy_without_package cfg s roleARN s1 s2 Hrole) as [Hno Hs2].
      * intros built. rewrite Hbuild. discriminate.
      * now rewrite Hbuild.
      * split; [exact Hno|]. exists evs. rewrite Hs2, Hsame. auto.
    + right.
      destruct (Deploy_without_package cfg s roleARN s1 s2 Hrole) as [Hno Hs2].
      * intros built. rewrite Hbuild. discriminate.
      * now rewrite Hbuild.
      * split; [exact Hno|]. exists evs. rewrite Hs2, Hsame. auto.
  - right. destruct (Deploy_without_role cfg s s1) as [Hno Hs1].
    + intros roleARN. rewrite Hrole. discriminate.
    + now rewrite Hrole.
    + split; [exact Hno|]. exists evs. rewrite Hs1. auto.
  - right. destruct (Deploy_without_role cfg s s1) as [Hno Hs1].
    + intros roleARN. rewrite Hrole. discriminate.
    + now rewrite Hrole.
    + split; [exact Hno|]. exists evs. rewrite Hs1. auto.
Qed.

(** X18.  When the existence check of the ensure-log-group step finds no
    group of exactly the requested name and the creation fails with
    anything but "already exists", the step stops with that error behind
    "failed to create log group: ".  It has listed and tried to create, and
    nothing more: no retention policy is set and no tag is applied. *)
Theorem ensureLogGroup_stops_at_creation_failure
    {W : Type} `{!CloudWatchLogsAPI W}
    (cfg : DeploymentConfig) (logGroupName : string) (s : state W Call)
    (err : error) :
  let describeInput := {| LogGroupNamePrefix := logGroupName |} in
  let createInput := {| clg_LogGroupName := logGroupName |} in
  let w1 := snd (DescribeLogGroups describeInput (world s)) in
  no_exact_match logGroupName (fst (DescribeLogGroups describeInput (world s))) ->
  fst (CreateLogGroup createInput w1) = Fault err ->
  errors_As err logs_ResourceAlreadyExistsException = false ->
  ensureLogGroup cfg logGroupName s
  = (Err (wrap "failed to create log group: " err),
     mkState (snd (CreateLogGroup createInput w1))
             (calls s ++ [CallDescribeLogGroups describeInput;
                          CallCreateLogGroup createInput])
             (stdout s)).
Proof.
  intros describeInput createInput w1 Hnone Hcreate Hother.
  set (s1 := mkState w1 (calls s ++ [CallDescribeLogGroups describeInput]) (stdout s)).
  transitivity (createAndConfigureLogGroup cfg logGroupName s1).
  - unfold ensureLogGroup, bind, try. rewrite invoke_eq.
    fold describeInput w1 s1. unfold no_exact_match in Hnone.
    destruct (fst (DescribeLogGroups describeInput (world s))) as [out|e];
      [|reflexivity].
    destruct (0 <? length (LogGroups out))%nat; [|reflexivity].
    now rewrite findLogGroup_absent.
  - unfold createAndConfigureLogGroup. cbv zeta. fold createInput.
    unfold bind, try. rewrite invoke_eq. cbn [world calls stdout s1].
    rewrite Hcreate, Hother. cbn [negb fail]. now rewrite <- app_assoc.
Qed.

Lemma ensureLogGroup_stops_witness :
  @ensureLogGroup unit (mocks.mock_CloudWatchLogsAPI (mocks.logs [] true))
    (mocks.config EmptyString EmptyString) "/aws/lambda/test-function" mocks.start
  = (Err (wrap "failed to create log group: " mocks.refusal),
     mocks.logged
       [ CallDescribeLogGroups {| LogGroupNamePrefix := "/aws/lambda/test-function" |};
         CallCreateLogGroup {| clg_LogGroupName := "/aws/lambda/test-function" |} ]).
Proof.
  apply (@ensureLogGroup_stops_at_creation_failure unit
           (mocks.mock_CloudWatchLogsAPI (mocks.logs [] true))
           (mocks.config EmptyString EmptyString) "/aws/lambda/test-function"
           mocks.start mocks.refusal).
  - constructor.
  - reflexivity.
  - reflexivity.
Defined.

(** X19.  Everything [Deploy] prints is a warning, a line that begins with
    "Warning: "; and a run that returns an error has printed nothing, so a
    warning is only ever printed once the function has been created or
    updated. *)
Theorem Deploy_prints_warnings_only
    {W : Type} `{!LambdaAPI W} `{!IAMAPI W} `{!CloudWatchLogsAPI W}
    `{!BuildHost W} `{!Libraries} `{!JSONStrings}
    (cfg : DeploymentConfig) (s : state W Call) :
  exists lines,
    stdout (snd (Deploy cfg s)) = stdout s ++ lines
    /\ Forall (fun line => String.prefix "Warning: " line = true) lines
    /\ ((exists e, fst (Deploy cfg s) = Err e) -> lines = []).
Proof.
  destruct (Deploy cfg s) as [r s'] eqn:Hrun.
  destruct (says_Deploy cfg s r s' Hrun) as (lines & Hout & Hlines).
  exists lines. split; [exact Hout|]. split; [exact Hlines|].
  intros [e He]. pose proof (Deploy_error_silent cfg s e) as Hsilent.
  rewrite Hrun in Hsilent. cbn [fst snd] in *. specialize (Hsilent He).
  rewrite Hout in Hsilent. rewrite <- (app_nil_r (stdout s)) in Hsilent at 2.
  now apply app_inv_head in Hsilent.
Qed.

End DeployerPaths.

(** ** Validation of the AWS credentials *)

Module ValidatorSpec.
Import Go GoFacts validator.
Local Open Scope go_scope.

Lemma inRegions_In region regions :
  inRegions region regions = true <-> In region regions.
Proof.
  induction regions as [|supported rest IH]; simpl.
  - split; [discriminate|tauto].
  - destruct (String.eqb_spec region supported) as [->|Hne].
    + split; auto.
    + rewrite IH. split; [auto|]. intros [Heq|Hin]; [congruence|exact Hin].
Qed.

Lemma isSupportedRegion_nonempty region :
  isSupportedRegion region = true -> String.eqb region EmptyString = false.
Proof.
  intros Hsup. destruct (String.eqb_spec region EmptyString) as [->|]; [|reflexivity].
  discriminate.
Qed.

Section ValidatorFacts.
Context {W : Type} `{!STSAPI W}.
Implicit Types s : state W Call.

(** [Validate], one case per way it returns. *)
Lemma Validate_eq v s :
  Validate v s
  = (Ok (match fst (GetCallerIdentity (world s)) with
         | Fault err =>
           ({| Valid := false;
               AccountID := EmptyString;
               UserARN := EmptyString;
               Region := EmptyString;
               ErrorMessage := "Failed to validate AWS credentials: " +:+ Error err |},
            Some err)
         | Reply output =>
           if String.eqb (region v) EmptyString then
             ({| Valid := false;
                 AccountID := EmptyString;
                 UserARN := EmptyString;
                 Region := EmptyString;
                 ErrorMessage := "AWS region is not configured" |},
              Some (errors_New "region not configured"))
           else if isSupportedRegion (region v) then
             ({| Valid := true;
                 AccountID := aws_ToString (Account output);
                 UserARN := aws_ToString (Arn output);
                 Region := region v;
                 ErrorMessage := EmptyString |},
              None)
           else
             ({| Valid := false;
                 AccountID := EmptyString;
                 UserARN := EmptyString;
                 Region := region v;
                 ErrorMessage := "AWS region '" +:+ region v +:+ "' is not supported" |},
              Some (errors_New ("unsupported region: " +:+ region v)))
         end),
     mkState (snd (GetCallerIdentity (world s)))
             (calls s ++ [CallGetCallerIdentity]) (stdout s)).
Proof.
  unfold Validate, bind, try. rewrite invoke_eq.
  destruct (fst (GetCallerIdentity (world s))) as [output|err]; [|reflexivity].
  destruct (String.eqb (region v) EmptyString); [reflexivity|].
  destruct (isSupportedRegion (region v)); reflexivity.
Qed.

End ValidatorFacts.

(** X6.  [Validate] always returns a report, after exactly one call to the
    identity service, made before the region is looked at.  The report and
    the error agree: the error is [nil] exactly when the report is valid, a
    valid report carries no error message and an invalid one carries one.
    The report is valid exactly when the identity call succeeded and the
    configured region is one of the supported regions. *)
Theorem Validate_verdict {W : Type} `{!STSAPI W}
    (v : AWSValidator) (s : state W Call) :
  exists result err,
    Validate v s
    = (Ok (result, err),
       mkState (snd (GetCallerIdentity (world s)))
               (calls s ++ [CallGetCallerIdentity]) (stdout s))
    /\ (err = None <-> Valid result = true)
    /\ (ErrorMessage result = EmptyString <-> Valid result = true)
    /\ (Valid result = true
        <-> (exists output, fst (GetCallerIdentity (world s)) = Reply output)
            /\ In (region v) supportedRegions).
Proof.
  rewrite Validate_eq.
  destruct (fst (GetCallerIdentity (world s))) as [output|e].
  - destruct (String.eqb_spec (region v) EmptyString) as [Hempty|Hregion].
    + do 2 eexists. split; [reflexivity|]. cbn [Valid ErrorMessage].
      repeat split; try discriminate.
      intros [_ Hin]. apply inRegions_In in Hin. rewrite Hempty in Hin. discriminate.
    + destruct (isSupportedRegion (region v)) eqn:Hsup.
      * do 2 eexists. split; [reflexivity|]. cbn [Valid ErrorMessage].
        repeat split; eauto. now apply inRegions_In.
      * do 2 eexists. split; [reflexivity|]. cbn [Valid ErrorMessage].
        repeat split; try discriminate.
        intros [_ Hin]. apply inRegions_In in Hin. unfold isSupportedRegion in Hsup.
        congruence.
  - do 2 eexists. split; [reflexivity|]. cbn [Valid ErrorMessage].
    repeat split; try discriminate. intros [[output Hout] _]. discriminate.
Qed.

(** X7.  With working credentials and a supported region, [Validate]
    reports the account and the caller's ARN as the identity service gave
    them (an absent one as the empty string) together with the configured
    region, and returns no error. *)
Theorem Validate_reports_identity {W : Type} `{!STSAPI W}
    (v : AWSValidator) (s : state W Call) (output : GetCallerIdentityOutput) :
  fst (GetCallerIdentity (world s)) = Reply output ->
  In (region v) supportedRegions ->
  fst (Validate v s)
  = Ok ({| Valid := true;
           AccountID := match Account output with Some a => a | None => EmptyString end;
           UserARN := match Arn output with Some a => a | None => EmptyString end;
           Region := region v;
           ErrorMessage := EmptyString |}, None).
Proof.
  intros Hid Hin. rewrite Validate_eq, Hid. cbn [fst].
  apply inRegions_In in Hin. fold (isSupportedRegion (region v)) in Hin.
  now rewrite (isSupportedRegion_nonempty _ Hin), Hin.
Qed.

Lemma Validate_reports_identity_witness :
  fst (@Validate unit (mocks.mock_STSAPI mocks.testUser)
         (NewAWSValidator "us-east-1") mocks.start)
  = Ok ({| Valid := true;
           AccountID := "123456789012";
           UserARN := "arn:aws:iam::123456789012:user/test-user";
           Region := "us-east-1";
           ErrorMessage := EmptyString |}, None).
Proof.
  apply (@Validate_reports_identity unit (mocks.mock_STSAPI mocks.testUser)
           (NewAWSValidator "us-east-1") mocks.start
           {| Account := Some "123456789012";
              Arn := Some "arn:aws:iam::123456789012:user/test-user";
              UserId := None |}).
  - reflexivity.
  - left. reflexivity.
Defined.

(** X8.  Credentials come first: when the identity call fails, [Validate]
    returns that very error, unwrapped, whatever region is configured, and
    the report quotes it behind "Failed to validate AWS credentials: " and
    names no region. *)
Theorem Validate_credentials_first {W : Type} `{!STSAPI W}
    (v : AWSValidator) (s : state W Call) (err : error) :
  fst (GetCallerIdentity (world s)) = Fault err ->
  exists result,
    fst (Validate v s) = Ok (result, Some err)
    /\ Valid result = false
    /\ Region result = EmptyString
    /\ ErrorMessage result = "Failed to validate AWS credentials: " +:+ Error err.
Proof.
  intros Hid. rewrite Validate_eq, Hid. cbn [fst]. eexists. split; [reflexivity|].
  cbn [Valid Region ErrorMessage]. auto.
Qed.

Lemma Validate_credentials_first_witness :
  exists result,
    fst (@Validate unit (mocks.mock_STSAPI mocks.invalidCredentials)
           (NewAWSValidator "unsupported-region") mocks.start)
    = Ok (result, Some (errors_New "invalid credentials"))
    /\ Valid result = false
    /\ Region result = EmptyString
    /\ ErrorMessage result = "Failed to validate AWS credentials: invalid credentials".
Proof.
  apply (@Validate_credentials_first unit (mocks.mock_STSAPI mocks.invalidCredentials)
           (NewAWSValidator "unsupported-region") mocks.start
           (errors_New "invalid credentials")).
  reflexivity.
Defined.

End ValidatorSpec.
